(** * Delongify (dlgfy_api): a shallow embedding of the URL shortener

    The repository holds three revisions of one Go program:
    - [src/main.go], first program (lines 1-178): the handler parses the
      target with [url.Parse] and defaults an empty scheme to [http]; the
      rate limiter has a custom [KeyGenerator];
    - [src/main.go], second program (lines 179-347): [assertProtocol]
      returns a string and drops the parse error; [isValidURL] probes the
      target;
    - [src/unnamed/part_000]: [assertProtocol] returns [(string, error)].

    The slug generator, the TTL index and the redirect handler are the same
    text in the three revisions and are embedded once.  What the program
    reaches outside itself (the random source, the MongoDB collection, the
    clock, the HTTP probe) is a field of [World]; the handlers are functions
    of the request in a state-and-error monad over [World]. *)

From Stdlib Require Import ZArith Lia Ascii String List Bool.
From stdpp Require Import base list strings gmap.

Local Open Scope string_scope.
Local Open Scope Z_scope.

(** ** Data model *)

(** [type URL struct { Value string `json:"url"` }] *)
Record URL := { Value : string }.

(** [type SlugURLPair struct { Slug, Url string; ExpireAt time.Time }];
    a [time.Time] is its number of nanoseconds since the epoch. *)
Record SlugURLPair := { Slug : string; Url : string; ExpireAt : Z }.

(** A rune of the program is always one of the ASCII runes of
    [SLUG_ALPHABET] or the zero rune [make] fills a slice with. *)
Definition rune := ascii.

Definition SLUG_ALPHABET : list rune :=
  list_ascii_of_string
    "abcdefghijklmnopqrstuvwxyzABCDEFGHIJKLMNOPQRSTUVWXYZ1234567890_-".

(** ** The world outside the program *)

(** An error value of the MongoDB driver: [mongo.ErrNoDocuments], or any
    other failure of the call (transport, time-out, decoding). *)
Inductive error :=
| ErrNoDocuments
| ErrOther (msg : string).

Record World := {
  (** outcome of the n-th draw from [rand.Reader] through [rand.Int]:
      the value drawn, or [None] when the reader returns an error *)
  rand_reader : nat -> option Z;
  rand_pos : nat;
  (** the collection [dlgfy.slug-url-pairs] in natural (insertion) order;
      no unique index exists on [slug], duplicates are possible *)
  docs : list SlugURLPair;
  ttl_index : bool;
  (** failure, if any, of the n-th call to the database driver *)
  db_fault : nat -> option string;
  db_calls : nat;
  (** [http.Get]: the final status code, or [None] on a transport error *)
  http_get : string -> option Z;
  (** [time.Now().UTC()], nanoseconds since the epoch *)
  clock : Z;
}.

Definition set_rand_pos (n : nat) (w : World) : World :=
  {| rand_reader := rand_reader w; rand_pos := n; docs := docs w;
     ttl_index := ttl_index w; db_fault := db_fault w;
     db_calls := db_calls w; http_get := http_get w; clock := clock w |}.

Definition set_db (ds : list SlugURLPair) (ix : bool) (n : nat) (w : World)
  : World :=
  {| rand_reader := rand_reader w; rand_pos := rand_pos w; docs := ds;
     ttl_index := ix; db_fault := db_fault w;
     db_calls := n; http_get := http_get w; clock := clock w |}.

(** ** Outcomes and the monad of the handlers *)

Inductive Result (A : Type) : Type :=
| Ok (a : A)
| Panic (msg : string)    (** a run-time panic, or [log.Panic] *)
| Fatal (msg : string)    (** [log.Fatal]: the process exits *)
| Diverge.                (** the loop is still running when the fuel ends *)
Arguments Ok {A} a.
Arguments Panic {A} msg.
Arguments Fatal {A} msg.
Arguments Diverge {A}.

Definition M (A : Type) : Type := World -> Result A * World.

Definition ret {A} (a : A) : M A := fun w => (Ok a, w).

Definition bind {A B} (m : M A) (k : A -> M B) : M B :=
  fun w =>
    match m w with
    | (Ok a, w') => k a w'
    | (Panic msg, w') => (Panic msg, w')
    | (Fatal msg, w') => (Fatal msg, w')
    | (Diverge, w') => (Diverge, w')
    end.

Definition panic {A} (msg : string) : M A := fun w => (Panic msg, w).
Definition fatal {A} (msg : string) : M A := fun w => (Fatal msg, w).
Definition diverge {A} : M A := fun w => (Diverge, w).

Notation "x <- m ;; k" := (bind m (fun x => k))
  (at level 100, m at next level, right associativity).
Notation "m ;;; k" := (bind m (fun _ => k))
  (at level 100, right associativity).

(** ** [crypto/rand] and [math/big], as the program uses them *)

(** [rand.Int(rand.Reader, max)]: panics when [max <= 0]; otherwise the
    next draw.  When the reader fails the library returns [nil, err]: the
    [*big.Int] is the nil pointer ([None]). *)
Definition rand_Int (max : Z) : M (option Z * option string) :=
  fun w =>
    if max <=? 0 then (Panic "crypto/rand: argument to Int is <= 0", w)
    else
      let w' := set_rand_pos (S (rand_pos w)) w in
      match rand_reader w (rand_pos w) with
      | Some n => (Ok (Some n, None), w')
      | None => (Ok (None, Some "crypto/rand: read failed"), w')
      end.

Definition wrap64 (z : Z) : Z := (z + 2^63) mod 2^64 - 2^63.

(** The method [Int64] of a [big.Int] pointer: it reads through the
    pointer, so a nil receiver panics; the result is the low 64 bits of
    the magnitude, negated for a negative number. *)
Definition Int64 (x : option Z) : M Z :=
  match x with
  | None => panic "invalid memory address or nil pointer dereference"
  | Some n =>
      let v := wrap64 (Z.abs n mod 2^64) in
      ret (if n <? 0 then wrap64 (- v) else v)
  end.

(** Indexing a slice: out of range is a run-time panic. *)
Definition index_rune (l : list rune) (i : Z) : M rune :=
  if (0 <=? i) && (i <? Z.of_nat (length l)) then
    match l !! Z.to_nat i with
    | Some c => ret c
    | None => panic "index out of range"
    end
  else panic "index out of range".

(** [make([]rune, length)] *)
Definition make_runes (len : Z) : M (list rune) :=
  if len <? 0 then panic "makeslice: len out of range"
  else ret (replicate (Z.to_nat len) zero).

(** ** Slug generation *)

(** The body of [for i := range s] in [generateRandomString], run for the
    indices [idxs] in turn. *)
Fixpoint generateRandomString_loop (idxs : list nat) (s : list rune)
  : M (list rune) :=
  match idxs with
  | [] => ret s
  | i :: rest =>
      r <- rand_Int (Z.of_nat (length SLUG_ALPHABET)) ;;
      n <- Int64 (fst r) ;;
      c <- index_rune SLUG_ALPHABET n ;;
      generateRandomString_loop rest (<[i:=c]> s)
  end.

Definition generateRandomString (len : Z) : M string :=
  s <- make_runes len ;;
  s <- generateRandomString_loop (seq 0 (length s)) s ;;
  ret (string_of_list_ascii s).

(** ** The standard library's [strings] functions the program relies on *)

Module strings.

(** [strings.Join(elems, sep)] *)
Definition Join (elems : list string) (sep : string) : string :=
  String.concat sep elems.

Definition HasPrefix (s pre : string) : bool := String.prefix pre s.

(** [strings.IndexByte]: position of the first [c] in [s] *)
Fixpoint IndexByte (s : string) (c : ascii) : option nat :=
  match s with
  | EmptyString => None
  | String a rest =>
      if Ascii.eqb a c then Some O
      else match IndexByte rest c with
           | Some i => Some (S i)
           | None => None
           end
  end.

(** position of the last [c] in [s] *)
Fixpoint LastIndexByte (s : string) (c : ascii) : option nat :=
  match s with
  | EmptyString => None
  | String a rest =>
      match LastIndexByte rest c with
      | Some i => Some (S i)
      | None => if Ascii.eqb a c then Some O else None
      end
  end.

Definition ContainsByte (s : string) (c : ascii) : bool :=
  match IndexByte s c with Some _ => true | None => false end.

Fixpoint CountByte (s : string) (c : ascii) : nat :=
  match s with
  | EmptyString => O
  | String a rest =>
      ((if Ascii.eqb a c then 1 else 0) + CountByte rest c)%nat
  end.

(** [s[:i]] and [s[i:]] *)
Definition upto (i : nat) (s : string) : string := String.substring 0 i s.
Definition from (i : nat) (s : string) : string :=
  String.substring i (String.length s - i) s.

(** [strings.Cut(s, sep)] for a one-byte separator *)
Definition Cut (s : string) (sep : ascii) : string * string * bool :=
  match IndexByte s sep with
  | Some i => (upto i s, from (S i) s, true)
  | None => (s, EmptyString, false)
  end.

Definition HasSuffixByte (s : string) (c : ascii) : bool :=
  match String.get (String.length s - 1) s with
  | Some a => Ascii.eqb a c
  | None => false
  end.

Definition lower (c : ascii) : ascii :=
  if (("A" <=? c) && (c <=? "Z"))%char
  then ascii_of_N (N_of_ascii c + 32) else c.

(** [strings.ToLower], on the ASCII strings it is applied to *)
Fixpoint ToLower (s : string) : string :=
  match s with
  | EmptyString => EmptyString
  | String a rest => String (lower a) (ToLower rest)
  end.

End strings.

(** ** The standard library's [net/url]: [Parse] and [String]

    The program's normalisation is [url.Parse] followed by [String] on the
    result, so both are embedded, function by function, after the
    library's source (Go 1.20).  A Go string is its sequence of bytes. *)

Module url.
Import strings.

Inductive encoding :=
| encodePath | encodePathSegment | encodeHost | encodeZone
| encodeUserPassword | encodeQueryComponent | encodeFragment.

(** The error values of the package: [EscapeError], [InvalidHostError],
    [errors.New] and [fmt.Errorf] with the one argument it quotes. *)
Inductive Error :=
| EscapeError (s : string)
| InvalidHostError (s : string)
| ErrorString (msg : string)
| ErrorFmt (format arg : string).

Record Userinfo := {
  username : string; password : string; passwordSet : bool }.

Record URL := {
  Scheme : string;
  Opaque : string;
  User : option Userinfo;
  Host : string;
  Path : string;
  RawPath : string;
  OmitHost : bool;
  ForceQuery : bool;
  RawQuery : string;
  Fragment : string;
  RawFragment : string;
}.

(** [new(URL)] *)
Definition zero : URL :=
  {| Scheme := ""; Opaque := ""; User := None; Host := ""; Path := "";
     RawPath := ""; OmitHost := false; ForceQuery := false;
     RawQuery := ""; Fragment := ""; RawFragment := "" |}.

Definition set_Scheme (v : string) (u : URL) : URL :=
  {| Scheme := v; Opaque := Opaque u; User := User u; Host := Host u;
     Path := Path u; RawPath := RawPath u; OmitHost := OmitHost u;
     ForceQuery := ForceQuery u; RawQuery := RawQuery u;
     Fragment := Fragment u; RawFragment := RawFragment u |}.

Definition set_Opaque (v : string) (u : URL) : URL :=
  {| Scheme := Scheme u; Opaque := v; User := User u; Host := Host u;
     Path := Path u; RawPath := RawPath u; OmitHost := OmitHost u;
     ForceQuery := ForceQuery u; RawQuery := RawQuery u;
     Fragment := Fragment u; RawFragment := RawFragment u |}.

Definition set_authority (usr : option Userinfo) (h : string) (u : URL)
  : URL :=
  {| Scheme := Scheme u; Opaque := Opaque u; User := usr; Host := h;
     Path := Path u; RawPath := RawPath u; OmitHost := OmitHost u;
     ForceQuery := ForceQuery u; RawQuery := RawQuery u;
     Fragment := Fragment u; RawFragment := RawFragment u |}.

Definition set_Path (p raw : string) (u : URL) : URL :=
  {| Scheme := Scheme u; Opaque := Opaque u; User := User u;
     Host := Host u; Path := p; RawPath := raw; OmitHost := OmitHost u;
     ForceQuery := ForceQuery u; RawQuery := RawQuery u;
     Fragment := Fragment u; RawFragment := RawFragment u |}.

Definition set_OmitHost (b : bool) (u : URL) : URL :=
  {| Scheme := Scheme u; Opaque := Opaque u; User := User u;
     Host := Host u; Path := Path u; RawPath := RawPath u; OmitHost := b;
     ForceQuery := ForceQuery u; RawQuery := RawQuery u;
     Fragment := Fragment u; RawFragment := RawFragment u |}.

Definition set_query (force : bool) (q : string) (u : URL) : URL :=
  {| Scheme := Scheme u; Opaque := Opaque u; User := User u;
     Host := Host u; Path := Path u; RawPath := RawPath u;
     OmitHost := OmitHost u; ForceQuery := force; RawQuery := q;
     Fragment := Fragment u; RawFragment := RawFragment u |}.

Definition set_Fragment (f raw : string) (u : URL) : URL :=
  {| Scheme := Scheme u; Opaque := Opaque u; User := User u;
     Host := Host u; Path := Path u; RawPath := RawPath u;
     OmitHost := OmitHost u; ForceQuery := ForceQuery u;
     RawQuery := RawQuery u; Fragment := f; RawFragment := raw |}.

(** *** Bytes *)

Definition between (lo hi c : ascii) : bool :=
  ((lo <=? c) && (c <=? hi))%char.
Definition isalpha (c : ascii) : bool :=
  between "a" "z" c || between "A" "Z" c.
Definition isdigit (c : ascii) : bool := between "0" "9" c.
Definition oneof (c : ascii) (set : string) : bool := ContainsByte set c.

Definition ishex (c : ascii) : bool :=
  isdigit c || between "a" "f" c || between "A" "F" c.

Definition unhex (c : ascii) : N :=
  if isdigit c then (N_of_ascii c - N_of_ascii "0")%N
  else if between "a" "f" c then (N_of_ascii c - N_of_ascii "a" + 10)%N
  else if between "A" "F" c then (N_of_ascii c - N_of_ascii "A" + 10)%N
  else 0%N.

Definition upperhex (n : N) : ascii :=
  match String.get (N.to_nat n) "0123456789ABCDEF" with
  | Some c => c
  | None => "0"%char
  end.

(** [stringContainsCTLByte]: a byte below the space, or 0x7f *)
Fixpoint stringContainsCTLByte (s : string) : bool :=
  match s with
  | EmptyString => false
  | String b rest =>
      (N_of_ascii b <? 32)%N || (N_of_ascii b =? 127)%N
      || stringContainsCTLByte rest
  end.

Definition is_host_mode (mode : encoding) : bool :=
  match mode with encodeHost | encodeZone => true | _ => false end.

Definition is_fragment_mode (mode : encoding) : bool :=
  match mode with encodeFragment => true | _ => false end.

(** [shouldEscape(c, mode)] *)
Definition shouldEscape (c : ascii) (mode : encoding) : bool :=
  if isalpha c || isdigit c then false
  else if is_host_mode mode
          && (oneof c "!$&'()*+,;=:[]<>" || Ascii.eqb c "034")
  then false
  else if oneof c "-_.~" then false
  else if oneof c "$&+,/:;=?@" then
    match mode with
    | encodePath => Ascii.eqb c "?"
    | encodePathSegment => oneof c "/;,?"
    | encodeUserPassword => oneof c "@/?:"
    | encodeQueryComponent => true
    | encodeFragment => false
    | encodeHost | encodeZone => true
    end
  else if is_fragment_mode mode && oneof c "!()*" then false
  else true.

(** *** Escaping *)

(** First loop of [unescape]: every [%] is followed by two hex digits,
    and a host holds no byte that would have to be escaped. *)
Fixpoint unescape_check (s : string) (mode : encoding) : option Error :=
  match s with
  | EmptyString => None
  | String c rest =>
      if Ascii.eqb c "%" then
        match rest with
        | String a (String b rest') =>
            if ishex a && ishex b then
              let esc := String c (String a (String b EmptyString)) in
              if match mode with encodeHost => true | _ => false end
                      && (unhex a <? 8)%N && negb (String.eqb esc "%25")
              then Some (EscapeError esc)
              else if match mode with encodeZone => true | _ => false end
                      && negb (String.eqb esc "%25")
                      && negb (N.eqb (unhex a * 16 + unhex b) 32)
                      && shouldEscape
                           (ascii_of_N (unhex a * 16 + unhex b)) encodeHost
              then Some (EscapeError esc)
              else unescape_check rest' mode
            else Some (EscapeError (upto 3 s))
        | _ => Some (EscapeError (upto 3 s))
        end
      else if is_host_mode mode && (N_of_ascii c <? 128)%N
              && shouldEscape c encodeHost
      then Some (InvalidHostError (String c EmptyString))
      else unescape_check rest mode
  end.

(** Second loop of [unescape], on a string that passed the first. *)
Fixpoint unescape_decode (s : string) (mode : encoding) : string :=
  match s with
  | EmptyString => EmptyString
  | String c rest =>
      if Ascii.eqb c "%" then
        match rest with
        | String a (String b rest') =>
            String (ascii_of_N (unhex a * 16 + unhex b))
                   (unescape_decode rest' mode)
        | _ => String c (unescape_decode rest mode)
        end
      else if Ascii.eqb c "+" then
        String (match mode with
                | encodeQueryComponent => " "%char
                | _ => "+"%char
                end) (unescape_decode rest mode)
      else String c (unescape_decode rest mode)
  end.

(** [unescape(s, mode)]; the library returns [s] itself when it holds
    nothing to decode, which is what the second loop yields then. *)
Definition unescape (s : string) (mode : encoding) : string + Error :=
  match unescape_check s mode with
  | Some e => inr e
  | None => inl (unescape_decode s mode)
  end.

(** [escape(s, mode)] *)
Fixpoint escape (s : string) (mode : encoding) : string :=
  match s with
  | EmptyString => EmptyString
  | String c rest =>
      if shouldEscape c mode then
        match mode, Ascii.eqb c " " with
        | encodeQueryComponent, true => String "+" (escape rest mode)
        | _, _ =>
            String "%" (String (upperhex (N_of_ascii c / 16))
              (String (upperhex (N_of_ascii c mod 16)) (escape rest mode)))
        end
      else String c (escape rest mode)
  end.

(** [validEncoded(s, mode)] *)
Fixpoint validEncoded (s : string) (mode : encoding) : bool :=
  match s with
  | EmptyString => true
  | String c rest =>
      (if oneof c "!$&'()*+,;=:@[]%" then true
       else negb (shouldEscape c mode))
      && validEncoded rest mode
  end.

(** *** Parsing *)

(** [getScheme(rawURL)], with [s] the bytes from index [i] on *)
Fixpoint getScheme_from (i : nat) (rawURL s : string)
  : (string * string) + Error :=
  match s with
  | EmptyString => inl (EmptyString, rawURL)
  | String c rest =>
      if isalpha c then getScheme_from (S i) rawURL rest
      else if isdigit c || oneof c "+-." then
        if Nat.eqb i 0 then inl (EmptyString, rawURL)
        else getScheme_from (S i) rawURL rest
      else if Ascii.eqb c ":" then
        if Nat.eqb i 0 then inr (ErrorString "missing protocol scheme")
        else inl (upto i rawURL, rest)
      else inl (EmptyString, rawURL)
  end.

Definition getScheme (rawURL : string) : (string * string) + Error :=
  getScheme_from 0 rawURL rawURL.

(** [validOptionalPort(port)] *)
Definition validOptionalPort (port : string) : bool :=
  match port with
  | EmptyString => true
  | String c rest =>
      Ascii.eqb c ":"
      && forallb isdigit (list_ascii_of_string rest)
  end.

(** [validUserinfo(s)]; a byte above 0x7f starts a rune that is none of
    the listed ones *)
Definition validUserinfo (s : string) : bool :=
  forallb (fun r => isalpha r || isdigit r || oneof r "-._:~!$&'()*+,;=%@")
          (list_ascii_of_string s).

(** [parseHost(host)] *)
Definition parseHost (host : string) : string + Error :=
  if HasPrefix host "[" then
    match LastIndexByte host "]" with
    | None => inr (ErrorString "missing ']' in host")
    | Some i =>
        let colonPort := from (S i) host in
        if negb (validOptionalPort colonPort)
        then inr (ErrorFmt "invalid port %q after host" colonPort)
        else
          match String.index 0 "%25" (upto i host) with
          | Some zone =>
              match unescape (upto zone host) encodeHost with
              | inr e => inr e
              | inl host1 =>
                  match unescape (String.substring zone (i - zone) host)
                                 encodeZone with
                  | inr e => inr e
                  | inl host2 =>
                      match unescape (from i host) encodeHost with
                      | inr e => inr e
                      | inl host3 => inl (host1 +:+ host2 +:+ host3)
                      end
                  end
              end
          | None => unescape host encodeHost
          end
    end
  else
    match LastIndexByte host ":" with
    | Some i =>
        let colonPort := from i host in
        if negb (validOptionalPort colonPort)
        then inr (ErrorFmt "invalid port %q after host" colonPort)
        else unescape host encodeHost
    | None => unescape host encodeHost
    end.

(** [parseAuthority(authority)] *)
Definition parseAuthority (authority : string)
  : (option Userinfo * string) + Error :=
  let i := LastIndexByte authority "@" in
  match parseHost (match i with
                   | None => authority
                   | Some i => from (S i) authority
                   end) with
  | inr e => inr e
  | inl host =>
      match i with
      | None => inl (None, host)
      | Some i =>
          let userinfo := upto i authority in
          if negb (validUserinfo userinfo)
          then inr (ErrorString "net/url: invalid userinfo")
          else if negb (ContainsByte userinfo ":") then
            match unescape userinfo encodeUserPassword with
            | inr e => inr e
            | inl name =>
                inl (Some {| username := name; password := "";
                             passwordSet := false |}, host)
            end
          else
            let '(name, pass, _) := Cut userinfo ":" in
            match unescape name encodeUserPassword with
            | inr e => inr e
            | inl name =>
                match unescape pass encodeUserPassword with
                | inr e => inr e
                | inl pass =>
                    inl (Some {| username := name; password := pass;
                                 passwordSet := true |}, host)
                end
            end
      end
  end.

(** [(u *URL).setPath(p)] *)
Definition setPath (u : URL) (p : string) : URL + Error :=
  match unescape p encodePath with
  | inr e => inr e
  | inl path =>
      if String.eqb p (escape path encodePath)
      then inl (set_Path path "" u)
      else inl (set_Path path p u)
  end.

(** [(u *URL).setFragment(f)] *)
Definition setFragment (u : URL) (f : string) : URL + Error :=
  match unescape f encodeFragment with
  | inr e => inr e
  | inl frag =>
      if String.eqb f (escape frag encodeFragment)
      then inl (set_Fragment frag "" u)
      else inl (set_Fragment frag f u)
  end.

(** [parse(rawURL, viaRequest)] *)
Definition parse (rawURL : string) (viaRequest : bool) : URL + Error :=
  if stringContainsCTLByte rawURL
  then inr (ErrorString "net/url: invalid control character in URL")
  else if String.eqb rawURL "" && viaRequest
  then inr (ErrorString "empty url")
  else if String.eqb rawURL "*" then inl (set_Path "*" "" zero)
  else
    match getScheme rawURL with
    | inr e => inr e
    | inl (scheme, rest) =>
        let u := set_Scheme (ToLower scheme) zero in
        let '(rest, u) :=
          if HasSuffixByte rest "?" && Nat.eqb (CountByte rest "?") 1
          then (upto (String.length rest - 1) rest, set_query true "" u)
          else let '(rest, q, _) := Cut rest "?" in
               (rest, set_query false q u) in
        if negb (HasPrefix rest "/") && negb (String.eqb (Scheme u) "")
        then inl (set_Opaque rest u)
        else if negb (HasPrefix rest "/") && viaRequest
        then inr (ErrorString "invalid URI for request")
        else if negb (HasPrefix rest "/")
                && ContainsByte (fst (fst (Cut rest "/"))) ":"
        then inr (ErrorString
                    "first path segment in URL cannot contain colon")
        else if (negb (String.eqb (Scheme u) "")
                 || (negb viaRequest && negb (HasPrefix rest "///")))
                && HasPrefix rest "//"
        then
          let authority := from 2 rest in
          let '(authority, rest) :=
            match IndexByte authority "/" with
            | Some i => (upto i authority, from i authority)
            | None => (authority, EmptyString)
            end in
          match parseAuthority authority with
          | inr e => inr e
          | inl (usr, host) => setPath (set_authority usr host u) rest
          end
        else if negb (String.eqb (Scheme u) "") && HasPrefix rest "/"
        then setPath (set_OmitHost true u) rest
        else setPath u rest
    end.

(** [url.Parse(rawURL)]; the error is the one the library wraps in
    [&Error{"parse", rawURL, err}] *)
Definition Parse (rawURL : string) : URL + Error :=
  let '(u, frag, _) := Cut rawURL "#" in
  match parse u false with
  | inr e => inr e
  | inl url =>
      if String.eqb frag "" then inl url
      else setFragment url frag
  end.

(** *** Serialising *)

(** [(u *URL).EscapedPath()] *)
Definition EscapedPath (u : URL) : string :=
  if negb (String.eqb (RawPath u) "")
     && validEncoded (RawPath u) encodePath
     && match unescape (RawPath u) encodePath with
        | inl p => String.eqb p (Path u)
        | inr _ => false
        end
  then RawPath u
  else if String.eqb (Path u) "*" then "*"
  else escape (Path u) encodePath.

(** [(u *URL).EscapedFragment()] *)
Definition EscapedFragment (u : URL) : string :=
  if negb (String.eqb (RawFragment u) "")
     && validEncoded (RawFragment u) encodeFragment
     && match unescape (RawFragment u) encodeFragment with
        | inl f => String.eqb f (Fragment u)
        | inr _ => false
        end
  then RawFragment u
  else escape (Fragment u) encodeFragment.

(** [(u *Userinfo).String()] for a non-nil receiver *)
Definition Userinfo_String (ui : Userinfo) : string :=
  escape (username ui) encodeUserPassword
  +:+ (if passwordSet ui
       then ":" +:+ escape (password ui) encodeUserPassword
       else "").

Definition nonempty (s : string) : bool := negb (String.eqb s "").
Definition is_Some' {A} (o : option A) : bool :=
  match o with Some _ => true | None => false end.

(** What [String] writes between the scheme and the path. *)
Definition String_authority (u : URL) : string :=
  if nonempty (Scheme u) || nonempty (Host u) || is_Some' (User u) then
    if OmitHost u && negb (nonempty (Host u)) && negb (is_Some' (User u))
    then ""
    else
      (if nonempty (Host u) || nonempty (Path u) || is_Some' (User u)
       then "//" else "")
      +:+ match User u with
          | Some ui => Userinfo_String ui +:+ "@"
          | None => ""
          end
      +:+ (if nonempty (Host u) then escape (Host u) encodeHost else "")
  else "".

(** What [String] writes after the scheme and its colon. *)
Definition String_rest (buf : string) (u : URL) : string :=
  (if nonempty (Opaque u) then buf +:+ Opaque u
   else
     let buf := buf +:+ String_authority u in
     let path := EscapedPath u in
     let buf :=
       match path with
       | String c _ =>
           if negb (Ascii.eqb c "/") && nonempty (Host u)
           then buf +:+ "/" else buf
       | EmptyString => buf
       end in
     let buf :=
       if Nat.eqb (String.length buf) 0
          && ContainsByte (fst (fst (Cut path "/"))) ":"
       then buf +:+ "./" else buf in
     buf +:+ path)
  +:+ (if ForceQuery u || nonempty (RawQuery u)
       then "?" +:+ RawQuery u else "")
  +:+ (if nonempty (Fragment u)
       then "#" +:+ EscapedFragment u else "").

(** [(u *URL).String()] *)
Definition String (u : URL) : string :=
  String_rest (if nonempty (Scheme u) then Scheme u +:+ ":" else "") u.

End url.

(** ** The MongoDB driver, on the collection [slug-url-pairs] *)

(** Every call to the driver takes the next entry of [db_fault]. *)
Definition db_call : M (option string) :=
  fun w =>
    (Ok (db_fault w (db_calls w)),
     set_db (docs w) (ttl_index w) (S (db_calls w)) w).

Definition has_slug (s : string) (d : SlugURLPair) : bool :=
  String.eqb (Slug d) s.

(** [coll.FindOne(ctx, bson.D{{Key: "slug", Value: s}}).Decode(&result)]:
    the first document whose slug is [s], [mongo.ErrNoDocuments] when
    there is none, and the driver's error when the call fails. *)
Definition FindOne (s : string) : M (SlugURLPair + error) :=
  f <- db_call ;;
  match f with
  | Some msg => ret (inr (ErrOther msg))
  | None =>
      fun w =>
        match find (has_slug s) (docs w) with
        | Some d => (Ok (inl d), w)
        | None => (Ok (inr ErrNoDocuments), w)
        end
  end.

(** The driver writes a [time.Time] as a BSON datetime, the number of
    milliseconds since the epoch ([t.Unix()*1e3 + t.Nanosecond()/1e6]):
    the nanoseconds below the millisecond are dropped, and a document
    that is read back holds the time of that millisecond. *)
Definition Millisecond : Z := 1000000.
Definition bson_DateTime (t : Z) : Z := t / Millisecond.
Definition bson_Time (dt : Z) : Z := dt * Millisecond.

(** The document of the collection that the driver makes of a pair. *)
Definition bson_doc (d : SlugURLPair) : SlugURLPair :=
  {| Slug := Slug d; Url := Url d;
     ExpireAt := bson_Time (bson_DateTime (ExpireAt d)) |}.

(** [coll.InsertOne(ctx, d)] *)
Definition InsertOne (d : SlugURLPair) : M (option error) :=
  f <- db_call ;;
  match f with
  | Some msg => ret (Some (ErrOther msg))
  | None =>
      fun w =>
        (Ok None,
         set_db (docs w ++ [bson_doc d]) (ttl_index w) (db_calls w) w)
  end.

(** [coll.Indexes().CreateOne(ctx, indexModel)] for the index on
    [expireAt] *)
Definition Indexes_CreateOne : M (option error) :=
  f <- db_call ;;
  match f with
  | Some msg => ret (Some (ErrOther msg))
  | None => fun w => (Ok None, set_db (docs w) true (db_calls w) w)
  end.

Definition error_text (e : error) : string :=
  match e with
  | ErrNoDocuments => "mongo: no documents in result"
  | ErrOther msg => msg
  end.

(** The [err] of [FindOne(...).Decode(&result)] *)
Definition FindOne_err (s : string) : M (option error) :=
  r <- FindOne s ;;
  ret (match r with inl _ => None | inr e => Some e end).

(** [for err == nil { err = FindOne(s) }]: [s] is the candidate drawn
    before the loop. *)
Fixpoint generateUniqueSlug_loop (fuel : nat) (s : string)
  (err : option error) : M unit :=
  match err with
  | Some _ => ret tt
  | None =>
      match fuel with
      | O => diverge
      | S fuel' =>
          err' <- FindOne_err s ;;
          generateUniqueSlug_loop fuel' s err'
      end
  end.

Definition generateUniqueSlug (fuel : nat) : M string :=
  s <- generateRandomString 5 ;;
  err <- FindOne_err s ;;
  generateUniqueSlug_loop fuel s err ;;;
  ret s.

Definition createTTLIndex : M (option error) :=
  err <- Indexes_CreateOne ;;
  match err with
  | Some e => panic (error_text e)
  | None => ret err
  end.

(** What the index created by [createTTLIndex] (on [expireAt], with
    [expireAfterSeconds] 0) makes the storage engine do between requests:
    delete the documents whose [expireAt] has passed. *)
Definition ttl_sweep (w : World) : World :=
  if ttl_index w
  then set_db (List.filter (fun d => clock w <? ExpireAt d) (docs w))
         true (db_calls w) w
  else w.

(** ** Requests and responses *)

(** What [c.BodyParser] makes of the request body: an error, or a JSON
    object, of which only the member [url] matters. *)
Inductive RequestBody :=
| Malformed (err : string)
| Object (url : option string).

Record Ctx := {
  Body : RequestBody;
  IPs : list string;            (** [c.IPs()] *)
  Params : gmap string string;  (** route parameters *)
}.

(** [c.BodyParser(out)]: a member absent from the body leaves the field
    of [out] as it is. *)
Definition BodyParser (c : Ctx) (out : URL) : URL * option string :=
  match Body c with
  | Malformed e => (out, Some e)
  | Object None => (out, None)
  | Object (Some v) => ({| Value := v |}, None)
  end.

Definition c_Params (c : Ctx) (key : string) : string :=
  default "" (Params c !! key).

Inductive JSON :=
| JString (s : string)
| JUrlError (e : url.Error)      (** [err.Error()] of a parse error *)
| JSlugURLPair (p : SlugURLPair)
| JInsertOneResult.   (** the driver's acknowledgement of the insert *)

Inductive Payload :=
| PJSON (m : gmap string JSON)   (** [c.JSON(&fiber.Map{...})] *)
| PText (s : string)             (** [c.SendString(s)] *)
| PNone.

Record Response := {
  StatusCode : Z;
  Location : option string;
  Sent : Payload;
}.

Definition StatusOK : Z := 200.
Definition StatusFound : Z := 302.
Definition StatusBadRequest : Z := 400.
Definition StatusNotFound : Z := 404.

Definition c_JSON (status : Z) (m : gmap string JSON) : Response :=
  {| StatusCode := status; Location := None; Sent := PJSON m |}.

Definition c_SendString (status : Z) (s : string) : Response :=
  {| StatusCode := status; Location := None; Sent := PText s |}.

(** [c.Redirect(location)]: the status defaults to 302 Found. *)
Definition c_Redirect (location : string) : Response :=
  {| StatusCode := StatusFound; Location := Some location; Sent := PNone |}.

Definition time_Now : M Z := fun w => (Ok (clock w), w).
Definition Minute : Z := 60 * 1000000000.
Definition Hour : Z := 60 * Minute.

(** [http.Get(str)] and [resp.StatusCode >= 200] *)
Definition isValidURL (str : string) : M bool :=
  fun w =>
    match http_get w str with
    | None => (Ok false, w)
    | Some code => (Ok (200 <=? code), w)
    end.

(** The part of the creation handler that follows the validation of the
    target, the same in the three revisions but for the stored string and
    the retention. *)
Definition insertSlugURLPair (fuel : nat) (target : string) (retention : Z)
  : M Response :=
  uniqueSlug <- generateUniqueSlug fuel ;;
  now <- time_Now ;;
  let expireAt := now + retention in
  let slugURLPair :=
    {| Slug := uniqueSlug; Url := target; ExpireAt := expireAt |} in
  err <- InsertOne slugURLPair ;;
  match err with
  | Some e => fatal (error_text e)
  | None =>
      err <- createTTLIndex ;;
      match err with
      | Some e => fatal (error_text e)
      | None =>
          ret (c_JSON StatusOK
                 (<["result" := JInsertOneResult]>
                    {["slugURLPair" := JSlugURLPair slugURLPair]}))
      end
  end.

(** [app.Get("/:slug", ...)] *)
Definition get_slug (c : Ctx) : M Response :=
  let slugParam := c_Params c "slug" in
  r <- FindOne slugParam ;;
  match r with
  | inr _ =>
      ret (c_SendString StatusNotFound
             "404: Error - Unable to find redirection URL.")
  | inl result => ret (c_Redirect (Url result))
  end.

Definition is_http_or_https (scheme : string) : bool :=
  String.eqb scheme "http" || String.eqb scheme "https".

Definition body_error (e : string) : Response :=
  c_JSON StatusBadRequest
    (<["err" := JString e]>
       {["message" := JString "Body must contain a `url` field."]}).

Definition invalid_url : Response :=
  c_JSON StatusBadRequest {["message" := JString "Invalid URL"]}.

(** ** [src/main.go], first program *)

Module Main1.

(** [limiter.Config.KeyGenerator] *)
Definition KeyGenerator (c : Ctx) : string := strings.Join (IPs c) "".

(** [app.Post("/createSlugURLPair", ...)] *)
Definition post_createSlugURLPair (fuel : nat) (c : Ctx) : M Response :=
  let '(bodyUrl, err) := BodyParser c {| Value := "" |} in
  match err with
  | Some e => ret (body_error e)
  | None =>
      match url.Parse (Value bodyUrl) with
      | inr e =>
          ret (c_JSON StatusBadRequest
                 (<["err" := JUrlError e]>
                    {["message" := JString "Invalid URL."]}))
      | inl u =>
          let u := if String.eqb (url.Scheme u) ""
                   then url.set_Scheme "http" u else u in
          insertSlugURLPair fuel (url.String u) (Hour * 24 * 5)
      end
  end.

End Main1.

(** ** [src/main.go], second program *)

Module Main2.

(** [assertProtocol]: the parse error is dropped, and on an error [u]
    is nil, so that reading [u.Scheme] panics. *)
Definition assertProtocol (redirectUrl : string) : M string :=
  match url.Parse redirectUrl with
  | inr _ => panic "invalid memory address or nil pointer dereference"
  | inl u =>
      let u := if negb (is_http_or_https (url.Scheme u))
               then url.set_Scheme "https" u else u in
      ret (url.String u)
  end.

(** [app.Post("/createSlugURLPair", ...)] *)
Definition post_createSlugURLPair (fuel : nat) (c : Ctx) : M Response :=
  let '(url, err) := BodyParser c {| Value := "" |} in
  match err with
  | Some e => ret (body_error e)
  | None =>
      v <- assertProtocol (Value url) ;;
      valid <- isValidURL v ;;
      if negb valid
      then ret invalid_url
      else insertSlugURLPair fuel v (Minute * 5)
  end.

End Main2.

(** ** [src/unnamed/part_000] *)

Module Part000.

Definition assertProtocol (redirectUrl : string)
  : string * option url.Error :=
  match url.Parse redirectUrl with
  | inr err => ("", Some err)
  | inl u =>
      let u := if negb (is_http_or_https (url.Scheme u))
               then url.set_Scheme "https" u else u in
      (url.String u, None)
  end.

(** [app.Post("/createSlugURLPair", ...)] *)
Definition post_createSlugURLPair (fuel : nat) (c : Ctx) : M Response :=
  let '(url, err) := BodyParser c {| Value := "" |} in
  match err with
  | Some e => ret (body_error e)
  | None =>
      let '(v, err) := assertProtocol (Value url) in
      match err with
      | Some _ => ret invalid_url
      | None =>
          valid <- isValidURL v ;;
          if negb valid
          then ret invalid_url
          else insertSlugURLPair fuel v (Hour * 24 * 5)
      end
  end.

End Part000.

(** ** Concrete worlds and requests *)

(** A network in which every [http] or [https] URL with a host answers
    200; like Go's client, the probe fails on a URL that does not parse,
    has another scheme, or has no host. *)
Definition live_probe (str : string) : option Z :=
  match url.Parse str with
  | inl u =>
      if url.nonempty (url.Host u) && is_http_or_https (url.Scheme u)
      then Some 200 else None
  | inr _ => None
  end.

Definition world (draws : nat -> option Z) (ds : list SlugURLPair)
  (faults : nat -> option string) : World :=
  {| rand_reader := draws; rand_pos := 0; docs := ds; ttl_index := false;
     db_fault := faults; db_calls := 0;
     http_get := live_probe; clock := 0 |}.

Definition no_fault : nat -> option string := fun _ => None.

(** The driver call number [n] fails, the others succeed. *)
Definition fault_at (n : nat) : nat -> option string :=
  fun i => if Nat.eqb i n then Some "connection reset by peer" else None.

Definition old_pair : SlugURLPair :=
  {| Slug := "aaaaa"; Url := "https://old.example/"; ExpireAt := 1 |}.

(** Every draw is 0: the candidate is [aaaaa]. *)
Definition w_empty : World := world (fun _ => Some 0) [] no_fault.
Definition w_taken : World := world (fun _ => Some 0) [old_pair] no_fault.
Definition w_flaky : World :=
  world (fun _ => Some 0) [old_pair] (fault_at 0).
(** The first two draws succeed, the third fails. *)
Definition w_rand_fails : World :=
  world (fun i => if Nat.ltb i 2 then Some 7 else None) [] no_fault.

(** The pair [old_pair] has expired and the index exists. *)
Definition w_expired : World :=
  {| rand_reader := fun _ => Some 0; rand_pos := 0; docs := [old_pair];
     ttl_index := true; db_fault := no_fault; db_calls := 0;
     http_get := live_probe; clock := 2 |}.

Definition post (v : option string) : Ctx :=
  {| Body := Object v; IPs := []; Params := ∅ |}.

Definition get (slug : string) : Ctx :=
  {| Body := Object None; IPs := []; Params := {["slug" := slug]} |}.

(** A request that carries nothing but its chain of IP addresses. *)
Definition from_ips (ips : list string) : Ctx :=
  {| Body := Object None; IPs := ips; Params := ∅ |}.

(** The string the creation handler reads from the body once the body
    has been parsed. *)
Definition submitted (c : Ctx) : string :=
  Value (fst (BodyParser c {| Value := "" |})).

(** The creation handler from the call of [time.Now] on, with the slug
    that [generateUniqueSlug] has returned: [insertSlugURLPair] is
    [generateUniqueSlug] followed by this. *)
Definition persistSlugURLPair (uniqueSlug target : string) (retention : Z)
  : M Response :=
  now <- time_Now ;;
  let expireAt := now + retention in
  let slugURLPair :=
    {| Slug := uniqueSlug; Url := target; ExpireAt := expireAt |} in
  err <- InsertOne slugURLPair ;;
  match err with
  | Some e => fatal (error_text e)
  | None =>
      err <- createTTLIndex ;;
      match err with
      | Some e => fatal (error_text e)
      | None =>
          ret (c_JSON StatusOK
                 (<["result" := JInsertOneResult]>
                    {["slugURLPair" := JSlugURLPair slugURLPair]}))
      end
  end.

(** The pair the creation handler builds from a slug and a target. *)
Definition pair_of (s target : string) (retention : Z) (w : World)
  : SlugURLPair :=
  {| Slug := s; Url := target; ExpireAt := clock w + retention |}.

Definition created (p : SlugURLPair) : Response :=
  c_JSON StatusOK
    (<["result" := JInsertOneResult]> {["slugURLPair" := JSlugURLPair p]}).

(** The world after a creation that appended [p]: five draws, and three
    calls to the driver (lookup, insert, index). *)
Definition after_create (p : SlugURLPair) (w : World) : World :=
  set_db (docs w ++ [p]) true (db_calls w + 3)
    (set_rand_pos (rand_pos w + 5) w).

Definition example_pair : SlugURLPair :=
  {| Slug := "aaaaa"; Url := "https://example.com";
     ExpireAt := Hour * 24 * 5 |}.

(** The parsed target after each revision's treatment of the scheme. *)
Definition default_http (u : url.URL) : url.URL :=
  if String.eqb (url.Scheme u) "" then url.set_Scheme "http" u else u.

Definition force_https (u : url.URL) : url.URL :=
  if negb (is_http_or_https (url.Scheme u))
  then url.set_Scheme "https" u else u.

(** The random source keeps the contract of [rand.Int] for the next [n]
    draws: each succeeds with a value in [[0, 64)]. *)
Definition draws_ok (n : nat) (w : World) : Prop :=
  ∀ i, (i < n)%nat →
    ∃ v, rand_reader w (rand_pos w + i)%nat = Some v ∧ 0 <= v < 64.

(** The probe answers only for URLs that parse and have a host: the
    client behind [http.Get] refuses a request URL without one. *)
Definition probe_needs_host (w : World) : Prop :=
  ∀ str code, http_get w str = Some code →
    ∃ u, url.Parse str = inl u ∧ url.Host u ≠ "".

(** No call to the driver fails from now on. *)
Definition reliable (w : World) : Prop :=
  ∀ i, (db_calls w <= i)%nat → db_fault w i = None.

(** The world after one call to the driver that changes no data. *)
Definition tick (w : World) : World :=
  set_db (docs w) (ttl_index w) (S (db_calls w)) w.

(** The outcome of a lookup of [s] in the world [w]. *)
Definition lookup (s : string) (w : World) : SlugURLPair + error :=
  match db_fault w (db_calls w) with
  | Some msg => inr (ErrOther msg)
  | None =>
      match find (has_slug s) (docs w) with
      | Some d => inl d
      | None => inr ErrNoDocuments
      end
  end.

(** Lower-case letters, upper-case letters, digits, [_] and [-]. *)
Definition in_classes (c : ascii) : bool :=
  url.between "a" "z" c || url.between "A" "Z" c || url.between "0" "9" c
  || Ascii.eqb c "_" || Ascii.eqb c "-".

Definition in_alphabet (s : string) : Prop :=
  Forall (fun c => c ∈ SLUG_ALPHABET) (list_ascii_of_string s).

(** ** Notions used by the further properties *)

(** Every draw is 63: the candidate is [-----], which the store, holding
    [old_pair] only, does not have. *)
Definition w_fresh : World := world (fun _ => Some 63) [old_pair] no_fault.

(** Two pairs with the slug [aaaaa], the older one first. *)
Definition new_pair : SlugURLPair :=
  {| Slug := "aaaaa"; Url := "https://new.example/"; ExpireAt := 9 |}.

Definition w_duplicate : World :=
  world (fun _ => Some 0)
    [{| Slug := "bbbbb"; Url := "https://b.example/"; ExpireAt := 5 |};
     old_pair; new_pair] no_fault.

(** The retention of each program, in nanoseconds. *)
Definition five_days : Z := 432000 * 1000000000.
Definition five_minutes : Z := 300 * 1000000000.

(** A network in which every URL answers 404. *)
Definition w_all_404 : World :=
  {| rand_reader := fun _ => Some 0; rand_pos := 0; docs := [];
     ttl_index := false; db_fault := no_fault; db_calls := 0;
     http_get := fun _ => Some 404; clock := 0 |}.

(** The answer of the first program of [main.go] to a target that does
    not parse. *)
Definition invalid_url_with (e : url.Error) : Response :=
  c_JSON StatusBadRequest
    (<["err" := JUrlError e]> {["message" := JString "Invalid URL."]}).

(** The store is empty; the insert (second call to the driver) fails. *)
Definition w_insert_fails : World := world (fun _ => Some 0) [] (fault_at 1).

(** The store is empty; the index creation (third call) fails. *)
Definition w_index_fails : World := world (fun _ => Some 0) [] (fault_at 2).

(** Whatever its outcome, the computation [m] takes a world to one that
    is related to it by [R]. *)
Definition preserves {A} (R : World → World → Prop) (m : M A) : Prop :=
  ∀ w r w', m w = (r, w') → R w w'.

(** The collection and its index are the same in both worlds. *)
Definition same_store (w w' : World) : Prop :=
  docs w' = docs w ∧ ttl_index w' = ttl_index w.

(** The second world has the documents of the first, in the same order,
    and at most one more after them. *)
Definition grown_by_one (w w' : World) : Prop :=
  ∃ l, docs w' = (docs w ++ l)%list ∧ (length l <= 1)%nat.

(** The slug [aaaaa] is in the store; the first two lookups succeed and
    the third call to the driver fails. *)
Definition w_third_fails : World :=
  world (fun _ => Some 0) [old_pair] (fault_at 2).

(** The draws are 0, 26, 52, 62, 63, and 0 from then on. *)
Definition w_spread : World :=
  world (fun i => Some (default 0 ([0; 26; 52; 62; 63] !! i))) [] no_fault.

(** The rune that the draw [v] selects. *)
Definition pick (v : Z) : rune := default zero (SLUG_ALPHABET !! Z.to_nat v).

(** The next draws of the world succeed with the values [vs], in this
    order. *)
Definition draws_are (vs : list Z) (w : World) : Prop :=
  ∀ i v, vs !! i = Some v → rand_reader w (rand_pos w + i)%nat = Some v.

(** The world after [n] calls to the driver that change no data. *)
Definition ticks (n : nat) (w : World) : World :=
  set_db (docs w) (ttl_index w) (db_calls w + n) w.

(** The world after the five draws of a candidate. *)
Definition drawn (w : World) : World := set_rand_pos (rand_pos w + 5) w.

Fixpoint all_bytes (P : ascii → bool) (s : string) : bool :=
  match s with
  | EmptyString => true
  | String c rest => P c && all_bytes P rest
  end.

(** A letter, a digit, or one of [-._~/]. *)
Definition plain_byte (c : ascii) : bool :=
  url.isalpha c || url.isdigit c || url.oneof c "-._~/".

(** The URLs [scheme://host/path] with a plain host name: the host is
    made of letters, digits and [-._~]; the path is empty or begins with
    a slash, holds no control byte, no [?] and no [#], and each of its
    [%] is followed by two hexadecimal digits. *)
Definition host_byte (c : ascii) : bool :=
  url.isalpha c || url.isdigit c || url.oneof c "-._~".

Definition path_byte (c : ascii) : bool :=
  negb ((N_of_ascii c <? 32)%N || (N_of_ascii c =? 127)%N)
  && negb (Ascii.eqb c "?") && negb (Ascii.eqb c "#").

Definition raw_path (rp : string) : bool :=
  (String.eqb rp "" || strings.HasPrefix rp "/")
  && all_bytes path_byte rp
  && match url.unescape_check rp url.encodePath with
     | None => true
     | Some _ => false
     end.

(** A query holds no control byte and no [#]; a fragment holds any
    bytes, each [%] followed by two hexadecimal digits. *)
Definition query_byte (c : ascii) : bool :=
  negb ((N_of_ascii c <? 32)%N || (N_of_ascii c =? 127)%N)
  && negb (Ascii.eqb c "#").

Definition query_part (q : option string) : string :=
  match q with Some q => "?" +:+ q | None => "" end.

Definition fragment_part (f : option string) : string :=
  match f with Some f => "#" +:+ f | None => "" end.

Definition plain_url (scheme host rp : string) (q f : option string)
  : bool :=
  is_http_or_https scheme
  && negb (String.eqb host "") && all_bytes host_byte host
  && raw_path rp
  && match q with Some q => all_bytes query_byte q | None => true end
  && match f with
     | Some f =>
         match url.unescape_check f url.encodeFragment with
         | None => true
         | Some _ => false
         end
     | None => true
     end.

(** A path or a fragment as the normalisation writes it: as it is when
    it is validly encoded, and otherwise decoded and escaped again. *)
Definition written (mode : url.encoding) (x : string) : string :=
  if url.validEncoded x mode then x
  else url.escape (url.unescape_decode x mode) mode.

(** An empty fragment is not written, and its [#] is dropped. *)
Definition written_fragment (f : option string) : option string :=
  match f with
  | Some f =>
      if String.eqb f "" then None
      else Some (written url.encodeFragment f)
  | None => None
  end.

(** The URL that [scheme://host], the path [rp], the query [q] and the
    fragment [f] parse to. *)
Definition parsed (scheme host rp : string) (q f : option string)
  : url.URL :=
  let path := url.unescape_decode rp url.encodePath in
  let frag := url.unescape_decode (default "" f) url.encodeFragment in
  {| url.Scheme := scheme; url.Opaque := ""; url.User := None;
     url.Host := host; url.Path := path;
     url.RawPath :=
       if String.eqb rp (url.escape path url.encodePath) then "" else rp;
     url.OmitHost := false;
     url.ForceQuery :=
       match q with Some q => String.eqb q "" | None => false end;
     url.RawQuery := default "" q;
     url.Fragment := frag;
     url.RawFragment :=
       if String.eqb (default "" f) (url.escape frag url.encodeFragment)
       then "" else default "" f |}.

(** * Theorems *)

(** ** The monad *)

Lemma bind_Ok_inv {A B} (m : M A) (k : A -> M B) w b w' :
  bind m k w = (Ok b, w') →
  ∃ a w1, m w = (Ok a, w1) ∧ k a w1 = (Ok b, w').
Proof.
  unfold bind. destruct (m w) as [[a | msg | msg | ] w1]; intros H;
    try discriminate. eauto.
Qed.

Lemma bind_Ok {A B} (m : M A) (k : A -> M B) w a w1 :
  m w = (Ok a, w1) → bind m k w = k a w1.
Proof. unfold bind. intros ->. reflexivity. Qed.

Lemma bind_Panic {A B} (m : M A) (k : A -> M B) w msg w1 :
  m w = (Panic msg, w1) → bind m k w = (Panic msg, w1).
Proof. unfold bind. intros ->. reflexivity. Qed.

Lemma bind_Diverge {A B} (m : M A) (k : A -> M B) w w1 :
  m w = (Diverge, w1) → bind m k w = (Diverge, w1).
Proof. unfold bind. intros ->. reflexivity. Qed.

(** ** The alphabet *)

Lemma SLUG_ALPHABET_length : length SLUG_ALPHABET = 64%nat.
Proof. reflexivity. Qed.

Lemma SLUG_ALPHABET_classes (c : ascii) :
  c ∈ SLUG_ALPHABET ↔ in_classes c = true.
Proof.
  assert (bool_decide (c ∈ SLUG_ALPHABET) = in_classes c) as <-.
  { destruct c as [[] [] [] [] [] [] [] []]; vm_compute; reflexivity. }
  symmetry. apply bool_decide_eq_true.
Qed.

Lemma SLUG_ALPHABET_NoDup : NoDup SLUG_ALPHABET.
Proof. apply (bool_decide_unpack _). vm_compute. reflexivity. Qed.

(** ** [generateRandomString] *)

Lemma rand_Int_alphabet w :
  rand_Int (Z.of_nat (length SLUG_ALPHABET)) w =
  (Ok (match rand_reader w (rand_pos w) with
       | Some n => (Some n, None)
       | None => (None, Some "crypto/rand: read failed")
       end), set_rand_pos (S (rand_pos w)) w).
Proof.
  unfold rand_Int. rewrite SLUG_ALPHABET_length. simpl.
  destruct (rand_reader w (rand_pos w)); reflexivity.
Qed.

Lemma index_rune_Ok l i w c w' :
  index_rune l i w = (Ok c, w') → c ∈ l ∧ w' = w.
Proof.
  unfold index_rune.
  destruct ((0 <=? i) && (i <? Z.of_nat (length l))); [|discriminate].
  destruct (l !! Z.to_nat i) eqn:E; [|discriminate].
  unfold ret. intros [= <- <-]. split; [|reflexivity].
  eapply list_elem_of_lookup_2; eassumption.
Qed.

Lemma Int64_small n w :
  0 <= n < 64 → Int64 (Some n) w = (Ok n, w).
Proof.
  intros Hn. unfold Int64, ret.
  assert ((n <? 0) = false) as -> by lia.
  rewrite Z.abs_eq by lia.
  rewrite (Z.mod_small n) by lia.
  unfold wrap64. f_equal. f_equal.
  rewrite Z.mod_small by lia. lia.
Qed.

Lemma index_rune_in_range l i w :
  0 <= i < Z.of_nat (length l) →
  ∃ c, index_rune l i w = (Ok c, w) ∧ c ∈ l.
Proof.
  intros Hi. unfold index_rune.
  assert ((0 <=? i) && (i <? Z.of_nat (length l)) = true) as ->.
  { apply andb_true_iff. lia. }
  destruct (lookup_lt_is_Some_2 l (Z.to_nat i)) as [c Hc]; [lia|].
  rewrite Hc. exists c. split; [reflexivity|].
  eapply list_elem_of_lookup_2; eassumption.
Qed.

(** One turn of the loop that returns has drawn once and stored a rune of
    the alphabet at index [i]. *)
Lemma generateRandomString_loop_step i rest s w s' w' :
  generateRandomString_loop (i :: rest) s w = (Ok s', w') →
  ∃ c, c ∈ SLUG_ALPHABET ∧
       generateRandomString_loop rest (<[i:=c]> s)
         (set_rand_pos (S (rand_pos w)) w) = (Ok s', w').
Proof.
  simpl. intros H.
  apply bind_Ok_inv in H as (r & w1 & Hr & H).
  rewrite rand_Int_alphabet in Hr. injection Hr as <- <-.
  apply bind_Ok_inv in H as (n & w2 & Hn & H).
  apply bind_Ok_inv in H as (c & w3 & Hc & H).
  apply index_rune_Ok in Hc as [Hc ->].
  assert (w2 = set_rand_pos (S (rand_pos w)) w) as ->.
  { destruct (rand_reader w (rand_pos w)); simpl in Hn;
      unfold ret, panic in Hn; congruence. }
  eauto.
Qed.

Lemma generateRandomString_loop_spec idxs : ∀ s w s' w',
  generateRandomString_loop idxs s w = (Ok s', w') →
  length s' = length s ∧
  w' = set_rand_pos (rand_pos w + length idxs) w ∧
  ∀ i, if decide (i ∈ idxs)
       then (i < length s)%nat → ∃ c, s' !! i = Some c ∧ c ∈ SLUG_ALPHABET
       else s' !! i = s !! i.
Proof.
  induction idxs as [|j rest IH]; intros s w s' w' H.
  - simpl in H. unfold ret in H. injection H as <- <-.
    split; [reflexivity|]. split.
    { simpl. rewrite Nat.add_0_r. destruct w; reflexivity. }
    intros i. destruct (decide (i ∈ [])) as [Hi|]; [|reflexivity].
    inversion Hi.
  - apply generateRandomString_loop_step in H as (c & Hc & H).
    apply IH in H as (Hlen & Hpos & Hall).
    rewrite length_insert in Hlen.
    split; [exact Hlen|]. split.
    { rewrite Hpos. unfold set_rand_pos. simpl. f_equal. lia. }
    intros i. specialize (Hall i).
    destruct (decide (i ∈ rest)) as [Hin|Hnin].
    + rewrite decide_True by (right; exact Hin).
      rewrite length_insert in Hall. exact Hall.
    + destruct (decide (i = j)) as [->|Hne].
      * rewrite decide_True by left.
        intros Hlt. exists c. split; [|exact Hc].
        rewrite Hall. apply list_lookup_insert_eq. exact Hlt.
      * rewrite decide_False.
        -- rewrite Hall. apply list_lookup_insert_ne. congruence.
        -- intros Hin. apply elem_of_cons in Hin as [?|?]; tauto.
Qed.

Lemma string_of_list_ascii_length l :
  String.length (string_of_list_ascii l) = length l.
Proof. induction l; simpl; congruence. Qed.

(** A returned string has the requested length, is made of runes of the
    alphabet only, and has cost one draw per rune. *)
Lemma generateRandomString_Ok len w s w' :
  generateRandomString len w = (Ok s, w') →
  0 <= len ∧ String.length s = Z.to_nat len ∧ in_alphabet s ∧
  w' = set_rand_pos (rand_pos w + Z.to_nat len) w.
Proof.
  unfold generateRandomString. intros H.
  apply bind_Ok_inv in H as (s0 & w0 & H0 & H).
  unfold make_runes in H0. destruct (len <? 0) eqn:Hlen; [discriminate|].
  unfold ret in H0. injection H0 as <- <-.
  apply bind_Ok_inv in H as (s1 & w1 & H1 & H).
  unfold ret in H. injection H as <- <-.
  apply generateRandomString_loop_spec in H1 as (Hl & Hw' & Hall).
  rewrite length_replicate in *. rewrite length_seq in Hw'.
  split; [lia|]. split.
  { rewrite string_of_list_ascii_length. exact Hl. }
  split.
  - unfold in_alphabet. rewrite list_ascii_of_string_of_list_ascii.
    apply Forall_lookup. intros i c Hic.
    specialize (Hall i).
    assert (i < Z.to_nat len)%nat as Hi.
    { rewrite <- Hl. eapply lookup_lt_Some. exact Hic. }
    rewrite decide_True in Hall by (apply elem_of_seq; lia).
    destruct (Hall Hi) as (c' & Hc' & Hin).
    unfold rune in *. rewrite Hic in Hc'. injection Hc' as <-. exact Hin.
  - exact Hw'.
Qed.

Lemma draws_ok_next n w :
  draws_ok (S n) w →
  (∃ v, rand_reader w (rand_pos w) = Some v ∧ 0 <= v < 64) ∧
  draws_ok n (set_rand_pos (S (rand_pos w)) w).
Proof.
  intros H. split.
  - destruct (H 0%nat) as (v & Hv & Hr); [lia|].
    rewrite Nat.add_0_r in Hv. eauto.
  - intros i Hi. destruct (H (S i)) as (v & Hv & Hr); [lia|].
    exists v. simpl. rewrite <- Hv, Nat.add_succ_r. auto.
Qed.

(** While the source keeps its contract the loop runs to its end. *)
Lemma generateRandomString_loop_total idxs : ∀ s w,
  draws_ok (length idxs) w →
  ∃ s', generateRandomString_loop idxs s w =
        (Ok s', set_rand_pos (rand_pos w + length idxs) w).
Proof.
  induction idxs as [|j rest IH]; intros s w Hok.
  - exists s. simpl. unfold ret. rewrite Nat.add_0_r.
    destruct w; reflexivity.
  - simpl in Hok. apply draws_ok_next in Hok as [(v & Hv & Hr) Hok].
    simpl. erewrite bind_Ok by apply rand_Int_alphabet.
    rewrite Hv. simpl.
    erewrite bind_Ok by (apply Int64_small; exact Hr).
    destruct (index_rune_in_range SLUG_ALPHABET v
                (set_rand_pos (S (rand_pos w)) w)) as (c & Hc & _).
    { rewrite SLUG_ALPHABET_length. lia. }
    erewrite bind_Ok by exact Hc.
    destruct (IH (<[j:=c]> s) _ Hok) as (s' & Hs').
    exists s'. rewrite Hs'. f_equal.
    unfold set_rand_pos. simpl. f_equal. lia.
Qed.

Lemma generateRandomString_total len w :
  0 <= len → draws_ok (Z.to_nat len) w →
  ∃ s, generateRandomString len w =
       (Ok s, set_rand_pos (rand_pos w + Z.to_nat len) w).
Proof.
  intros Hlen Hok. unfold generateRandomString, make_runes.
  assert ((len <? 0) = false) as -> by lia.
  erewrite bind_Ok by reflexivity.
  rewrite length_replicate.
  destruct (generateRandomString_loop_total (seq 0 (Z.to_nat len))
              (replicate (Z.to_nat len) zero) w) as (s' & Hs').
  { rewrite length_seq. exact Hok. }
  erewrite bind_Ok by exact Hs'.
  rewrite length_seq. eexists. reflexivity.
Qed.

Lemma index_rune_cases l i w :
  (∃ c, index_rune l i w = (Ok c, w)) ∨
  index_rune l i w = (Panic "index out of range", w).
Proof.
  unfold index_rune, ret, panic.
  destruct ((0 <=? i) && (i <? Z.of_nat (length l))); [|auto].
  destruct (l !! Z.to_nat i); eauto.
Qed.

(** A failed draw makes the loop panic: nothing is returned. *)
Lemma generateRandomString_loop_failure idxs : ∀ s w i,
  (i < length idxs)%nat → rand_reader w (rand_pos w + i)%nat = None →
  ∃ msg w', generateRandomString_loop idxs s w = (Panic msg, w').
Proof.
  induction idxs as [|j rest IH]; intros s w i Hi Hnone; simpl in Hi.
  - lia.
  - simpl. erewrite bind_Ok by apply rand_Int_alphabet.
    destruct i as [|i].
    + rewrite Nat.add_0_r in Hnone. rewrite Hnone. simpl.
      erewrite bind_Panic by reflexivity. eauto.
    + destruct (rand_reader w (rand_pos w)) as [v|] eqn:Hv; simpl.
      2:{ erewrite bind_Panic by reflexivity. eauto. }
      erewrite bind_Ok by reflexivity.
      match goal with
      | |- context [bind (index_rune ?l ?n) ?k ?w1] =>
          destruct (index_rune_cases l n w1) as [(c & Hc) | Hc]
      end.
      * erewrite bind_Ok by exact Hc.
        apply (IH _ _ i); [lia|].
        simpl. rewrite <- Hnone. f_equal. lia.
      * erewrite bind_Panic by exact Hc. eauto.
Qed.

(** ** The driver *)

Lemma FindOne_eq s w : FindOne s w = (Ok (lookup s w), tick w).
Proof.
  unfold FindOne, lookup, bind, db_call, tick.
  destruct (db_fault w (db_calls w)); [reflexivity|]. simpl.
  destruct (find (has_slug s) (docs w)); reflexivity.
Qed.

Lemma FindOne_err_eq s w :
  FindOne_err s w =
  (Ok (match lookup s w with inl _ => None | inr e => Some e end), tick w).
Proof. unfold FindOne_err. erewrite bind_Ok by apply FindOne_eq. reflexivity. Qed.

Lemma reliable_tick w : reliable w → reliable (tick w).
Proof. intros H i Hi. apply H. simpl in Hi. lia. Qed.

Lemma reliable_now w : reliable w → db_fault w (db_calls w) = None.
Proof. intros H. apply H. lia. Qed.

(** ** [generateUniqueSlug] *)

(** With the candidate [s] in a reliable store, the loop looks the same
    [s] up again at every turn, and is still doing so when the fuel ends. *)
Lemma generateUniqueSlug_loop_taken s d fuel : ∀ w,
  reliable w → find (has_slug s) (docs w) = Some d →
  generateUniqueSlug_loop fuel s None w =
  (Diverge, set_db (docs w) (ttl_index w) (db_calls w + fuel) w).
Proof.
  induction fuel as [|fuel IH]; intros w Hrel Hd; simpl.
  - unfold diverge. rewrite Nat.add_0_r. destruct w; reflexivity.
  - erewrite bind_Ok by apply FindOne_err_eq.
    unfold lookup. rewrite (reliable_now w Hrel), Hd.
    rewrite IH; [|apply reliable_tick; exact Hrel|exact Hd].
    unfold tick, set_db. simpl. f_equal. f_equal. lia.
Qed.

Lemma generateUniqueSlug_Ok fuel w s w' :
  generateUniqueSlug fuel w = (Ok s, w') →
  ∃ w1, generateRandomString 5 w = (Ok s, w1).
Proof.
  unfold generateUniqueSlug. intros H.
  apply bind_Ok_inv in H as (s0 & w1 & Hs & H).
  apply bind_Ok_inv in H as (e & w2 & _ & H).
  apply bind_Ok_inv in H as (u & w3 & _ & H).
  unfold ret in H. injection H as <- <-. eauto.
Qed.

(** C3: every string returned by [generateRandomString(5)], and so every
    slug returned by [generateUniqueSlug], has length 5 and consists of
    characters of [SLUG_ALPHABET], which has 64 distinct symbols: the
    lower-case letters, the upper-case letters, the digits, [_] and [-].
    While the random source keeps the contract of [rand.Int], a string is
    returned. *)
Theorem generateRandomString_five_over_alphabet :
  (length SLUG_ALPHABET = 64%nat ∧ NoDup SLUG_ALPHABET ∧
   ∀ c, c ∈ SLUG_ALPHABET ↔ in_classes c = true) ∧
  (∀ w s w', generateRandomString 5 w = (Ok s, w') →
     String.length s = 5%nat ∧ in_alphabet s) ∧
  (∀ fuel w s w', generateUniqueSlug fuel w = (Ok s, w') →
     String.length s = 5%nat ∧ in_alphabet s) ∧
  (∀ w, draws_ok 5 w → ∃ s w', generateRandomString 5 w = (Ok s, w')).
Proof.
  assert (∀ w s w', generateRandomString 5 w = (Ok s, w') →
            String.length s = 5%nat ∧ in_alphabet s) as Hstr.
  { intros w s w' H.
    apply generateRandomString_Ok in H as (_ & Hl & Ha & _). auto. }
  split; [|split; [exact Hstr|split]].
  - split; [exact SLUG_ALPHABET_length|].
    split; [exact SLUG_ALPHABET_NoDup|exact SLUG_ALPHABET_classes].
  - intros fuel w s w' H.
    apply generateUniqueSlug_Ok in H as (w1 & H). eapply Hstr, H.
  - intros w Hok.
    destruct (generateRandomString_total 5 w) as (s & Hs); [lia|exact Hok|].
    eauto.
Qed.

Lemma generateRandomString_five_witness :
  (String.length "aaaaa" = 5%nat ∧ in_alphabet "aaaaa") ∧
  ∃ s w', generateRandomString 5 w_empty = (Ok s, w').
Proof.
  split.
  - apply (proj1 (proj2 generateRandomString_five_over_alphabet)
             w_empty "aaaaa" (set_rand_pos 5 w_empty)).
    reflexivity.
  - apply (proj2 (proj2 (proj2 generateRandomString_five_over_alphabet))
             w_empty).
    intros i Hi. exists 0. simpl. split; [reflexivity|lia].
Defined.

(** C7 (as the claim states it, refuted): in a world whose third draw
    fails, [generateRandomString(5)] does not return a string with [a] in
    the third place: it panics on the nil [*big.Int] and returns nothing. *)
Lemma generateRandomString_failed_draw_panics :
  generateRandomString 5 w_rand_fails =
    (Panic "invalid memory address or nil pointer dereference",
     set_rand_pos 3 w_rand_fails) ∧
  ¬ ∃ s w', generateRandomString 5 w_rand_fails = (Ok s, w').
Proof.
  assert (generateRandomString 5 w_rand_fails =
            (Panic "invalid memory address or nil pointer dereference",
             set_rand_pos 3 w_rand_fails)) as H by reflexivity.
  split; [exact H|]. intros (s & w' & Hs). congruence.
Qed.

(** C7 (amended): when the random source returns an error for one of the
    characters, [generateRandomString] drops the error value, and the use
    of the result that comes with it makes the call panic: no string is
    returned, and [generateUniqueSlug] panics with it. *)
Theorem generateRandomString_random_failure (len : Z) (w : World) (i : nat) :
  (i < Z.to_nat len)%nat →
  rand_reader w (rand_pos w + i)%nat = None →
  ∃ msg w', generateRandomString len w = (Panic msg, w') ∧
            (len = 5 → ∀ fuel, generateUniqueSlug fuel w = (Panic msg, w')).
Proof.
  intros Hi Hnone.
  assert (∃ msg w', generateRandomString len w = (Panic msg, w'))
    as (msg & w' & H).
  { unfold generateRandomString, make_runes.
    assert ((len <? 0) = false) as -> by lia.
    erewrite bind_Ok by reflexivity.
    destruct (generateRandomString_loop_failure
                (seq 0 (length (replicate (Z.to_nat len) zero)))
                (replicate (Z.to_nat len) zero) w i) as (msg & w' & H).
    - rewrite length_seq, length_replicate. exact Hi.
    - exact Hnone.
    - erewrite bind_Panic by exact H. eauto. }
  exists msg, w'. split; [exact H|].
  intros -> fuel. unfold generateUniqueSlug.
  erewrite bind_Panic by exact H. reflexivity.
Qed.

Lemma generateRandomString_random_failure_witness :
  ∃ msg w', generateRandomString 5 w_rand_fails = (Panic msg, w') ∧
            (5 = 5 → ∀ fuel, generateUniqueSlug fuel w_rand_fails
                             = (Panic msg, w')).
Proof.
  apply (generateRandomString_random_failure 5 w_rand_fails 2).
  - simpl. lia.
  - reflexivity.
Defined.

(** C1 (the code at the failing input): once the first candidate is in a
    store whose lookups do not fail, [generateUniqueSlug] draws no new
    candidate: it looks the same slug up again at every turn of the loop,
    and has not returned after any number of turns.  The only draws are
    the five of the first candidate. *)
Theorem generateUniqueSlug_never_redraws
  (fuel : nat) (w : World) (s : string) (w1 : World) (d : SlugURLPair) :
  generateRandomString 5 w = (Ok s, w1) →
  reliable w →
  find (has_slug s) (docs w) = Some d →
  ∃ w', generateUniqueSlug fuel w = (Diverge, w') ∧
        rand_pos w' = (rand_pos w + 5)%nat ∧
        db_calls w' = (db_calls w + S fuel)%nat ∧
        docs w' = docs w.
Proof.
  intros Hs Hrel Hd.
  pose proof Hs as Hs'.
  apply generateRandomString_Ok in Hs' as (_ & _ & _ & ->).
  set (w1 := set_rand_pos (rand_pos w + Z.to_nat 5) w) in *.
  assert (reliable w1) as Hrel1 by exact Hrel.
  eexists. split.
  - unfold generateUniqueSlug.
    erewrite bind_Ok by exact Hs.
    erewrite bind_Ok by apply FindOne_err_eq.
    unfold lookup. rewrite (reliable_now w1 Hrel1).
    change (docs w1) with (docs w). rewrite Hd.
    erewrite bind_Diverge; [reflexivity|].
    apply (generateUniqueSlug_loop_taken s d);
      [apply reliable_tick; exact Hrel1|exact Hd].
  - simpl. repeat split; lia.
Qed.

Lemma generateUniqueSlug_never_redraws_witness :
  ∃ w', generateUniqueSlug 1000 w_taken = (Diverge, w') ∧
        rand_pos w' = (rand_pos w_taken + 5)%nat ∧
        db_calls w' = (db_calls w_taken + 1001)%nat ∧
        docs w' = docs w_taken.
Proof.
  apply (generateUniqueSlug_never_redraws 1000 w_taken "aaaaa"
           (set_rand_pos 5 w_taken) old_pair).
  - reflexivity.
  - intros i _. reflexivity.
  - reflexivity.
Defined.

(** Whatever the error of the first lookup, the candidate is returned
    after that one call. *)
Lemma generateUniqueSlug_returns_on_error fuel w s w1 e :
  generateRandomString 5 w = (Ok s, w1) →
  lookup s w1 = inr e →
  generateUniqueSlug fuel w = (Ok s, tick w1).
Proof.
  intros Hs He. unfold generateUniqueSlug.
  erewrite bind_Ok by exact Hs.
  erewrite bind_Ok by apply FindOne_err_eq.
  rewrite He. destruct fuel; reflexivity.
Qed.

Lemma ticks_0 w : ticks 0 w = w.
Proof. unfold ticks. rewrite Nat.add_0_r. destruct w; reflexivity. Qed.

Lemma ticks_tick n w : ticks n (tick w) = ticks (S n) w.
Proof. unfold ticks, tick, set_db. simpl. f_equal. lia. Qed.

Lemma tick_ticks_1 w : tick w = ticks 1 w.
Proof. rewrite <- ticks_tick. symmetry. apply ticks_0. Qed.

Lemma tick_ticks n w : tick (ticks n w) = ticks (S n) w.
Proof. unfold ticks, tick, set_db. simpl. f_equal. lia. Qed.

(** The loop goes on while the lookups find a document and stops at the
    first lookup that reports an error, whichever turn that is. *)
Lemma generateUniqueSlug_loop_stops s e n : ∀ fuel w,
  (n < fuel)%nat →
  (∀ j, (j < n)%nat → ∃ d, lookup s (ticks j w) = inl d) →
  lookup s (ticks n w) = inr e →
  generateUniqueSlug_loop fuel s None w = (Ok tt, ticks (S n) w).
Proof.
  induction n as [|n IH]; intros fuel w Hfuel Hfound Herr;
    (destruct fuel as [|fuel]; [lia|]); simpl;
    erewrite bind_Ok by apply FindOne_err_eq.
  - rewrite ticks_0 in Herr. rewrite Herr, tick_ticks_1.
    destruct fuel; reflexivity.
  - destruct (Hfound 0%nat ltac:(lia)) as (d & Hd).
    rewrite ticks_0 in Hd. rewrite Hd, <- ticks_tick.
    apply IH; [lia| |rewrite ticks_tick; exact Herr].
    intros j Hj. rewrite ticks_tick. apply Hfound. lia.
Qed.

(** C9: [generateUniqueSlug] takes every error of the lookup for the
    absence of the slug, at the first lookup and at every lookup of the
    loop alike.  If the first [n] lookups find a document with the
    candidate and the next one reports an error, of whatever kind (no
    document, or a failure of the driver), the candidate is returned
    right after that lookup, with the collection as it was; when [n] is
    not 0, or when the error is a failure of the driver and the store
    holds the candidate, the slug returned is one of the store. *)
Theorem generateUniqueSlug_any_error_is_unique
  (fuel n : nat) (w : World) (s : string) (e : error) :
  generateRandomString 5 w = (Ok s, drawn w) →
  (n <= fuel)%nat →
  (∀ j, (j < n)%nat → ∃ d, lookup s (ticks j (drawn w)) = inl d) →
  lookup s (ticks n (drawn w)) = inr e →
  FindOne s (ticks n (drawn w)) = (Ok (inr e), ticks (S n) (drawn w)) ∧
  generateUniqueSlug fuel w = (Ok s, ticks (S n) (drawn w)) ∧
  docs (ticks (S n) (drawn w)) = docs w ∧
  ((0 < n)%nat ∨ (∃ d, find (has_slug s) (docs w) = Some d) →
   s ∈ map Slug (docs w)).
Proof.
  intros Hs Hfuel Hfound Herr.
  split; [rewrite FindOne_eq, Herr, tick_ticks; reflexivity|].
  split; [|split; [reflexivity|]].
  - unfold generateUniqueSlug.
    erewrite bind_Ok by exact Hs.
    erewrite bind_Ok by apply FindOne_err_eq.
    destruct n as [|n].
    + rewrite ticks_0 in Herr. rewrite Herr, tick_ticks_1.
      destruct fuel; reflexivity.
    + destruct (Hfound 0%nat ltac:(lia)) as (d & Hd).
      rewrite ticks_0 in Hd. rewrite Hd.
      erewrite bind_Ok; [reflexivity|].
      rewrite <- ticks_tick.
      apply (generateUniqueSlug_loop_stops s e n); [lia| |].
      * intros j Hj. rewrite ticks_tick. apply Hfound. lia.
      * rewrite ticks_tick. exact Herr.
  - assert (∀ d, find (has_slug s) (docs w) = Some d →
                 s ∈ map Slug (docs w)) as Hin.
    { intros d Hd. apply find_some in Hd as [Hd Heq].
      unfold has_slug in Heq. apply String.eqb_eq in Heq. subst s.
      apply list_elem_of_In, in_map, Hd. }
    intros [Hn|(d & Hd)]; [|exact (Hin d Hd)].
    destruct (Hfound 0%nat Hn) as (d & Hd).
    rewrite ticks_0 in Hd. unfold lookup in Hd. simpl in Hd.
    destruct (db_fault w (db_calls w)); [discriminate|].
    destruct (find (has_slug s) (docs w)) as [d'|] eqn:Hf;
      [|discriminate].
    exact (Hin d' eq_refl).
Qed.

Lemma generateUniqueSlug_any_error_witness :
  FindOne "aaaaa" (ticks 2 (drawn w_third_fails))
  = (Ok (inr (ErrOther "connection reset by peer")),
     ticks 3 (drawn w_third_fails)) ∧
  generateUniqueSlug 7 w_third_fails
  = (Ok "aaaaa", ticks 3 (drawn w_third_fails)) ∧
  docs (ticks 3 (drawn w_third_fails)) = docs w_third_fails ∧
  ((0 < 2)%nat ∨
   (∃ d, find (has_slug "aaaaa") (docs w_third_fails) = Some d) →
   "aaaaa" ∈ map Slug (docs w_third_fails)).
Proof.
  apply (generateUniqueSlug_any_error_is_unique 7 2 w_third_fails "aaaaa"
           (ErrOther "connection reset by peer")).
  - reflexivity.
  - lia.
  - intros [|[|j]] Hj; [exists old_pair; reflexivity..|lia].
  - reflexivity.
Defined.

(** In a store whose lookups do not fail, a slug that is returned was
    absent, and a single lookup was made. *)
Lemma generateUniqueSlug_reliable fuel w s w1 :
  reliable w → generateUniqueSlug fuel w = (Ok s, w1) →
  find (has_slug s) (docs w) = None ∧
  w1 = tick (set_rand_pos (rand_pos w + 5) w).
Proof.
  intros Hrel H.
  destruct (generateUniqueSlug_Ok _ _ _ _ H) as (w0 & Hs).
  destruct (find (has_slug s) (docs w)) as [d|] eqn:Hd.
  - exfalso. revert H. unfold generateUniqueSlug.
    erewrite bind_Ok by exact Hs.
    erewrite bind_Ok by apply FindOne_err_eq.
    apply generateRandomString_Ok in Hs as (_ & _ & _ & ->).
    unfold lookup. simpl. rewrite (reliable_now w Hrel), Hd.
    erewrite bind_Diverge; [discriminate|].
    apply (generateUniqueSlug_loop_taken s d); [|exact Hd].
    apply reliable_tick. exact Hrel.
  - split; [reflexivity|].
    pose proof Hs as Hw.
    apply generateRandomString_Ok in Hw as (_ & _ & _ & Hw).
    assert (lookup s w0 = inr ErrNoDocuments) as He.
    { subst w0. unfold lookup. simpl.
      rewrite (reliable_now w Hrel), Hd. reflexivity. }
    rewrite (generateUniqueSlug_returns_on_error fuel w s w0 _ Hs He) in H.
    injection H as <-. subst w0. reflexivity.
Qed.

(** ** The handlers *)

Lemma InsertOne_eq d w :
  InsertOne d w =
  match db_fault w (db_calls w) with
  | Some msg => (Ok (Some (ErrOther msg)), tick w)
  | None =>
      (Ok None,
       set_db (docs w ++ [bson_doc d]) (ttl_index w) (S (db_calls w)) w)
  end.
Proof.
  unfold InsertOne, bind, db_call, tick.
  destruct (db_fault w (db_calls w)); reflexivity.
Qed.

Lemma createTTLIndex_eq w :
  createTTLIndex w =
  match db_fault w (db_calls w) with
  | Some msg => (Panic msg, tick w)
  | None => (Ok None, set_db (docs w) true (S (db_calls w)) w)
  end.
Proof.
  unfold createTTLIndex, Indexes_CreateOne, bind, db_call, tick.
  destruct (db_fault w (db_calls w)); reflexivity.
Qed.

(** When the insertion part of the handler responds, it responds 200 with
    the pair it has appended to the collection. *)
Lemma insertSlugURLPair_Ok fuel target retention w resp w' :
  insertSlugURLPair fuel target retention w = (Ok resp, w') →
  ∃ s w1,
    generateUniqueSlug fuel w = (Ok s, w1) ∧
    resp = created (pair_of s target retention w1) ∧
    w' = set_db (docs w1 ++ [bson_doc (pair_of s target retention w1)])
           true (S (S (db_calls w1))) w1.
Proof.
  unfold insertSlugURLPair. intros H.
  apply bind_Ok_inv in H as (s & w1 & Hs & H).
  apply bind_Ok_inv in H as (now & w2 & Hnow & H).
  unfold time_Now in Hnow. injection Hnow as <- <-.
  apply bind_Ok_inv in H as (err & w3 & Hins & H).
  rewrite InsertOne_eq in Hins.
  destruct (db_fault w1 (db_calls w1)); injection Hins as <- <-;
    [discriminate|].
  apply bind_Ok_inv in H as (err & w4 & Hidx & H).
  rewrite createTTLIndex_eq in Hidx. simpl in Hidx.
  destruct (db_fault w1 (S (db_calls w1))); [discriminate|].
  injection Hidx as <- <-. unfold ret in H. injection H as <- <-.
  exists s, w1. split; [exact Hs|]. split; reflexivity.
Qed.

(** The loop only calls the driver. *)
Lemma generateUniqueSlug_loop_frame fuel s : ∀ err w r w',
  generateUniqueSlug_loop fuel s err w = (r, w') →
  ∃ n, w' = set_db (docs w) (ttl_index w) (db_calls w + n) w.
Proof.
  induction fuel as [|fuel IH]; intros err w r w' H.
  - exists 0%nat. rewrite Nat.add_0_r.
    destruct err; simpl in H; injection H as <- <-; destruct w; reflexivity.
  - destruct err as [e|]; simpl in H.
    + exists 0%nat. rewrite Nat.add_0_r.
      injection H as <- <-. destruct w; reflexivity.
    + erewrite bind_Ok in H by apply FindOne_err_eq.
      apply IH in H as (n & ->). exists (S n).
      unfold tick, set_db. simpl. f_equal. lia.
Qed.

(** [generateUniqueSlug] draws five times and calls the driver; it
    changes nothing else. *)
Lemma generateUniqueSlug_frame fuel w s w1 :
  generateUniqueSlug fuel w = (Ok s, w1) →
  ∃ n, w1 = set_db (docs w) (ttl_index w) (db_calls w + S n)
              (set_rand_pos (rand_pos w + 5) w).
Proof.
  unfold generateUniqueSlug. intros H.
  apply bind_Ok_inv in H as (s0 & w2 & Hs0 & H).
  apply generateRandomString_Ok in Hs0 as (_ & _ & _ & ->).
  apply bind_Ok_inv in H as (e & w3 & He & H).
  rewrite FindOne_err_eq in He. injection He as <- <-.
  apply bind_Ok_inv in H as (u & w4 & Hloop & H).
  unfold ret in H. injection H as <- <-.
  apply generateUniqueSlug_loop_frame in Hloop as (n & ->).
  exists n. unfold tick, set_db, set_rand_pos. simpl. f_equal. lia.
Qed.

Lemma insertSlugURLPair_appends fuel target retention w resp w' :
  insertSlugURLPair fuel target retention w = (Ok resp, w') →
  ∃ p, docs w' = (docs w ++ [bson_doc p])%list ∧ Url p = target ∧
       resp = created p.
Proof.
  intros H. apply insertSlugURLPair_Ok in H as (s & w1 & Hs & -> & ->).
  exists (pair_of s target retention w1). simpl.
  split; [|split; reflexivity].
  apply generateUniqueSlug_frame in Hs as (n & ->). reflexivity.
Qed.

Lemma find_app_r {A} (f : A → bool) (l : list A) (x : A) :
  find f l = None → f x = true → find f (l ++ [x])%list = Some x.
Proof.
  induction l as [|a l IH]; simpl; intros Hl Hx.
  - rewrite Hx. reflexivity.
  - destruct (f a); [discriminate|]. auto.
Qed.

(** In a store whose lookups do not fail, the slug of a created pair
    resolves, right after the creation, to that pair. *)
Lemma insertSlugURLPair_then_get fuel target retention w resp w' :
  reliable w →
  insertSlugURLPair fuel target retention w = (Ok resp, w') →
  ∃ p, resp = created p ∧ docs w' = (docs w ++ [bson_doc p])%list ∧
       Url p = target ∧
       get_slug (get (Slug p)) w' = (Ok (c_Redirect target), tick w').
Proof.
  intros Hrel H. apply insertSlugURLPair_Ok in H as (s & w1 & Hs & -> & ->).
  apply generateUniqueSlug_reliable in Hs as [Hd ->]; [|exact Hrel].
  eexists. split; [reflexivity|]. split; [reflexivity|].
  split; [reflexivity|].
  unfold get_slug. erewrite bind_Ok by apply FindOne_eq.
  unfold lookup. simpl. rewrite (Hrel _) by lia.
  unfold c_Params, get. simpl. rewrite lookup_singleton_eq. simpl.
  rewrite (find_app_r _ _ _ Hd); [reflexivity|].
  unfold has_slug. simpl. apply String.eqb_refl.
Qed.

(** The successful runs of the three creation handlers. *)

Ltac run_body :=
  cbn -[url.Parse url.String insertSlugURLPair Hour Minute].

Lemma isValidURL_inv str w valid w' :
  isValidURL str w = (Ok valid, w') →
  w' = w ∧ (valid = true → ∃ code, http_get w str = Some code).
Proof.
  unfold isValidURL. destruct (http_get w str) as [code|];
    intros [= <- <-]; split; eauto; discriminate.
Qed.

Lemma Main1_post_Ok fuel c w resp w' :
  Main1.post_createSlugURLPair fuel c w = (Ok resp, w') →
  StatusCode resp = StatusOK →
  ∃ u, url.Parse (submitted c) = inl u ∧
       insertSlugURLPair fuel (url.String (default_http u)) (Hour * 24 * 5) w
       = (Ok resp, w').
Proof.
  unfold Main1.post_createSlugURLPair, submitted, BodyParser.
  destruct (Body c) as [e|[v|]]; run_body; intros H Hst.
  - injection H as <- <-. discriminate.
  - destruct (url.Parse v) as [u|e].
    + exists u. split; [reflexivity|exact H].
    + injection H as <- <-. discriminate.
  - destruct (url.Parse "") as [u|e] eqn:Hp.
    + exists u. split; [reflexivity|exact H].
    + injection H as <- <-. discriminate.
Qed.

Lemma Main2_post_Ok fuel c w resp w' :
  Main2.post_createSlugURLPair fuel c w = (Ok resp, w') →
  StatusCode resp = StatusOK →
  ∃ u, url.Parse (submitted c) = inl u ∧
       (∃ code, http_get w (url.String (force_https u)) = Some code) ∧
       insertSlugURLPair fuel (url.String (force_https u)) (Minute * 5) w
       = (Ok resp, w').
Proof.
  unfold Main2.post_createSlugURLPair, submitted, BodyParser.
  assert (∀ v, (v0 <- Main2.assertProtocol v;;
                valid <- isValidURL v0;;
                if negb valid
                then ret invalid_url
                else insertSlugURLPair fuel v0 (Minute * 5)) w
               = (Ok resp, w') →
               StatusCode resp = StatusOK →
               ∃ u, url.Parse v = inl u ∧
                    (∃ code, http_get w (url.String (force_https u))
                             = Some code) ∧
                    insertSlugURLPair fuel (url.String (force_https u))
                      (Minute * 5) w = (Ok resp, w')) as Hgen.
  { intros v H Hst.
    apply bind_Ok_inv in H as (v0 & w1 & Hv & H).
    unfold Main2.assertProtocol in Hv.
    destruct (url.Parse v) as [u|e]; [|discriminate].
    injection Hv as <- <-.
    apply bind_Ok_inv in H as (valid & w2 & Hval & H).
    apply isValidURL_inv in Hval as [-> Hcode].
    destruct valid; simpl in H.
    - exists u. split; [reflexivity|]. split; [apply Hcode; reflexivity|].
      exact H.
    - injection H as <- <-. discriminate. }
  destruct (Body c) as [e|[v|]]; run_body; intros H Hst.
  - injection H as <- <-. discriminate.
  - apply Hgen; assumption.
  - apply Hgen; assumption.
Qed.

Lemma Part000_post_Ok fuel c w resp w' :
  Part000.post_createSlugURLPair fuel c w = (Ok resp, w') →
  StatusCode resp = StatusOK →
  ∃ u, url.Parse (submitted c) = inl u ∧
       (∃ code, http_get w (url.String (force_https u)) = Some code) ∧
       insertSlugURLPair fuel (url.String (force_https u)) (Hour * 24 * 5) w
       = (Ok resp, w').
Proof.
  unfold Part000.post_createSlugURLPair, submitted, BodyParser.
  assert (∀ v, (let '(v0, err) := Part000.assertProtocol v in
                match err with
                | Some _ => ret invalid_url
                | None =>
                    valid <- isValidURL v0;;
                    if negb valid
                    then ret invalid_url
                    else insertSlugURLPair fuel v0 (Hour * 24 * 5)
                end) w = (Ok resp, w') →
               StatusCode resp = StatusOK →
               ∃ u, url.Parse v = inl u ∧
                    (∃ code, http_get w (url.String (force_https u))
                             = Some code) ∧
                    insertSlugURLPair fuel (url.String (force_https u))
                      (Hour * 24 * 5) w = (Ok resp, w')) as Hgen.
  { intros v H Hst. unfold Part000.assertProtocol in H.
    destruct (url.Parse v) as [u|e].
    - apply bind_Ok_inv in H as (valid & w2 & Hval & H).
      apply isValidURL_inv in Hval as [-> Hcode].
      destruct valid; simpl in H.
      + exists u. split; [reflexivity|].
        split; [apply Hcode; reflexivity|]. exact H.
      + injection H as <- <-. discriminate.
    - injection H as <- <-. discriminate. }
  destruct (Body c) as [e|[v|]]; run_body; intros H Hst.
  - injection H as <- <-. discriminate.
  - apply Hgen; assumption.
  - apply Hgen; assumption.
Qed.

(** ** [net/url] *)

Lemma append_assoc (a b c : string) : (a +:+ b) +:+ c = a +:+ b +:+ c.
Proof.
  induction a as [|x a IH]; [reflexivity|].
  change (String x ((a +:+ b) +:+ c) = String x (a +:+ b +:+ c)).
  f_equal. exact IH.
Qed.

Lemma prefix_append (p t : string) : String.prefix p (p +:+ t) = true.
Proof.
  induction p as [|x p IH].
  - destruct t; reflexivity.
  - change (String.prefix (String x p) (String x (p +:+ t)) = true).
    simpl. destruct (ascii_dec x x); [exact IH|congruence].
Qed.

Lemma prefix_inv (p : string) : ∀ s,
  String.prefix p s = true → ∃ t, s = p +:+ t.
Proof.
  induction p as [|x p IH]; intros s H.
  - exists s. reflexivity.
  - destruct s as [|y s]; simpl in H; [discriminate|].
    destruct (ascii_dec x y) as [->|]; [|discriminate].
    destruct (IH _ H) as (t & ->). exists t. reflexivity.
Qed.

(** [String] writes the buffer it is given first. *)
Lemma String_rest_prefix buf u : ∃ t, url.String_rest buf u = buf +:+ t.
Proof.
  unfold url.String_rest.
  destruct (url.nonempty (url.Opaque u)).
  - eexists. rewrite append_assoc. reflexivity.
  - destruct (url.EscapedPath u) as [|c path].
    + destruct (Nat.eqb _ _ && _); eexists;
        rewrite ?append_assoc; reflexivity.
    + destruct (negb (Ascii.eqb c "/") && url.nonempty (url.Host u));
        destruct (Nat.eqb _ _ && _); eexists;
        rewrite ?append_assoc; reflexivity.
Qed.

(** A URL with a scheme is written as the scheme, a colon, and the rest. *)
Lemma String_scheme_prefix u :
  url.Scheme u ≠ "" →
  strings.HasPrefix (url.String u) (url.Scheme u +:+ ":") = true.
Proof.
  intros Hs. unfold url.String, url.nonempty.
  destruct (String.eqb_spec (url.Scheme u) ""); [contradiction|]. simpl.
  destruct (String_rest_prefix (url.Scheme u +:+ ":") u) as (t & ->).
  apply prefix_append.
Qed.

Lemma setPath_keeps u p u' :
  url.setPath u p = inl u' →
  url.Scheme u' = url.Scheme u ∧ url.Host u' = url.Host u.
Proof.
  unfold url.setPath. destruct (url.unescape p url.encodePath); [|discriminate].
  destruct (String.eqb _ _); intros [= <-]; split; reflexivity.
Qed.

Lemma setFragment_keeps u f u' :
  url.setFragment u f = inl u' →
  url.Scheme u' = url.Scheme u ∧ url.Host u' = url.Host u.
Proof.
  unfold url.setFragment.
  destruct (url.unescape f url.encodeFragment); [|discriminate].
  destruct (String.eqb _ _); intros [= <-]; split; reflexivity.
Qed.

(** A prefix of [s[:i]] is a prefix of [s]. *)
Lemma prefix_upto (p : string) : ∀ i s,
  String.prefix p (strings.upto i s) = true → String.prefix p s = true.
Proof.
  unfold strings.upto.
  induction p as [|x p IH]; intros i s H.
  - destruct s; reflexivity.
  - destruct s as [|y s]; [destruct i; discriminate|].
    destruct i as [|i]; [discriminate|].
    simpl in H |- *. destruct (ascii_dec x y); [|discriminate].
    eapply IH. exact H.
Qed.

Lemma prefix_Cut (p s : string) (c : ascii) :
  String.prefix p (fst (fst (strings.Cut s c))) = true →
  String.prefix p s = true.
Proof.
  unfold strings.Cut. destruct (strings.IndexByte s c); simpl.
  - apply prefix_upto.
  - auto.
Qed.

(** The scheme of a parsed URL is the lower-cased scheme that [getScheme]
    splits off, and the URL has a host only if two slashes follow the
    scheme. *)
Lemma parse_inv raw v u :
  url.parse raw v = inl u → String.eqb raw "*" = false →
  ∃ scheme rest, url.getScheme raw = inl (scheme, rest) ∧
                 url.Scheme u = strings.ToLower scheme ∧
                 (strings.HasPrefix rest "//" = false → url.Host u = "").
Proof.
  unfold url.parse. intros H Hstar. rewrite Hstar in H.
  destruct (url.stringContainsCTLByte raw); [discriminate|].
  destruct (String.eqb raw "" && v); [discriminate|].
  destruct (url.getScheme raw) as [[scheme rest]|e]; [|discriminate].
  exists scheme, rest. split; [reflexivity|].
  revert H.
  set (u0 := url.set_Scheme (strings.ToLower scheme) url.zero).
  assert (∀ r u1, url.Scheme u1 = strings.ToLower scheme →
            url.Host u1 = "" →
            (if negb (strings.HasPrefix r "/")
                && negb (String.eqb (url.Scheme u1) "")
             then inl (url.set_Opaque r u1)
             else if negb (strings.HasPrefix r "/") && v
             then inr (url.ErrorString "invalid URI for request")
             else if negb (strings.HasPrefix r "/")
                     && strings.ContainsByte (fst (fst (strings.Cut r "/"))) ":"
             then inr (url.ErrorString
                         "first path segment in URL cannot contain colon")
             else if (negb (String.eqb (url.Scheme u1) "")
                      || (negb v && negb (strings.HasPrefix r "///")))
                     && strings.HasPrefix r "//"
             then
               let authority := strings.from 2 r in
               let '(authority, rest) :=
                 match strings.IndexByte authority "/" with
                 | Some i => (strings.upto i authority, strings.from i authority)
                 | None => (authority, EmptyString)
                 end in
               match url.parseAuthority authority with
               | inr e => inr e
               | inl (usr, host) => url.setPath (url.set_authority usr host u1) rest
               end
             else if negb (String.eqb (url.Scheme u1) "") && strings.HasPrefix r "/"
             then url.setPath (url.set_OmitHost true u1) r
             else url.setPath u1 r) = inl u →
            url.Scheme u = strings.ToLower scheme ∧
            (strings.HasPrefix r "//" = false → url.Host u = "")) as Hrest.
  { intros r u1 Hu1 Hh1.
    destruct (negb (strings.HasPrefix r "/")
              && negb (String.eqb (url.Scheme u1) "")).
    { intros [= <-]. split; [exact Hu1|intros _; exact Hh1]. }
    destruct (negb (strings.HasPrefix r "/") && v); [discriminate|].
    destruct (negb (strings.HasPrefix r "/") && _); [discriminate|].
    destruct ((negb (String.eqb (url.Scheme u1) "")
               || (negb v && negb (strings.HasPrefix r "///")))
              && strings.HasPrefix r "//") eqn:Hauth.
    { apply andb_true_iff in Hauth as [_ Hauth]. cbv zeta.
      destruct (strings.IndexByte _ _);
        destruct (url.parseAuthority _) as [[usr host]|e]; try discriminate;
        intros H; apply setPath_keeps in H as [H _]; rewrite H;
        (split; [exact Hu1|congruence]). }
    destruct (negb (String.eqb (url.Scheme u1) "") && strings.HasPrefix r "/");
      intros H; apply setPath_keeps in H as [Hs Hh]; rewrite Hs, Hh;
      (split; [exact Hu1|intros _; exact Hh1]). }
  destruct (strings.HasSuffixByte rest "?" && _).
  - intros H. apply Hrest in H as [Hs Hh]; [|reflexivity|reflexivity].
    split; [exact Hs|]. intros Hpre. apply Hh.
    destruct (strings.HasPrefix _ "//") eqn:E; [|reflexivity].
    apply prefix_upto in E. unfold strings.HasPrefix in Hpre. congruence.
  - destruct (strings.Cut rest "?") as [[r q] b] eqn:Hcut.
    intros H. apply Hrest in H as [Hs Hh]; [|reflexivity|reflexivity].
    split; [exact Hs|]. intros Hpre. apply Hh.
    destruct (strings.HasPrefix r "//") eqn:E; [|reflexivity].
    assert (r = fst (fst (strings.Cut rest "?"))) as -> by (rewrite Hcut; reflexivity).
    apply prefix_Cut in E. unfold strings.HasPrefix in Hpre. congruence.
Qed.

Lemma Cut_cons (c x : ascii) (s : string) :
  x ≠ c →
  fst (fst (strings.Cut (String x s) c)) =
  String x (fst (fst (strings.Cut s c))).
Proof.
  intros Hx. unfold strings.Cut. simpl.
  destruct (Ascii.eqb_spec x c); [contradiction|].
  destruct (strings.IndexByte s c); reflexivity.
Qed.

Lemma Parse_inv raw u :
  url.Parse raw = inl u →
  String.eqb (fst (fst (strings.Cut raw "#"))) "*" = false →
  ∃ scheme rest,
    url.getScheme (fst (fst (strings.Cut raw "#"))) = inl (scheme, rest) ∧
    url.Scheme u = strings.ToLower scheme ∧
    (strings.HasPrefix rest "//" = false → url.Host u = "").
Proof.
  unfold url.Parse. destruct (strings.Cut raw "#") as [[u0 frag] b]. simpl.
  destruct (url.parse u0 false) as [u1|e] eqn:Hp; [|discriminate].
  intros H Hstar.
  destruct (parse_inv _ _ _ Hp Hstar) as (scheme & rest & Hg & Hs & Hh).
  exists scheme, rest. split; [exact Hg|].
  destruct (String.eqb frag "").
  - injection H as <-. split; assumption.
  - apply setFragment_keeps in H as [H1 H2]. rewrite H1, H2.
    split; assumption.
Qed.

Lemma Parse_http (t : string) (u : url.URL) :
  url.Parse ("http://" +:+ t) = inl u → url.Scheme u = "http".
Proof.
  intros H. apply Parse_inv in H as (scheme & rest & Hg & Hs & _).
  - change ("http://" +:+ t)
      with (String "h" (String "t" (String "t" (String "p"
             (String ":" (String "/" (String "/" t))))))) in Hg.
    rewrite !Cut_cons in Hg by discriminate.
    injection Hg as <- _. exact Hs.
  - change ("http://" +:+ t)
      with (String "h" (String "t" (String "t" (String "p"
             (String ":" (String "/" (String "/" t))))))).
    rewrite !Cut_cons by discriminate. reflexivity.
Qed.

Lemma Parse_https (t : string) (u : url.URL) :
  url.Parse ("https://" +:+ t) = inl u → url.Scheme u = "https".
Proof.
  intros H. apply Parse_inv in H as (scheme & rest & Hg & Hs & _).
  - change ("https://" +:+ t)
      with (String "h" (String "t" (String "t" (String "p" (String "s"
             (String ":" (String "/" (String "/" t)))))))) in Hg.
    rewrite !Cut_cons in Hg by discriminate.
    injection Hg as <- _. exact Hs.
  - change ("https://" +:+ t)
      with (String "h" (String "t" (String "t" (String "p" (String "s"
             (String ":" (String "/" (String "/" t)))))))).
    rewrite !Cut_cons by discriminate. reflexivity.
Qed.

Lemma force_https_Scheme u :
  is_http_or_https (url.Scheme (force_https u)) = true.
Proof.
  unfold force_https.
  destruct (is_http_or_https (url.Scheme u)) eqn:E; simpl; auto.
Qed.

Lemma default_http_Scheme u : url.Scheme (default_http u) ≠ "".
Proof.
  unfold default_http.
  destruct (String.eqb_spec (url.Scheme u) ""); simpl; [discriminate|auto].
Qed.

Lemma http_or_https_prefix u :
  is_http_or_https (url.Scheme u) = true →
  strings.HasPrefix (url.String u) "http:" = true ∨
  strings.HasPrefix (url.String u) "https:" = true.
Proof.
  unfold is_http_or_https. intros H. apply orb_true_iff in H as [H|H];
    apply String.eqb_eq in H;
    pose proof (String_scheme_prefix u) as Hp; rewrite H in Hp;
    [left|right]; apply Hp; discriminate.
Qed.

(** Written out, a URL with the scheme [http] or [https] begins with the
    scheme and [://] whenever reading it back gives a host. *)
Lemma serialised_with_host u u' :
  is_http_or_https (url.Scheme u) = true →
  url.Parse (url.String u) = inl u' → url.Host u' ≠ "" →
  strings.HasPrefix (url.String u) "http://" = true ∨
  strings.HasPrefix (url.String u) "https://" = true.
Proof.
  intros Hs Hp Hh. unfold is_http_or_https in Hs.
  assert (∃ t, url.String u = url.Scheme u +:+ ":" +:+ t) as (t & Ht).
  { unfold url.String, url.nonempty.
    assert (String.eqb (url.Scheme u) "" = false) as ->.
    { apply orb_true_iff in Hs as [H|H]; apply String.eqb_eq in H;
        rewrite H; reflexivity. }
    simpl.
    destruct (String_rest_prefix (url.Scheme u +:+ ":") u) as (t & ->).
    exists t. apply append_assoc. }
  rewrite Ht in Hp |- *.
  destruct (strings.HasPrefix t "//") eqn:Ht2.
  - apply prefix_inv in Ht2 as (t' & ->).
    apply orb_true_iff in Hs as [H|H]; apply String.eqb_eq in H; rewrite H.
    + left. apply (prefix_append "http://" t').
    + right. apply (prefix_append "https://" t').
  - exfalso. apply Hh.
    assert (strings.HasPrefix (fst (fst (strings.Cut t "#"))) "//" = false)
      as Ht0.
    { destruct (strings.HasPrefix (fst (fst (strings.Cut t "#"))) "//")
        eqn:E; [|reflexivity].
      apply prefix_Cut in E. unfold strings.HasPrefix in Ht2. congruence. }
    apply orb_true_iff in Hs as [H|H]; apply String.eqb_eq in H;
      rewrite H in Hp.
    + apply Parse_inv in Hp as (scheme & rest & Hg & _ & Hhost).
      * change ("http" +:+ ":" +:+ t)
          with (String "h" (String "t" (String "t" (String "p"
                 (String ":" t))))) in Hg.
        rewrite !Cut_cons in Hg by discriminate.
        injection Hg as _ <-. exact (Hhost Ht0).
      * change ("http" +:+ ":" +:+ t)
          with (String "h" (String "t" (String "t" (String "p"
                 (String ":" t))))).
        rewrite !Cut_cons by discriminate. reflexivity.
    + apply Parse_inv in Hp as (scheme & rest & Hg & _ & Hhost).
      * change ("https" +:+ ":" +:+ t)
          with (String "h" (String "t" (String "t" (String "p" (String "s"
                 (String ":" t)))))) in Hg.
        rewrite !Cut_cons in Hg by discriminate.
        injection Hg as _ <-. exact (Hhost Ht0).
      * change ("https" +:+ ":" +:+ t)
          with (String "h" (String "t" (String "t" (String "p" (String "s"
                 (String ":" t)))))).
        rewrite !Cut_cons by discriminate. reflexivity.
Qed.

(** ** The claims on the handlers *)

(** C8: a GET on a slug that no document of the store carries (never
    created, or purged since) is answered 404 with the plain-text message,
    and with no redirect: the response has no [Location]. *)
Theorem get_slug_not_found (c : Ctx) (w : World) :
  find (has_slug (c_Params c "slug")) (docs w) = None →
  ∃ resp,
    get_slug c w = (Ok resp, tick w) ∧
    StatusCode resp = 404 ∧
    Sent resp = PText "404: Error - Unable to find redirection URL." ∧
    Location resp = None.
Proof.
  intros Hd. eexists. split.
  - unfold get_slug. erewrite bind_Ok by apply FindOne_eq.
    unfold lookup. rewrite Hd.
    destruct (db_fault w (db_calls w)); reflexivity.
  - repeat split.
Qed.

Lemma get_slug_not_found_witness :
  (∃ resp,
     get_slug (get "zzzzz") w_taken = (Ok resp, tick w_taken) ∧
     StatusCode resp = 404 ∧
     Sent resp = PText "404: Error - Unable to find redirection URL." ∧
     Location resp = None) ∧
  (fst (get_slug (get "aaaaa") w_expired) = Ok (c_Redirect (Url old_pair)) ∧
   ∃ resp,
     get_slug (get "aaaaa") (ttl_sweep w_expired)
     = (Ok resp, tick (ttl_sweep w_expired)) ∧
     StatusCode resp = 404 ∧
     Sent resp = PText "404: Error - Unable to find redirection URL." ∧
     Location resp = None).
Proof.
  split; [|split; [reflexivity|]].
  - apply (get_slug_not_found (get "zzzzz") w_taken). reflexivity.
  - apply (get_slug_not_found (get "aaaaa") (ttl_sweep w_expired)).
    reflexivity.
Defined.

(** C10: the key of the rate limiter in the first program of [main.go] is
    the IP chain joined with no separator; two different chains can give
    the same key. *)
Theorem KeyGenerator_not_injective :
  (∀ c, Main1.KeyGenerator c = String.concat "" (IPs c)) ∧
  ["1.2.3.4"; "56.7.8.9"] ≠ ["1.2.3.45"; "6.7.8.9"] ∧
  Main1.KeyGenerator (from_ips ["1.2.3.4"; "56.7.8.9"]) = "1.2.3.456.7.8.9" ∧
  Main1.KeyGenerator (from_ips ["1.2.3.45"; "6.7.8.9"]) = "1.2.3.456.7.8.9" ∧
  ¬ (∀ c1 c2, Main1.KeyGenerator c1 = Main1.KeyGenerator c2 →
              IPs c1 = IPs c2).
Proof.
  split; [reflexivity|]. split; [discriminate|].
  split; [reflexivity|]. split; [reflexivity|].
  intros Hinj.
  specialize (Hinj (from_ips ["1.2.3.4"; "56.7.8.9"])
                   (from_ips ["1.2.3.45"; "6.7.8.9"]) eq_refl).
  discriminate.
Qed.

(** C5 (as the claim states it, refuted): in the first program of
    [main.go] a well-formed body without a [url] member is not rejected:
    the empty string parses, the handler answers 200 and a pair with the
    target [http:] is persisted. *)
Lemma post_without_url_is_persisted :
  Body (post None) = Object None ∧
  fst (Main1.post_createSlugURLPair 0 (post None) w_empty) =
    Ok (created {| Slug := "aaaaa"; Url := "http:";
                   ExpireAt := Hour * 24 * 5 |}) ∧
  docs (snd (Main1.post_createSlugURLPair 0 (post None) w_empty)) =
    [{| Slug := "aaaaa"; Url := "http:"; ExpireAt := Hour * 24 * 5 |}].
Proof. repeat split. Qed.

(** C5 (amended): when [BodyParser] cannot parse the body, each of the
    three handlers answers 400 with the message that the body must
    contain a [url] field, and leaves the world as it was: nothing is
    persisted and the driver is not called.  A well-formed body without a
    [url] member is read as the empty target; the two programs with
    [assertProtocol] turn it into [https:] and, when the probe of that
    string fails, answer 400 with the message [Invalid URL], again
    leaving the world as it was. *)
Theorem post_rejects_unusable_body (fuel : nat) (c : Ctx) (w : World) :
  (∀ e, Body c = Malformed e →
     Main1.post_createSlugURLPair fuel c w = (Ok (body_error e), w) ∧
     Main2.post_createSlugURLPair fuel c w = (Ok (body_error e), w) ∧
     Part000.post_createSlugURLPair fuel c w = (Ok (body_error e), w) ∧
     StatusCode (body_error e) = 400 ∧
     ∃ m, Sent (body_error e) = PJSON m ∧
          m !! "message" = Some (JString "Body must contain a `url` field.") ∧
          m !! "err" = Some (JString e)) ∧
  (Body c = Object None → http_get w "https:" = None →
     Main2.post_createSlugURLPair fuel c w = (Ok invalid_url, w) ∧
     Part000.post_createSlugURLPair fuel c w = (Ok invalid_url, w) ∧
     StatusCode invalid_url = 400 ∧
     Sent invalid_url = PJSON {["message" := JString "Invalid URL"]}).
Proof.
  split.
  - intros e Hb.
    unfold Main1.post_createSlugURLPair, Main2.post_createSlugURLPair,
      Part000.post_createSlugURLPair, BodyParser.
    rewrite Hb. repeat split.
    eexists. split; [reflexivity|]. split.
    + rewrite lookup_insert_ne by discriminate. apply lookup_singleton_eq.
    + apply lookup_insert_eq.
  - intros Hb Hprobe.
    unfold Main2.post_createSlugURLPair, Part000.post_createSlugURLPair,
      BodyParser.
    rewrite Hb.
    change (Part000.assertProtocol (Value {| Value := "" |}))
      with ("https:", @None url.Error).
    change (Main2.assertProtocol (Value {| Value := "" |}))
      with (@ret string "https:").
    unfold bind, ret, isValidURL. rewrite Hprobe. repeat split.
Qed.

Lemma post_rejects_unusable_body_witness :
  (Main1.post_createSlugURLPair 3
     {| Body := Malformed "unexpected end of JSON input";
        IPs := []; Params := ∅ |} w_taken
   = (Ok (body_error "unexpected end of JSON input"), w_taken)) ∧
  (Part000.post_createSlugURLPair 3 (post None) w_taken
   = (Ok invalid_url, w_taken)).
Proof.
  split.
  - apply (proj1 (post_rejects_unusable_body 3
             {| Body := Malformed "unexpected end of JSON input";
                IPs := []; Params := ∅ |} w_taken)
             "unexpected end of JSON input").
    reflexivity.
  - apply (proj2 (post_rejects_unusable_body 3 (post None) w_taken));
      reflexivity.
Defined.

(** C2 (as the claim states it, refuted): the first program of [main.go]
    answers 200 to the target [ftp://example.com] and stores it as it is;
    the stored string begins with neither [http://] nor [https://]. *)
Lemma post_stores_ftp_url :
  fst (Main1.post_createSlugURLPair 0 (post (Some "ftp://example.com"))
         w_empty) =
    Ok (created {| Slug := "aaaaa"; Url := "ftp://example.com";
                   ExpireAt := Hour * 24 * 5 |}) ∧
  map Url (docs (snd (Main1.post_createSlugURLPair 0
                        (post (Some "ftp://example.com")) w_empty))) =
    ["ftp://example.com"] ∧
  strings.HasPrefix "ftp://example.com" "http://" = false ∧
  strings.HasPrefix "ftp://example.com" "https://" = false.
Proof. repeat split. Qed.

(** C2 (amended): a creation request that is answered 200 has appended
    one document to the collection, the pair of the response as the
    driver writes it, whose [url] is the serialisation of the
    parsed target and begins with the scheme and a colon.  In the first
    program of [main.go] the scheme is the one submitted, or [http] when
    none was; in the two programs with [assertProtocol] it is [http] or
    [https]. *)
Theorem stored_url_begins_with_scheme
  (fuel : nat) (c : Ctx) (w : World) (resp : Response) (w' : World) :
  StatusCode resp = StatusOK →
  (Main1.post_createSlugURLPair fuel c w = (Ok resp, w') →
   ∃ p u, docs w' = (docs w ++ [bson_doc p])%list ∧ resp = created p ∧
          url.Parse (submitted c) = inl u ∧
          Url p = url.String (default_http u) ∧
          url.Scheme (default_http u) ≠ "" ∧
          (url.Scheme u = "" → url.Scheme (default_http u) = "http") ∧
          (url.Scheme u ≠ "" → default_http u = u) ∧
          strings.HasPrefix (Url p) (url.Scheme (default_http u) +:+ ":")
          = true) ∧
  (Main2.post_createSlugURLPair fuel c w = (Ok resp, w') ∨
   Part000.post_createSlugURLPair fuel c w = (Ok resp, w') →
   ∃ p u, docs w' = (docs w ++ [bson_doc p])%list ∧ resp = created p ∧
          url.Parse (submitted c) = inl u ∧
          Url p = url.String (force_https u) ∧
          (strings.HasPrefix (Url p) "http:" = true ∨
           strings.HasPrefix (Url p) "https:" = true) ∧
          (probe_needs_host w →
           strings.HasPrefix (Url p) "http://" = true ∨
           strings.HasPrefix (Url p) "https://" = true)).
Proof.
  intros Hst. split.
  - intros H. apply Main1_post_Ok in H as (u & Hu & H); [|exact Hst].
    apply insertSlugURLPair_appends in H as (p & Hd & Hp & Hr).
    exists p, u. rewrite Hp.
    repeat split; auto using default_http_Scheme.
    + unfold default_http. intros ->. reflexivity.
    + unfold default_http. intros Hne.
      destruct (String.eqb_spec (url.Scheme u) ""); [contradiction|].
      reflexivity.
    + apply String_scheme_prefix, default_http_Scheme.
  - intros [H|H];
      [apply Main2_post_Ok in H as (u & Hu & Hprobe & H); [|exact Hst]
      |apply Part000_post_Ok in H as (u & Hu & Hprobe & H); [|exact Hst]];
      apply insertSlugURLPair_appends in H as (p & Hd & Hp & Hr);
      exists p, u; rewrite Hp;
      (split; [exact Hd|]); (split; [exact Hr|]); (split; [exact Hu|]);
      (split; [reflexivity|]);
      (split; [apply http_or_https_prefix, force_https_Scheme|]);
      intros Hnet; destruct Hprobe as (code & Hcode);
      destruct (Hnet _ _ Hcode) as (u' & Hu' & Hh);
      exact (serialised_with_host _ _ (force_https_Scheme u) Hu' Hh).
Qed.

Lemma stored_url_begins_with_scheme_witness :
  ∃ p u, docs (after_create example_pair w_empty)
         = (docs w_empty ++ [bson_doc p])%list ∧
         created example_pair = created p ∧
         url.Parse (submitted (post (Some "example.com"))) = inl u ∧
         Url p = url.String (force_https u) ∧
         (strings.HasPrefix (Url p) "http:" = true ∨
          strings.HasPrefix (Url p) "https:" = true) ∧
         (probe_needs_host w_empty →
          strings.HasPrefix (Url p) "http://" = true ∨
          strings.HasPrefix (Url p) "https://" = true).
Proof.
  apply (proj2 (stored_url_begins_with_scheme 0 (post (Some "example.com"))
                  w_empty (created example_pair)
                  (after_create example_pair w_empty) eq_refl)).
  right. reflexivity.
Defined.

(** In a store whose lookups do not fail, and with no other request
    between the two, a creation request that is answered 200 has
    persisted a pair, and the GET on its slug that follows is answered
    with a redirect, status 302, whose [Location] is the persisted URL. *)
Lemma create_then_get_redirects
  (fuel : nat) (c : Ctx) (w : World) (resp : Response) (w' : World) :
  reliable w →
  StatusCode resp = StatusOK →
  Main1.post_createSlugURLPair fuel c w = (Ok resp, w') ∨
  Main2.post_createSlugURLPair fuel c w = (Ok resp, w') ∨
  Part000.post_createSlugURLPair fuel c w = (Ok resp, w') →
  ∃ p redirect,
    resp = created p ∧ docs w' = (docs w ++ [bson_doc p])%list ∧
    get_slug (get (Slug p)) w' = (Ok redirect, tick w') ∧
    StatusCode redirect = 302 ∧ Location redirect = Some (Url p).
Proof.
  intros Hrel Hst H.
  assert (∃ target retention,
            insertSlugURLPair fuel target retention w = (Ok resp, w'))
    as (target & retention & Hins).
  { destruct H as [H|[H|H]].
    - apply Main1_post_Ok in H as (u & _ & H); eauto.
    - apply Main2_post_Ok in H as (u & _ & _ & H); eauto.
    - apply Part000_post_Ok in H as (u & _ & _ & H); eauto. }
  apply insertSlugURLPair_then_get in Hins as (p & -> & Hd & Hu & Hget);
    [|exact Hrel].
  exists p, (c_Redirect target). rewrite Hu. repeat split; assumption.
Qed.

Lemma find_app_l {A} (f : A → bool) (l l' : list A) (x : A) :
  find f l = Some x → find f (l ++ l')%list = Some x.
Proof.
  induction l as [|a l IH]; simpl; [discriminate|].
  destruct (f a); auto.
Qed.

(** The creation that follows a failed uniqueness lookup, and the GET
    that follows the creation: the slug of a pair of the store is given
    out again, and it still resolves to the older pair. *)
Lemma insertSlugURLPair_reuses_slug
  fuel target retention w s msg old :
  generateRandomString 5 w = (Ok s, drawn w) →
  db_fault w (db_calls w) = Some msg →
  (∀ i, (db_calls w < i)%nat → db_fault w i = None) →
  find (has_slug s) (docs w) = Some old →
  let p := pair_of s target retention (tick (drawn w)) in
  let w' := after_create (bson_doc p) w in
  insertSlugURLPair fuel target retention w = (Ok (created p), w') ∧
  get_slug (get s) w' = (Ok (c_Redirect (Url old)), tick w').
Proof.
  intros Hs Hf Hrest Hold p w'. split.
  - unfold insertSlugURLPair.
    erewrite bind_Ok
      by (eapply generateUniqueSlug_returns_on_error; [exact Hs|];
          unfold lookup; simpl; rewrite Hf; reflexivity).
    erewrite bind_Ok by reflexivity.
    erewrite bind_Ok
      by (rewrite InsertOne_eq; simpl; rewrite Hrest by lia; reflexivity).
    cbv beta iota.
    erewrite bind_Ok
      by (rewrite createTTLIndex_eq; simpl; rewrite Hrest by lia;
          reflexivity).
    unfold ret, w', after_create, set_db, drawn, set_rand_pos. simpl.
    do 2 f_equal. lia.
  - unfold get_slug. erewrite bind_Ok by apply FindOne_eq.
    unfold lookup. simpl. rewrite Hrest by lia.
    unfold c_Params, get. simpl. rewrite lookup_singleton_eq. simpl.
    rewrite (find_app_l _ _ _ _ Hold). reflexivity.
Qed.

(** C4: the round trip fails in the code.  When the uniqueness lookup of
    a creation fails in the driver, [generateUniqueSlug] returns its
    candidate although a pair of the collection carries it (against its
    comment); the creation is answered 200 with that slug, and the GET on
    the slug that follows, which does not fail, redirects to the [url]
    of the older pair, not to the one just persisted. *)
Theorem create_then_get_reuses_slug
  (fuel : nat) (c : Ctx) (w : World) (s msg : string) (old : SlugURLPair) :
  generateRandomString 5 w = (Ok s, drawn w) →
  db_fault w (db_calls w) = Some msg →
  (∀ i, (db_calls w < i)%nat → db_fault w i = None) →
  find (has_slug s) (docs w) = Some old →
  (∀ target retention, ∃ p w',
     insertSlugURLPair fuel target retention w = (Ok (created p), w') ∧
     Slug p = s ∧ Url p = target) ∧
  (∀ resp w',
     StatusCode resp = StatusOK →
     Main1.post_createSlugURLPair fuel c w = (Ok resp, w') ∨
     Main2.post_createSlugURLPair fuel c w = (Ok resp, w') ∨
     Part000.post_createSlugURLPair fuel c w = (Ok resp, w') →
     ∃ p, resp = created p ∧ Slug p = Slug old ∧
          docs w' = (docs w ++ [bson_doc p])%list ∧
          get_slug (get (Slug p)) w'
          = (Ok (c_Redirect (Url old)), tick w')).
Proof.
  intros Hs Hf Hrest Hold. split.
  - intros target retention.
    destruct (insertSlugURLPair_reuses_slug fuel target retention
                w s msg old Hs Hf Hrest Hold) as [H _].
    eexists _, _. split; [exact H|]. split; reflexivity.
  - intros resp w' Hst H.
    assert (∃ target retention,
              insertSlugURLPair fuel target retention w = (Ok resp, w'))
      as (target & retention & Hins).
    { destruct H as [H|[H|H]].
      - apply Main1_post_Ok in H as (u & _ & H); eauto.
      - apply Main2_post_Ok in H as (u & _ & _ & H); eauto.
      - apply Part000_post_Ok in H as (u & _ & _ & H); eauto. }
    destruct (insertSlugURLPair_reuses_slug fuel target retention
                w s msg old Hs Hf Hrest Hold) as [H1 H2].
    rewrite H1 in Hins. injection Hins as <- <-.
    assert (Slug old = s) as Hslug.
    { apply find_some in Hold as [_ Hold]. unfold has_slug in Hold.
      apply String.eqb_eq in Hold. exact Hold. }
    eexists. split; [reflexivity|]. rewrite Hslug.
    split; [reflexivity|]. split; [reflexivity|]. exact H2.
Qed.

Lemma create_then_get_reuses_slug_witness :
  let new_one :=
    {| Slug := "aaaaa"; Url := "https://new.example/";
       ExpireAt := Hour * 24 * 5 |} in
  Part000.post_createSlugURLPair 0 (post (Some "https://new.example/"))
    w_flaky = (Ok (created new_one), after_create new_one w_flaky) ∧
  (∃ p, created new_one = created p ∧ Slug p = Slug old_pair ∧
        docs (after_create new_one w_flaky)
        = (docs w_flaky ++ [bson_doc p])%list ∧
        get_slug (get (Slug p)) (after_create new_one w_flaky)
        = (Ok (c_Redirect (Url old_pair)),
           tick (after_create new_one w_flaky))) ∧
  Url old_pair ≠ Url new_one.
Proof.
  intros new_one.
  assert (Part000.post_createSlugURLPair 0
            (post (Some "https://new.example/")) w_flaky
          = (Ok (created new_one), after_create new_one w_flaky)) as Hrun
    by reflexivity.
  split; [exact Hrun|]. split; [|discriminate].
  exact (proj2 (create_then_get_reuses_slug 0
                     (post (Some "https://new.example/")) w_flaky "aaaaa"
                     "connection reset by peer" old_pair
                     eq_refl eq_refl
                     (fun i Hi => match i as j return
                                    (0 < j)%nat → fault_at 0 j = None with
                                  | O => fun H => match Nat.lt_irrefl 0 H
                                                  with end
                                  | S _ => fun _ => eq_refl
                                  end Hi)
                     eq_refl)
             (created new_one) (after_create new_one w_flaky)
             eq_refl (or_intror (or_intror Hrun))).
Defined.

(** C6 (as the claim states it, refuted): the input
    [http://example.com/a b] begins with [http://] and parses, and
    [assertProtocol] returns another string. *)
Lemma assertProtocol_changes_http_url :
  strings.HasPrefix "http://example.com/a b" "http://" = true ∧
  (∃ u, url.Parse "http://example.com/a b" = inl u) ∧
  Part000.assertProtocol "http://example.com/a b" =
    ("http://example.com/a%20b", None) ∧
  fst (Main2.assertProtocol "http://example.com/a b" w_empty) =
    Ok "http://example.com/a%20b" ∧
  "http://example.com/a%20b" ≠ "http://example.com/a b".
Proof.
  split; [reflexivity|]. split; [eexists; reflexivity|].
  split; [reflexivity|]. split; [reflexivity|]. discriminate.
Qed.

(** Nor is the normalisation idempotent on every input of that form: an
    IPv6 zone may hold a byte above 0x7f as it is, [String] writes the
    byte as an escape, and in a zone that escape does not parse. *)
Lemma assertProtocol_twice_fails :
  let s := "http://[::1%25" +:+ String (ascii_of_nat 228) "]" in
  Part000.assertProtocol s = ("http://[::1%25%E4]", None) ∧
  Part000.assertProtocol "http://[::1%25%E4]" =
    ("", Some (url.EscapeError "%E4")).
Proof. split; reflexivity. Qed.

(** * Further properties of the code *)

(** ** The slug generator *)

Lemma index_rune_pick v w :
  0 <= v < 64 → index_rune SLUG_ALPHABET v w = (Ok (pick v), w).
Proof.
  intros Hv.
  destruct (index_rune_in_range SLUG_ALPHABET v w) as (c & Hc & _).
  { rewrite SLUG_ALPHABET_length. lia. }
  rewrite Hc. do 2 f_equal.
  unfold index_rune in Hc.
  destruct ((0 <=? v) && (v <? Z.of_nat (length SLUG_ALPHABET)));
    [|discriminate].
  unfold pick.
  destruct (SLUG_ALPHABET !! Z.to_nat v); [|discriminate].
  injection Hc as <-. reflexivity.
Qed.

Lemma draws_are_cons v vs w :
  draws_are (v :: vs) w →
  rand_reader w (rand_pos w) = Some v ∧
  draws_are vs (set_rand_pos (S (rand_pos w)) w).
Proof.
  intros H. split.
  - rewrite <- (Nat.add_0_r (rand_pos w)). apply (H 0%nat). reflexivity.
  - intros i x Hx. simpl. rewrite <- Nat.add_succ_r.
    apply (H (S i)). exact Hx.
Qed.

(** The loop over the indices [k, k+n) writes, in this order, the runes
    that the next [n] draws select, and leaves the rest of the slice. *)
Lemma generateRandomString_loop_seq vs : ∀ k s w,
  Forall (fun v => 0 <= v < 64) vs → draws_are vs w →
  (k + length vs <= length s)%nat →
  generateRandomString_loop (seq k (length vs)) s w =
  (Ok (take k s ++ (pick <$> vs) ++ drop (k + length vs) s)%list,
   set_rand_pos (rand_pos w + length vs) w).
Proof.
  induction vs as [|v vs IH]; intros k s w Hr Hd Hlen.
  - simpl. unfold ret. rewrite !Nat.add_0_r, take_drop.
    destruct w; reflexivity.
  - apply Forall_cons in Hr as [Hv Hr].
    apply draws_are_cons in Hd as [Hd0 Hd]. simpl in Hlen.
    cbn [length seq generateRandomString_loop].
    erewrite bind_Ok by apply rand_Int_alphabet.
    rewrite Hd0. cbn [fst].
    erewrite bind_Ok by (apply Int64_small; exact Hv).
    erewrite bind_Ok by (apply index_rune_pick; exact Hv).
    rewrite IH; [|exact Hr|exact Hd|rewrite length_insert; lia].
    f_equal.
    + f_equal.
      rewrite (take_S_r _ _ (pick v))
        by (apply list_lookup_insert_eq; lia).
      rewrite take_insert_ge by lia.
      rewrite drop_insert_lt by lia.
      rewrite <- app_assoc. simpl.
      replace (S (k + length vs)) with (k + S (length vs))%nat by lia.
      reflexivity.
    + unfold set_rand_pos. simpl. f_equal. lia.
Qed.

Lemma pick_lookup v :
  0 <= v < 64 → SLUG_ALPHABET !! Z.to_nat v = Some (pick v).
Proof.
  intros Hv. unfold pick.
  destruct (SLUG_ALPHABET !! Z.to_nat v) as [c|] eqn:E; [reflexivity|].
  apply lookup_ge_None in E. rewrite SLUG_ALPHABET_length in E. lia.
Qed.

(** Two draws in range that select the same rune are the same draw. *)
Lemma pick_inj v v' :
  0 <= v < 64 → 0 <= v' < 64 → pick v = pick v' → v = v'.
Proof.
  intros Hv Hv' H.
  pose proof (pick_lookup v Hv) as Hc.
  pose proof (pick_lookup v' Hv') as Hc'. rewrite <- H in Hc'.
  pose proof (NoDup_lookup _ _ _ _ SLUG_ALPHABET_NoDup Hc Hc'). lia.
Qed.

(** X1: [generateRandomString] with a negative length panics before any
    draw; with any other length, a string that is returned has exactly
    that length over the alphabet, has cost exactly one draw per
    character, and the call has changed nothing else in the world (it
    never touches the store). *)
Theorem generateRandomString_any_length (len : Z) (w : World) :
  (len < 0 →
   generateRandomString len w = (Panic "makeslice: len out of range", w)) ∧
  (len = 0 → generateRandomString len w = (Ok "", w)) ∧
  (∀ s w', generateRandomString len w = (Ok s, w') →
     0 <= len ∧ String.length s = Z.to_nat len ∧ in_alphabet s ∧
     rand_pos w' = (rand_pos w + Z.to_nat len)%nat ∧
     docs w' = docs w ∧ db_calls w' = db_calls w ∧
     ttl_index w' = ttl_index w).
Proof.
  split; [|split].
  - intros Hneg. unfold generateRandomString, make_runes.
    assert ((len <? 0) = true) as -> by lia. reflexivity.
  - intros ->. destruct w; reflexivity.
  - intros s w' H.
    apply generateRandomString_Ok in H as (Hlen & Hl & Ha & ->).
    repeat split; assumption || reflexivity || lia.
Qed.

Lemma generateRandomString_any_length_witness :
  generateRandomString (-3) w_taken =
    (Panic "makeslice: len out of range", w_taken) ∧
  (0 <= 5 ∧ String.length "aaaaa" = Z.to_nat 5 ∧ in_alphabet "aaaaa" ∧
   rand_pos (drawn w_taken) = (rand_pos w_taken + Z.to_nat 5)%nat ∧
   docs (drawn w_taken) = docs w_taken ∧
   db_calls (drawn w_taken) = db_calls w_taken ∧
   ttl_index (drawn w_taken) = ttl_index w_taken).
Proof.
  split.
  - apply (proj1 (generateRandomString_any_length (-3) w_taken)). lia.
  - apply (proj2 (proj2 (generateRandomString_any_length 5 w_taken))
             "aaaaa" (drawn w_taken)).
    reflexivity.
Defined.

(** X2: the string that [generateRandomString] returns is, character by
    character, the alphabet indexed by the draws: with the draws [vs] in
    range it returns the runes they select, in the order drawn.  Different
    sequences of draws give different strings, so that every string over
    the alphabet comes from exactly one sequence of draws. *)
Theorem generateRandomString_follows_draws (vs : list Z) (w : World) :
  Forall (fun v => 0 <= v < 64) vs →
  (draws_are vs w →
   generateRandomString (Z.of_nat (length vs)) w =
   (Ok (string_of_list_ascii (pick <$> vs)),
    set_rand_pos (rand_pos w + length vs) w)) ∧
  (∀ vs', Forall (fun v => 0 <= v < 64) vs' →
     string_of_list_ascii (pick <$> vs) = string_of_list_ascii (pick <$> vs') →
     vs = vs').
Proof.
  intros Hr. split.
  - intros Hd. unfold generateRandomString, make_runes.
    assert ((Z.of_nat (length vs) <? 0) = false) as ->
      by (apply Z.ltb_ge; lia).
    erewrite bind_Ok by reflexivity.
    rewrite Nat2Z.id, length_replicate.
    erewrite bind_Ok.
    2:{ apply (generateRandomString_loop_seq vs 0); [exact Hr|exact Hd|].
        rewrite length_replicate. lia. }
    unfold ret. do 2 f_equal. simpl.
    rewrite drop_ge by (rewrite length_replicate; lia).
    rewrite app_nil_r. reflexivity.
  - intros vs' Hr' Heq.
    apply (f_equal list_ascii_of_string) in Heq.
    rewrite !list_ascii_of_string_of_list_ascii in Heq.
    revert vs' Hr' Heq. induction Hr as [|v vs Hv Hr IH];
      intros [|v' vs'] Hr' Heq; try discriminate; [reflexivity|].
    apply Forall_cons in Hr' as [Hv' Hr'].
    injection Heq as Hp Heq. f_equal.
    + apply pick_inj; assumption.
    + apply IH; assumption.
Qed.

Lemma generateRandomString_follows_draws_witness :
  generateRandomString (Z.of_nat (length [0; 26; 52; 62; 63])) w_spread
  = (Ok (string_of_list_ascii (pick <$> [0; 26; 52; 62; 63])),
     set_rand_pos (rand_pos w_spread + length [0; 26; 52; 62; 63]) w_spread)
  ∧ string_of_list_ascii (pick <$> [0; 26; 52; 62; 63]) = "aA1_-".
Proof.
  split; [|reflexivity].
  apply (proj1 (generateRandomString_follows_draws
                  [0; 26; 52; 62; 63] w_spread
                  ltac:(repeat constructor; lia))).
  intros i v Hv.
  do 5 (destruct i as [|i]; [injection Hv as <-; reflexivity|]).
  discriminate.
Defined.

(** The lookups of the loop that returns: all but the last found a
    document, and the last reported an error. *)
Lemma generateUniqueSlug_loop_trace s fuel : ∀ w w',
  generateUniqueSlug_loop fuel s None w = (Ok tt, w') →
  ∃ n, (n < fuel)%nat ∧ w' = ticks (S n) w ∧
       (∃ e, lookup s (ticks n w) = inr e) ∧
       ∀ j, (j < n)%nat → ∃ d, lookup s (ticks j w) = inl d.
Proof.
  induction fuel as [|fuel IH]; intros w w' H; [discriminate|].
  simpl in H. erewrite bind_Ok in H by apply FindOne_err_eq.
  destruct (lookup s w) as [d|e] eqn:Hl.
  - apply IH in H as (n & Hn & -> & He & Hj).
    exists (S n). split; [lia|]. split; [apply ticks_tick|].
    split; [rewrite <- ticks_tick; exact He|].
    intros [|j] Hlt.
    + rewrite ticks_0. eauto.
    + rewrite <- ticks_tick. apply Hj. lia.
  - destruct fuel; simpl in H; injection H as <-;
      (exists 0%nat; split; [lia|]; split; [apply tick_ticks_1|];
       split; [rewrite ticks_0; eauto|]; intros j Hj; lia).
Qed.

(** X3: when [generateUniqueSlug] returns, it returns the one candidate
    that it drew at the start; every lookup but the last found a document
    with that slug, the last lookup reported an error (no document, or a
    failure of the driver), and the collection is as it was. *)
Theorem generateUniqueSlug_returns_after_error
  (fuel : nat) (w : World) (s : string) (w' : World) :
  generateUniqueSlug fuel w = (Ok s, w') →
  generateRandomString 5 w = (Ok s, drawn w) ∧
  ∃ n, (n <= fuel)%nat ∧ w' = ticks (S n) (drawn w) ∧
       (∃ e, lookup s (ticks n (drawn w)) = inr e) ∧
       (∀ j, (j < n)%nat → ∃ d, lookup s (ticks j (drawn w)) = inl d) ∧
       docs w' = docs w.
Proof.
  unfold generateUniqueSlug. intros H.
  apply bind_Ok_inv in H as (s0 & w1 & Hs & H).
  pose proof Hs as Hw. apply generateRandomString_Ok in Hw as (_&_&_&->).
  change (set_rand_pos (rand_pos w + Z.to_nat 5) w) with (drawn w) in *.
  apply bind_Ok_inv in H as (err & w2 & He & H).
  rewrite FindOne_err_eq in He. injection He as <- <-.
  apply bind_Ok_inv in H as ([] & w3 & Hloop & H).
  unfold ret in H. injection H as <- <-.
  split; [exact Hs|].
  destruct (lookup s0 (drawn w)) as [d|e] eqn:Hl.
  - apply generateUniqueSlug_loop_trace in Hloop as (n & Hn & -> & He & Hj).
    exists (S n). split; [lia|]. split; [apply ticks_tick|].
    split; [rewrite <- ticks_tick; exact He|]. split; [|reflexivity].
    intros [|j] Hlt.
    + rewrite ticks_0. eauto.
    + rewrite <- ticks_tick. apply Hj. lia.
  - destruct fuel; simpl in Hloop; injection Hloop as <-;
      (exists 0%nat; split; [lia|]; split; [apply tick_ticks_1|];
       split; [rewrite ticks_0; eauto|]; split; [|reflexivity];
       intros j Hj; lia).
Qed.

Lemma generateUniqueSlug_returns_after_error_witness :
  generateRandomString 5 w_third_fails = (Ok "aaaaa", drawn w_third_fails) ∧
  ∃ n, (n <= 9)%nat ∧
       ticks 3 (drawn w_third_fails) = ticks (S n) (drawn w_third_fails) ∧
       (∃ e, lookup "aaaaa" (ticks n (drawn w_third_fails)) = inr e) ∧
       (∀ j, (j < n)%nat →
          ∃ d, lookup "aaaaa" (ticks j (drawn w_third_fails)) = inl d) ∧
       docs (ticks 3 (drawn w_third_fails)) = docs w_third_fails.
Proof.
  apply (generateUniqueSlug_returns_after_error 9 w_third_fails "aaaaa"
           (ticks 3 (drawn w_third_fails))).
  reflexivity.
Defined.

(** ** What the code does to the store *)

Section Frame.
Context {R : World → World → Prop}.
Hypothesis R_refl : ∀ w, R w w.
Hypothesis R_trans : ∀ w1 w2 w3, R w1 w2 → R w2 w3 → R w1 w3.

Lemma preserves_ret {A} (a : A) : preserves R (ret a).
Proof. intros w r w' [= <- <-]. apply R_refl. Qed.

Lemma preserves_fail {A} (r : Result A) : preserves R (fun w => (r, w)).
Proof. intros w r' w' [= <- <-]. apply R_refl. Qed.

Lemma preserves_bind {A B} (m : M A) (k : A → M B) :
  preserves R m → (∀ a, preserves R (k a)) → preserves R (bind m k).
Proof.
  intros Hm Hk w r w'. unfold bind.
  destruct (m w) as [[a|msg|msg|] w1] eqn:E; intros H.
  - eapply R_trans; [eapply Hm, E|eapply Hk, H].
  - injection H as <- <-. eapply Hm, E.
  - injection H as <- <-. eapply Hm, E.
  - injection H as <- <-. eapply Hm, E.
Qed.
End Frame.

Lemma same_store_refl w : same_store w w.
Proof. split; reflexivity. Qed.

Lemma same_store_trans w1 w2 w3 :
  same_store w1 w2 → same_store w2 w3 → same_store w1 w3.
Proof. intros [H1 H2] [H3 H4]. split; congruence. Qed.

Lemma grown_refl w : grown_by_one w w.
Proof. exists []. split; [symmetry; apply app_nil_r|simpl; lia]. Qed.

Lemma same_store_grown w w' : same_store w w' → grown_by_one w w'.
Proof.
  intros [H _]. exists []. rewrite H.
  split; [symmetry; apply app_nil_r|simpl; lia].
Qed.

Lemma generateRandomString_loop_same idxs : ∀ s,
  preserves same_store (generateRandomString_loop idxs s).
Proof.
  induction idxs as [|i rest IH]; intros s.
  - apply (preserves_ret same_store_refl).
  - simpl.
    apply (preserves_bind same_store_trans).
    { intros w r w' H. unfold rand_Int in H.
      destruct (_ <=? 0); [injection H as <- <-; apply same_store_refl|].
      destruct (rand_reader w (rand_pos w)); injection H as <- <-;
        split; reflexivity. }
    intros r. apply (preserves_bind same_store_trans).
    { destruct (fst r); [apply (preserves_ret same_store_refl)
                        |apply (preserves_fail same_store_refl)]. }
    intros n. apply (preserves_bind same_store_trans); [|intros c; apply IH].
    intros w r' w' H.
    destruct (index_rune_cases SLUG_ALPHABET n w) as [(c & Hc)|Hc];
      rewrite Hc in H; injection H as <- <-; apply same_store_refl.
Qed.

Lemma generateRandomString_same len :
  preserves same_store (generateRandomString len).
Proof.
  unfold generateRandomString.
  apply (preserves_bind same_store_trans).
  { unfold make_runes. destruct (len <? 0);
      [apply (preserves_fail same_store_refl)
      |apply (preserves_ret same_store_refl)]. }
  intros s. apply (preserves_bind same_store_trans).
  - apply generateRandomString_loop_same.
  - intros s'. apply (preserves_ret same_store_refl).
Qed.

Lemma FindOne_err_same s : preserves same_store (FindOne_err s).
Proof.
  intros w r w' H. rewrite FindOne_err_eq in H. injection H as <- <-.
  split; reflexivity.
Qed.

Lemma generateUniqueSlug_loop_same s fuel : ∀ err,
  preserves same_store (generateUniqueSlug_loop fuel s err).
Proof.
  induction fuel as [|fuel IH]; intros [e|]; simpl.
  - apply (preserves_ret same_store_refl).
  - apply (preserves_fail same_store_refl).
  - apply (preserves_ret same_store_refl).
  - apply (preserves_bind same_store_trans); [apply FindOne_err_same|].
    intros err. apply IH.
Qed.

Lemma generateUniqueSlug_same fuel :
  preserves same_store (generateUniqueSlug fuel).
Proof.
  unfold generateUniqueSlug.
  apply (preserves_bind same_store_trans);
    [apply generateRandomString_same|intros s].
  apply (preserves_bind same_store_trans);
    [apply FindOne_err_same|intros err].
  apply (preserves_bind same_store_trans);
    [apply generateUniqueSlug_loop_same|intros _].
  apply (preserves_ret same_store_refl).
Qed.

Lemma grown_trans_same_l w1 w2 w3 :
  same_store w1 w2 → grown_by_one w2 w3 → grown_by_one w1 w3.
Proof. intros [H _] (l & Hl & Hn). exists l. rewrite Hl, H. auto. Qed.

Lemma grown_trans_same_r w1 w2 w3 :
  grown_by_one w1 w2 → docs w3 = docs w2 → grown_by_one w1 w3.
Proof. intros (l & Hl & Hn) H. exists l. rewrite H, Hl. auto. Qed.

Lemma insertSlugURLPair_grows fuel target retention :
  preserves grown_by_one (insertSlugURLPair fuel target retention).
Proof.
  intros w r w'. unfold insertSlugURLPair, bind.
  destruct (generateUniqueSlug fuel w) as [[s|msg|msg|] w1] eqn:Hs;
    pose proof (generateUniqueSlug_same fuel w _ _ Hs) as Hsame;
    try (intros [= <- <-]; apply same_store_grown; exact Hsame).
  unfold time_Now. rewrite InsertOne_eq.
  destruct (db_fault w1 (db_calls w1)).
  { intros [= <- <-]. apply same_store_grown.
    destruct Hsame; split; assumption. }
  rewrite createTTLIndex_eq. simpl.
  assert (grown_by_one w
            (set_db (docs w1 ++ [bson_doc (pair_of s target retention w1)])
               (ttl_index w1) (S (db_calls w1)) w1)) as Hg.
  { eapply grown_trans_same_l; [exact Hsame|].
    eexists. split; [reflexivity|simpl; lia]. }
  destruct (db_fault w1 (S (db_calls w1))); intros [= <- <-];
    (eapply grown_trans_same_r; [exact Hg|reflexivity]).
Qed.

(** X4: whatever a request does (answer, panic, exit, or loop), the
    creation handlers of the three programs leave every document that was
    in the collection in place and in order, and add at most one; the
    redirect handler leaves the collection as it was. *)
Theorem handlers_only_append (fuel : nat) (c : Ctx) :
  preserves grown_by_one (Main1.post_createSlugURLPair fuel c) ∧
  preserves grown_by_one (Main2.post_createSlugURLPair fuel c) ∧
  preserves grown_by_one (Part000.post_createSlugURLPair fuel c) ∧
  preserves same_store (get_slug c).
Proof.
  assert (∀ r : Response, preserves grown_by_one (ret r)) as Hret.
  { intros r. apply (preserves_ret grown_refl). }
  split; [|split; [|split]].
  - unfold Main1.post_createSlugURLPair.
    destruct (BodyParser c _) as [bodyUrl [e|]]; [apply Hret|].
    destruct (url.Parse _); [apply insertSlugURLPair_grows|apply Hret].
  - unfold Main2.post_createSlugURLPair.
    destruct (BodyParser c _) as [u [e|]]; [apply Hret|].
    intros w r w'. unfold bind, Main2.assertProtocol.
    destruct (url.Parse _); [|intros [= <- <-]; apply grown_refl].
    unfold ret, isValidURL.
    destruct (http_get w _) as [code|]; [destruct (200 <=? code)|]; simpl;
      try (intros [= <- <-]; apply grown_refl).
    apply insertSlugURLPair_grows.
  - unfold Part000.post_createSlugURLPair.
    destruct (BodyParser c _) as [u [e|]]; [apply Hret|].
    unfold Part000.assertProtocol.
    destruct (url.Parse _); [|apply Hret].
    intros w r w'. unfold bind, isValidURL.
    destruct (http_get w _) as [code|]; [destruct (200 <=? code)|]; simpl;
      try (intros [= <- <-]; apply grown_refl).
    apply insertSlugURLPair_grows.
  - intros w r w' H. unfold get_slug in H.
    erewrite bind_Ok in H by apply FindOne_eq.
    destruct (lookup _ w); injection H as <- <-; split; reflexivity.
Qed.

Lemma handlers_only_append_witness :
  grown_by_one w_index_fails
    (set_db [example_pair] false 3 (drawn w_index_fails)).
Proof.
  apply (proj1 (proj2 (proj2 (handlers_only_append 0
                                (post (Some "example.com")))))
           w_index_fails (Panic "connection reset by peer")).
  reflexivity.
Defined.

(** ** [createTTLIndex] and the persistence of a pair *)

(** X5: [createTTLIndex] never returns a non-nil error.  When the driver
    accepts the call it returns nil, the index exists and the documents
    are untouched; when the driver fails it panics ([log.Panic]) with the
    driver's error, so that the [log.Fatal] its callers keep for a
    returned error is never reached.  Creating the index again changes
    nothing in the store. *)
Theorem createTTLIndex_nil_or_panic (w : World) :
  (∀ err w', createTTLIndex w = (Ok err, w') →
     err = None ∧ db_fault w (db_calls w) = None ∧
     ttl_index w' = true ∧ docs w' = docs w) ∧
  (∀ msg, db_fault w (db_calls w) = Some msg →
     createTTLIndex w = (Panic msg, tick w)) ∧
  (∀ msg w', createTTLIndex w ≠ (Fatal msg, w')) ∧
  (db_fault w (db_calls w) = None → db_fault w (S (db_calls w)) = None →
   ∃ w1 w2, createTTLIndex w = (Ok None, w1) ∧
            createTTLIndex w1 = (Ok None, w2) ∧
            docs w2 = docs w1 ∧ ttl_index w2 = ttl_index w1).
Proof.
  rewrite createTTLIndex_eq.
  destruct (db_fault w (db_calls w)) as [m|] eqn:Hf.
  - split; [intros err w' [=]|]. split; [intros msg [= <-]; reflexivity|].
    split; [intros msg w' [=]|]. intros [=].
  - split; [intros err w' [= <- <-]; repeat split|].
    split; [intros msg [=]|]. split; [intros msg w' [=]|].
    intros _ Hf2. eexists _, _. split; [reflexivity|].
    rewrite createTTLIndex_eq. simpl. rewrite Hf2.
    split; [reflexivity|]. split; reflexivity.
Qed.

Lemma createTTLIndex_nil_or_panic_witness :
  createTTLIndex w_flaky = (Panic "connection reset by peer", tick w_flaky) ∧
  ∃ w1 w2, createTTLIndex w_taken = (Ok None, w1) ∧
           createTTLIndex w1 = (Ok None, w2) ∧
           docs w2 = docs w1 ∧ ttl_index w2 = ttl_index w1.
Proof.
  split.
  - apply (proj1 (proj2 (createTTLIndex_nil_or_panic w_flaky))).
    reflexivity.
  - apply (proj2 (proj2 (proj2 (createTTLIndex_nil_or_panic w_taken))));
      reflexivity.
Defined.

(** X6: once a slug has been chosen, the rest of the creation handler
    has three outcomes.  If the insert fails the process exits
    ([log.Fatal]) and nothing has been stored.  If the insert succeeds and
    the creation of the index fails the handler panics, after the pair has
    been stored: the mapping exists although no response was sent.
    Otherwise it answers 200 with the stored pair, and the index exists. *)
Theorem insertSlugURLPair_outcomes
  (fuel : nat) (target : string) (retention : Z) (w : World)
  (s : string) (w1 : World) :
  generateUniqueSlug fuel w = (Ok s, w1) →
  (∀ msg, db_fault w1 (db_calls w1) = Some msg →
     insertSlugURLPair fuel target retention w = (Fatal msg, tick w1) ∧
     docs (tick w1) = docs w) ∧
  (∀ msg, db_fault w1 (db_calls w1) = None →
     db_fault w1 (S (db_calls w1)) = Some msg →
     ∃ w', insertSlugURLPair fuel target retention w = (Panic msg, w') ∧
           docs w' = (docs w ++ [bson_doc (pair_of s target retention w1)])%list) ∧
  (db_fault w1 (db_calls w1) = None →
   db_fault w1 (S (db_calls w1)) = None →
   ∃ w', insertSlugURLPair fuel target retention w
         = (Ok (created (pair_of s target retention w1)), w') ∧
         docs w' = (docs w ++ [bson_doc (pair_of s target retention w1)])%list ∧
         ttl_index w' = true).
Proof.
  intros Hs.
  pose proof (generateUniqueSlug_same fuel w _ _ Hs) as [Hd _].
  unfold insertSlugURLPair.
  erewrite bind_Ok by exact Hs.
  erewrite bind_Ok by reflexivity.
  split; [|split].
  - intros msg Hf.
    erewrite bind_Ok by (rewrite InsertOne_eq, Hf; reflexivity).
    split; [reflexivity|exact Hd].
  - intros msg Hf1 Hf2.
    erewrite bind_Ok by (rewrite InsertOne_eq, Hf1; reflexivity).
    eexists. split.
    + erewrite bind_Panic; [reflexivity|].
      rewrite createTTLIndex_eq. simpl. rewrite Hf2. reflexivity.
    + simpl. rewrite Hd. reflexivity.
  - intros Hf1 Hf2.
    erewrite bind_Ok by (rewrite InsertOne_eq, Hf1; reflexivity).
    eexists. split.
    + erewrite bind_Ok
        by (rewrite createTTLIndex_eq; simpl; rewrite Hf2; reflexivity).
      reflexivity.
    + simpl. rewrite Hd. split; reflexivity.
Qed.

Lemma insertSlugURLPair_outcomes_witness :
  (insertSlugURLPair 0 "https://example.com" (Hour * 24 * 5) w_insert_fails
   = (Fatal "connection reset by peer", tick (tick (drawn w_insert_fails))) ∧
   docs (tick (tick (drawn w_insert_fails))) = docs w_insert_fails) ∧
  (∃ w', insertSlugURLPair 0 "https://example.com" (Hour * 24 * 5)
           w_index_fails = (Panic "connection reset by peer", w') ∧
         docs w' = (docs w_index_fails ++
                    [pair_of "aaaaa" "https://example.com" (Hour * 24 * 5)
                       (tick (drawn w_index_fails))])%list).
Proof.
  split.
  - apply (proj1 (insertSlugURLPair_outcomes 0 "https://example.com"
                    (Hour * 24 * 5) w_insert_fails "aaaaa"
                    (tick (drawn w_insert_fails)) eq_refl)).
    reflexivity.
  - apply (proj1 (proj2 (insertSlugURLPair_outcomes 0 "https://example.com"
                    (Hour * 24 * 5) w_index_fails "aaaaa"
                    (tick (drawn w_index_fails)) eq_refl)));
      reflexivity.
Defined.

(** ** What the creation handlers decide *)

Lemma Main1_post_eq fuel c w :
  Main1.post_createSlugURLPair fuel c w =
  match Body c with
  | Malformed e => (Ok (body_error e), w)
  | Object _ =>
      match url.Parse (submitted c) with
      | inr e => (Ok (invalid_url_with e), w)
      | inl u =>
          insertSlugURLPair fuel (url.String (default_http u))
            (Hour * 24 * 5) w
      end
  end.
Proof.
  unfold Main1.post_createSlugURLPair, submitted, BodyParser.
  destruct (Body c) as [e|[v|]]; run_body; [reflexivity| |];
    destruct (url.Parse _); reflexivity.
Qed.

Lemma Main2_post_eq fuel c w :
  Main2.post_createSlugURLPair fuel c w =
  match Body c with
  | Malformed e => (Ok (body_error e), w)
  | Object _ =>
      match url.Parse (submitted c) with
      | inr e =>
          (Panic "invalid memory address or nil pointer dereference", w)
      | inl u =>
          match http_get w (url.String (force_https u)) with
          | Some code =>
              if 200 <=? code
              then insertSlugURLPair fuel (url.String (force_https u))
                     (Minute * 5) w
              else (Ok invalid_url, w)
          | None => (Ok invalid_url, w)
          end
      end
  end.
Proof.
  unfold Main2.post_createSlugURLPair, submitted, BodyParser.
  destruct (Body c) as [e|[v|]]; run_body; [reflexivity| |];
    unfold bind, Main2.assertProtocol;
    (destruct (url.Parse _) as [u|e]; [|reflexivity]);
    unfold ret, isValidURL; fold (force_https u);
    (destruct (http_get w _) as [code|]; [|reflexivity]);
    destruct (200 <=? code); reflexivity.
Qed.

Lemma Part000_post_eq fuel c w :
  Part000.post_createSlugURLPair fuel c w =
  match Body c with
  | Malformed e => (Ok (body_error e), w)
  | Object _ =>
      match url.Parse (submitted c) with
      | inr e => (Ok invalid_url, w)
      | inl u =>
          match http_get w (url.String (force_https u)) with
          | Some code =>
              if 200 <=? code
              then insertSlugURLPair fuel (url.String (force_https u))
                     (Hour * 24 * 5) w
              else (Ok invalid_url, w)
          | None => (Ok invalid_url, w)
          end
      end
  end.
Proof.
  unfold Part000.post_createSlugURLPair, submitted, BodyParser.
  destruct (Body c) as [e|[v|]]; run_body; [reflexivity| |];
    unfold Part000.assertProtocol;
    (destruct (url.Parse _) as [u|e]; [|reflexivity]);
    unfold bind, isValidURL; fold (force_https u);
    (destruct (http_get w _) as [code|]; [|reflexivity]);
    destruct (200 <=? code); reflexivity.
Qed.

(** X7: a creation handler that answers, answers 200 or 400.  With 200
    exactly one pair, the one in the response, has been appended to the
    collection and the TTL index exists; with 400 the world is exactly as
    it was: nothing was drawn, looked up or stored. *)
Theorem post_answers_200_or_400
  (fuel : nat) (c : Ctx) (w : World) (resp : Response) (w' : World) :
  Main1.post_createSlugURLPair fuel c w = (Ok resp, w') ∨
  Main2.post_createSlugURLPair fuel c w = (Ok resp, w') ∨
  Part000.post_createSlugURLPair fuel c w = (Ok resp, w') →
  (StatusCode resp = 200 ∧
   ∃ p, resp = created p ∧ docs w' = (docs w ++ [bson_doc p])%list ∧
        ttl_index w' = true) ∨
  (StatusCode resp = 400 ∧ w' = w).
Proof.
  assert (∀ target retention,
            insertSlugURLPair fuel target retention w = (Ok resp, w') →
            StatusCode resp = 200 ∧
            ∃ p, resp = created p ∧ docs w' = (docs w ++ [bson_doc p])%list ∧
                 ttl_index w' = true) as Hins.
  { intros target retention H.
    apply insertSlugURLPair_Ok in H as (s & w1 & Hs & -> & ->).
    split; [reflexivity|]. eexists. split; [reflexivity|].
    destruct (generateUniqueSlug_same fuel w _ _ Hs) as [Hd _].
    simpl. rewrite Hd. split; reflexivity. }
  rewrite Main1_post_eq, Main2_post_eq, Part000_post_eq.
  intros [H|[H|H]]; destruct (Body c) as [e|o];
    try (injection H as <- <-; right; split; reflexivity);
    destruct (url.Parse (submitted c)) as [u|e];
    try (injection H as <- <-; right; split; reflexivity);
    try discriminate;
    try (left; eapply Hins; exact H);
    (destruct (http_get w _) as [code|]; [destruct (200 <=? code)|]);
    try (injection H as <- <-; right; split; reflexivity);
    left; eapply Hins; exact H.
Qed.

Lemma post_answers_200_or_400_witness :
  (StatusCode invalid_url = 200 ∧
   ∃ p, invalid_url = created p ∧
        docs w_taken = (docs w_taken ++ [bson_doc p])%list ∧
        ttl_index w_taken = true) ∨
  (StatusCode invalid_url = 400 ∧ w_taken = w_taken).
Proof.
  apply (post_answers_200_or_400 3 (post (Some "mailto:a@b.c")) w_taken
           invalid_url w_taken).
  right. right. reflexivity.
Defined.

(** X8: a target that [url.Parse] rejects is never stored, but the three
    programs answer differently: the first program of [main.go] answers
    400 with the parse error and the message [Invalid URL.];
    [part_000] answers 400 with the message [Invalid URL]; the second
    program of [main.go], which drops the error and reads the scheme of
    the nil URL, panics.  The world is left as it was in each case. *)
Theorem post_unparseable_target
  (fuel : nat) (c : Ctx) (w : World) (o : option string) (e : url.Error) :
  Body c = Object o →
  url.Parse (submitted c) = inr e →
  Main1.post_createSlugURLPair fuel c w = (Ok (invalid_url_with e), w) ∧
  Part000.post_createSlugURLPair fuel c w = (Ok invalid_url, w) ∧
  Main2.post_createSlugURLPair fuel c w =
    (Panic "invalid memory address or nil pointer dereference", w) ∧
  StatusCode (invalid_url_with e) = 400 ∧ StatusCode invalid_url = 400.
Proof.
  intros Hb Hp.
  rewrite Main1_post_eq, Main2_post_eq, Part000_post_eq, Hb, Hp.
  repeat split.
Qed.

Lemma post_unparseable_target_witness :
  Main1.post_createSlugURLPair 2 (post (Some "http://a b.com/")) w_taken =
    (Ok (invalid_url_with (url.InvalidHostError " ")), w_taken) ∧
  Part000.post_createSlugURLPair 2 (post (Some "http://a b.com/")) w_taken =
    (Ok invalid_url, w_taken) ∧
  Main2.post_createSlugURLPair 2 (post (Some "http://a b.com/")) w_taken =
    (Panic "invalid memory address or nil pointer dereference", w_taken) ∧
  StatusCode (invalid_url_with (url.InvalidHostError " ")) = 400 ∧
  StatusCode invalid_url = 400.
Proof.
  apply (post_unparseable_target 2 (post (Some "http://a b.com/")) w_taken
           (Some "http://a b.com/") (url.InvalidHostError " "));
    reflexivity.
Defined.

(** X9: in the two programs with [isValidURL], a target that parses is
    accepted exactly when [http.Get] on the normalised target returns a
    response with a status of 200 or more.  A transport error or a status
    below 200 gives 400 [Invalid URL] with the world unchanged; any other
    status, 404 and 500 included, lets the request go on to the
    generation of the slug and the insertion. *)
Theorem post_accepts_any_status_from_200
  (fuel : nat) (c : Ctx) (w : World) (o : option string) (u : url.URL) :
  Body c = Object o →
  url.Parse (submitted c) = inl u →
  (∀ code, http_get w (url.String (force_https u)) = Some code →
     200 <= code →
     Main2.post_createSlugURLPair fuel c w =
       insertSlugURLPair fuel (url.String (force_https u)) (Minute * 5) w ∧
     Part000.post_createSlugURLPair fuel c w =
       insertSlugURLPair fuel (url.String (force_https u))
         (Hour * 24 * 5) w) ∧
  (http_get w (url.String (force_https u)) = None ∨
   (∃ code, http_get w (url.String (force_https u)) = Some code ∧
            code < 200) →
   Main2.post_createSlugURLPair fuel c w = (Ok invalid_url, w) ∧
   Part000.post_createSlugURLPair fuel c w = (Ok invalid_url, w)).
Proof.
  intros Hb Hp. rewrite Main2_post_eq, Part000_post_eq, Hb, Hp. split.
  - intros code -> Hcode.
    assert ((200 <=? code) = true) as -> by (apply Z.leb_le; exact Hcode).
    split; reflexivity.
  - intros [->|(code & -> & Hcode)]; [split; reflexivity|].
    assert ((200 <=? code) = false) as -> by (apply Z.leb_gt; exact Hcode).
    split; reflexivity.
Qed.

Lemma post_accepts_any_status_from_200_witness :
  Part000.post_createSlugURLPair 0 (post (Some "example.com")) w_all_404
  = (Ok (created example_pair), after_create example_pair w_all_404).
Proof.
  refine (eq_trans
            (proj2 (proj1 (post_accepts_any_status_from_200 0
                             (post (Some "example.com")) w_all_404
                             (Some "example.com")
                             (url.set_Path "example.com" "" url.zero)
                             eq_refl eq_refl)
                      404 eq_refl _)) _).
  - lia.
  - reflexivity.
Defined.

(** ** The normalisation of plain targets *)

Lemma plain_byte_facts (c : ascii) :
  plain_byte c = true →
  ((N_of_ascii c <? 32)%N || (N_of_ascii c =? 127)%N = false) ∧
  url.shouldEscape c url.encodePath = false ∧
  Ascii.eqb c "%" = false ∧ Ascii.eqb c "+" = false ∧
  Ascii.eqb c ":" = false ∧ Ascii.eqb c "#" = false ∧
  Ascii.eqb c "?" = false ∧ Ascii.eqb c "*" = false.
Proof.
  destruct c as [[] [] [] [] [] [] [] []]; vm_compute;
    intros H; try discriminate H; repeat split.
Qed.

Lemma all_bytes_cons P c s :
  all_bytes P (String c s) = true → P c = true ∧ all_bytes P s = true.
Proof. simpl. intros H. apply andb_true_iff in H. exact H. Qed.

Lemma plain_IndexByte (s : string) (c : ascii) :
  all_bytes plain_byte s = true → plain_byte c = false →
  strings.IndexByte s c = None.
Proof.
  intros Hs Hc. induction s as [|a s IH]; [reflexivity|].
  apply all_bytes_cons in Hs as [Ha Hs]. simpl.
  destruct (Ascii.eqb_spec a c) as [->|_]; [congruence|].
  rewrite (IH Hs). reflexivity.
Qed.

Lemma plain_Cut (s : string) (c : ascii) :
  all_bytes plain_byte s = true → plain_byte c = false →
  strings.Cut s c = (s, "", false).
Proof.
  intros Hs Hc. unfold strings.Cut. rewrite plain_IndexByte by assumption.
  reflexivity.
Qed.

Lemma plain_CountByte (s : string) (c : ascii) :
  all_bytes plain_byte s = true → plain_byte c = false →
  strings.CountByte s c = 0%nat.
Proof.
  intros Hs Hc. induction s as [|a s IH]; [reflexivity|].
  apply all_bytes_cons in Hs as [Ha Hs]. simpl.
  destruct (Ascii.eqb_spec a c) as [->|_]; [congruence|].
  rewrite (IH Hs). reflexivity.
Qed.

Lemma plain_no_CTL (s : string) :
  all_bytes plain_byte s = true → url.stringContainsCTLByte s = false.
Proof.
  induction s as [|a s IH]; [reflexivity|]. intros Hs.
  apply all_bytes_cons in Hs as [Ha Hs]. simpl.
  destruct (plain_byte_facts a Ha) as (-> & _). simpl. auto.
Qed.

(** A string of plain bytes has no scheme. *)
Lemma plain_getScheme (raw s : string) : ∀ i,
  all_bytes plain_byte s = true →
  url.getScheme_from i raw s = inl ("", raw).
Proof.
  induction s as [|a s IH]; intros i Hs; [reflexivity|].
  apply all_bytes_cons in Hs as [Ha Hs]. simpl.
  destruct (plain_byte_facts a Ha) as (_ & _ & _ & _ & -> & _).
  rewrite !IH by exact Hs.
  destruct (url.isalpha a); [reflexivity|].
  destruct (url.isdigit a || url.oneof a "+-."); [|reflexivity].
  destruct (Nat.eqb i 0); reflexivity.
Qed.

(** Plain bytes are neither escapes nor bytes to escape. *)
Lemma plain_unescape (s : string) :
  all_bytes plain_byte s = true →
  url.unescape s url.encodePath = inl s ∧ url.escape s url.encodePath = s.
Proof.
  intros Hs.
  assert (url.unescape_check s url.encodePath = None ∧
          url.unescape_decode s url.encodePath = s ∧
          url.escape s url.encodePath = s) as (H1 & H2 & H3).
  { induction s as [|a s IH]; [repeat split|].
    apply all_bytes_cons in Hs as [Ha Hs].
    destruct (IH Hs) as (I1 & I2 & I3).
    destruct (plain_byte_facts a Ha) as (_ & Hesc & Hpct & Hplus & _).
    simpl. rewrite Hesc, Hpct, Hplus, I1, I2, I3. repeat split. }
  unfold url.unescape. rewrite H1, H2. split; [reflexivity|exact H3].
Qed.

Lemma append_nil_r (s : string) : s +:+ "" = s.
Proof.
  induction s as [|a s IH]; [reflexivity|].
  change (String a (s +:+ "") = String a s). f_equal. exact IH.
Qed.

Lemma all_bytes_upto P (s : string) : ∀ i,
  all_bytes P s = true → all_bytes P (strings.upto i s) = true.
Proof.
  unfold strings.upto.
  induction s as [|a s IH]; intros [|i] Hs; try reflexivity.
  apply all_bytes_cons in Hs as [Ha Hs]. simpl.
  rewrite Ha. simpl. apply IH. exact Hs.
Qed.

Lemma plain_first_segment (s : string) :
  all_bytes plain_byte s = true →
  strings.ContainsByte (fst (fst (strings.Cut s "/"))) ":" = false.
Proof.
  intros Hs. unfold strings.ContainsByte, strings.Cut.
  destruct (strings.IndexByte s "/") as [i|]; simpl.
  - rewrite plain_IndexByte; [reflexivity| |reflexivity].
    apply all_bytes_upto. exact Hs.
  - rewrite plain_IndexByte; [reflexivity|exact Hs|reflexivity].
Qed.

Lemma no_slash_no_slashes (s : string) :
  strings.HasPrefix s "/" = false → strings.HasPrefix s "//" = false.
Proof.
  unfold strings.HasPrefix. destruct s as [|a s]; [reflexivity|].
  cbn [String.prefix].
  destruct (ascii_dec "/" a); [|reflexivity].
  intros H. destruct s; discriminate H.
Qed.

(** A target of plain bytes that does not begin with a slash parses as a
    URL that is all path. *)
Lemma Parse_plain (s : string) :
  all_bytes plain_byte s = true → s ≠ "" →
  strings.HasPrefix s "/" = false →
  url.Parse s = inl (url.set_Path s "" url.zero).
Proof.
  intros Hs Hne Hslash.
  destruct s as [|a s]; [contradiction|].
  pose proof (all_bytes_cons _ _ _ Hs) as [Ha _].
  destruct (plain_byte_facts a Ha) as (_ & _ & _ & _ & _ & _ & _ & Hstar).
  unfold url.Parse. rewrite (plain_Cut _ "#" Hs eq_refl).
  unfold url.parse. rewrite (plain_no_CTL _ Hs).
  assert (String.eqb (String a s) "*" = false) as ->.
  { simpl. rewrite Hstar. reflexivity. }
  cbn [String.eqb andb].
  unfold url.getScheme. rewrite (plain_getScheme _ _ 0 Hs).
  rewrite (plain_CountByte _ "?" Hs eq_refl), andb_false_r.
  rewrite (plain_Cut _ "?" Hs eq_refl).
  rewrite Hslash. cbn -[strings.HasPrefix strings.Cut url.setPath].
  rewrite (plain_first_segment _ Hs).
  rewrite (no_slash_no_slashes _ Hslash), andb_false_r.
  unfold url.setPath.
  destruct (plain_unescape _ Hs) as [-> ->].
  rewrite String.eqb_refl. reflexivity.
Qed.

(** Written out with the scheme [scheme], a URL that is all path is the
    scheme, [://] and the path. *)
Lemma String_plain (scheme s : string) :
  all_bytes plain_byte s = true → s ≠ "" → scheme ≠ "" →
  url.String (url.set_Scheme scheme (url.set_Path s "" url.zero)) =
  scheme +:+ "://" +:+ s.
Proof.
  intros Hs Hne Hsch.
  destruct s as [|a s]; [contradiction|].
  pose proof (all_bytes_cons _ _ _ Hs) as [Ha _].
  destruct (plain_byte_facts a Ha) as (_ & _ & _ & _ & _ & _ & _ & Hstar).
  unfold url.String, url.String_rest, url.String_authority, url.EscapedPath,
    url.nonempty.
  cbn [url.Scheme url.Opaque url.User url.Host url.Path url.RawPath
       url.OmitHost url.ForceQuery url.RawQuery url.Fragment
       url.set_Scheme url.set_Path url.zero url.is_Some'].
  destruct (String.eqb_spec scheme ""); [contradiction|].
  assert (String.eqb (String a s) "*" = false) as ->.
  { simpl. rewrite Hstar. reflexivity. }
  cbn [String.eqb negb andb orb].
  destruct (plain_unescape _ Hs) as [_ ->].
  rewrite andb_false_r, (plain_first_segment _ Hs), andb_false_r.
  rewrite !append_nil_r, !append_assoc. reflexivity.
Qed.

(** X10: a non-empty target made of letters, digits and [-._~/] that
    does not begin with a slash (a bare host name such as [example.com],
    with or without a path) is normalised by putting the default scheme
    and [://] in front of it, and nothing else is changed: [https://] by
    [assertProtocol], [http://] by the first program of [main.go]. *)
Theorem plain_target_gets_default_scheme (s : string) :
  all_bytes plain_byte s = true → s ≠ "" →
  strings.HasPrefix s "/" = false →
  Part000.assertProtocol s = ("https://" +:+ s, None) ∧
  (∀ w, Main2.assertProtocol s w = (Ok ("https://" +:+ s), w)) ∧
  (∀ fuel c w, Body c = Object (Some s) →
     Main1.post_createSlugURLPair fuel c w =
     insertSlugURLPair fuel ("http://" +:+ s) (Hour * 24 * 5) w).
Proof.
  intros Hs Hne Hslash.
  pose proof (Parse_plain s Hs Hne Hslash) as Hp.
  pose proof (String_plain "https" s Hs Hne ltac:(discriminate)) as H1.
  pose proof (String_plain "http" s Hs Hne ltac:(discriminate)) as H2.
  split; [|split].
  - unfold Part000.assertProtocol. rewrite Hp. simpl. rewrite H1.
    reflexivity.
  - intros w. unfold Main2.assertProtocol. rewrite Hp. simpl. rewrite H1.
    reflexivity.
  - intros fuel c w Hb. rewrite Main1_post_eq, Hb.
    unfold submitted, BodyParser. rewrite Hb. cbn [fst Value].
    rewrite Hp. unfold default_http. simpl. rewrite H2. reflexivity.
Qed.

Lemma plain_target_gets_default_scheme_witness :
  Part000.assertProtocol "example.com/a/b"
  = ("https://" +:+ "example.com/a/b", None).
Proof.
  apply (proj1 (plain_target_gets_default_scheme "example.com/a/b"
                  eq_refl ltac:(discriminate) eq_refl)).
Defined.

(** X11: [assertProtocol] fails exactly when the target does not parse:
    [part_000] then returns the empty string with the error, and the
    second program of [main.go] panics.  Otherwise both return the same
    string, which begins with [http:] or [https:]; a target whose scheme
    is neither (another scheme, or none) comes back with the scheme
    [https] in place of its own and the rest of the URL as parsed. *)
Theorem assertProtocol_outcomes (s : string) :
  (∀ e, url.Parse s = inr e →
     Part000.assertProtocol s = ("", Some e) ∧
     ∀ w, Main2.assertProtocol s w =
          (Panic "invalid memory address or nil pointer dereference", w)) ∧
  (∀ u, url.Parse s = inl u →
     ∃ v, Part000.assertProtocol s = (v, None) ∧
          (∀ w, Main2.assertProtocol s w = (Ok v, w)) ∧
          (strings.HasPrefix v "http:" = true ∨
           strings.HasPrefix v "https:" = true) ∧
          (is_http_or_https (url.Scheme u) = false →
           v = url.String (url.set_Scheme "https" u) ∧
           strings.HasPrefix v "https:" = true)).
Proof.
  split.
  - intros e Hp. unfold Part000.assertProtocol, Main2.assertProtocol.
    rewrite Hp. split; reflexivity.
  - intros u Hp. exists (url.String (force_https u)).
    unfold Part000.assertProtocol, Main2.assertProtocol. rewrite Hp.
    fold (force_https u).
    split; [reflexivity|]. split; [reflexivity|].
    split; [apply http_or_https_prefix, force_https_Scheme|].
    intros Hs. unfold force_https. rewrite Hs. simpl.
    split; [reflexivity|].
    apply (String_scheme_prefix (url.set_Scheme "https" u)). discriminate.
Qed.

Lemma assertProtocol_outcomes_witness :
  (Part000.assertProtocol ":80" =
     ("", Some (url.ErrorString "missing protocol scheme")) ∧
   ∀ w, Main2.assertProtocol ":80" w =
        (Panic "invalid memory address or nil pointer dereference", w)) ∧
  ∃ v, Part000.assertProtocol "ftp://example.com/x?y#z" = (v, None) ∧
       (∀ w, Main2.assertProtocol "ftp://example.com/x?y#z" w = (Ok v, w)) ∧
       (strings.HasPrefix v "http:" = true ∨
        strings.HasPrefix v "https:" = true) ∧
       (is_http_or_https "ftp" = false →
        v = "https://example.com/x?y#z" ∧
        strings.HasPrefix v "https:" = true).
Proof.
  split.
  - apply (proj1 (assertProtocol_outcomes ":80")
             (url.ErrorString "missing protocol scheme")).
    reflexivity.
  - apply (proj2 (assertProtocol_outcomes "ftp://example.com/x?y#z")
             {| url.Scheme := "ftp"; url.Opaque := ""; url.User := None;
                url.Host := "example.com"; url.Path := "/x";
                url.RawPath := ""; url.OmitHost := false;
                url.ForceQuery := false; url.RawQuery := "y";
                url.Fragment := "z"; url.RawFragment := "" |}).
    reflexivity.
Defined.

(** ** The redirect handler *)

Lemma find_first {A} (f : A → bool) (l1 l2 : list A) (d : A) :
  (∀ x, x ∈ l1 → f x = false) → f d = true →
  find f (l1 ++ d :: l2) = Some d.
Proof.
  intros Hl1 Hd. induction l1 as [|a l1 IH]; simpl.
  - rewrite Hd. reflexivity.
  - rewrite (Hl1 a) by left. apply IH. intros x Hx. apply Hl1. right.
    exact Hx.
Qed.

(** X12: the redirect handler always answers, after exactly one call to
    the driver and without changing the store.  When the call succeeds
    and documents carry the slug, it redirects (302) to the [url] of the
    first of them in the collection, so that of two pairs with one slug
    the older one wins; when the call fails it answers 404 although the
    mapping exists. *)
Theorem get_slug_answers (c : Ctx) (w : World) :
  ∃ resp,
    get_slug c w = (Ok resp, tick w) ∧
    (∀ l1 d l2,
       db_fault w (db_calls w) = None →
       docs w = (l1 ++ d :: l2)%list →
       (∀ x, x ∈ l1 → Slug x ≠ c_Params c "slug") →
       Slug d = c_Params c "slug" →
       resp = c_Redirect (Url d) ∧ StatusCode resp = 302 ∧
       Location resp = Some (Url d)) ∧
    (∀ msg, db_fault w (db_calls w) = Some msg →
       StatusCode resp = 404 ∧ Location resp = None).
Proof.
  unfold get_slug. erewrite bind_Ok by apply FindOne_eq.
  unfold lookup.
  destruct (db_fault w (db_calls w)) as [m|].
  - eexists. split; [reflexivity|]. split; [intros; discriminate|].
    intros msg _. split; reflexivity.
  - destruct (find _ (docs w)) as [d0|] eqn:Hf;
      (eexists; split; [reflexivity|]; split; [|intros; discriminate]);
      intros l1 d l2 _ Hdocs Hl1 Hd; rewrite Hdocs in Hf;
      rewrite find_first in Hf;
      try (intros x Hx; unfold has_slug; apply String.eqb_neq, Hl1, Hx);
      try (unfold has_slug; apply String.eqb_eq, Hd);
      [injection Hf as <-; repeat split|discriminate].
Qed.

Lemma get_slug_answers_witness :
  ∃ resp,
    get_slug (get "aaaaa") w_duplicate = (Ok resp, tick w_duplicate) ∧
    resp = c_Redirect (Url old_pair) ∧ StatusCode resp = 302 ∧
    Location resp = Some (Url old_pair).
Proof.
  destruct (get_slug_answers (get "aaaaa") w_duplicate)
    as (resp & Hget & Hfound & _).
  exists resp. split; [exact Hget|].
  apply (Hfound
           [{| Slug := "bbbbb"; Url := "https://b.example/";
               ExpireAt := 5 |}] old_pair [new_pair]).
  - reflexivity.
  - reflexivity.
  - intros x Hx. apply list_elem_of_singleton in Hx as ->. discriminate.
  - reflexivity.
Defined.

(** ** The key of the rate limiter *)

Lemma concat_cons (x : string) (xs : list string) :
  String.concat "" (x :: xs) = x +:+ String.concat "" xs.
Proof.
  destruct xs as [|y ys]; simpl.
  - symmetry. apply append_nil_r.
  - reflexivity.
Qed.

Lemma concat_app (l1 l2 : list string) :
  String.concat "" (l1 ++ l2) =
  String.concat "" l1 +:+ String.concat "" l2.
Proof.
  induction l1 as [|x l1 IH]; [reflexivity|].
  change ((x :: l1) ++ l2)%list with (x :: (l1 ++ l2))%list.
  rewrite !concat_cons, IH, append_assoc. reflexivity.
Qed.

(** X13: the key of the rate limiter is the concatenation of the
    addresses of the chain: the key of a one-address chain is the address,
    the key of the empty chain is the empty string, the key of two chains
    put end to end is the two keys put end to end.  Hence moving
    characters from the end of one address to the front of the next never
    changes the key, and every chain has the key of the one-address chain
    made of its concatenation. *)
Theorem KeyGenerator_concatenates :
  Main1.KeyGenerator (from_ips []) = "" ∧
  (∀ ip, Main1.KeyGenerator (from_ips [ip]) = ip) ∧
  (∀ l1 l2, Main1.KeyGenerator (from_ips (l1 ++ l2)) =
            Main1.KeyGenerator (from_ips l1) +:+
            Main1.KeyGenerator (from_ips l2)) ∧
  (∀ l1 a b c l2,
     Main1.KeyGenerator (from_ips (l1 ++ [a +:+ b; c] ++ l2)) =
     Main1.KeyGenerator (from_ips (l1 ++ [a; b +:+ c] ++ l2))) ∧
  (∀ l, Main1.KeyGenerator (from_ips l) =
        Main1.KeyGenerator (from_ips [Main1.KeyGenerator (from_ips l)])).
Proof.
  unfold Main1.KeyGenerator, strings.Join, from_ips. cbn [IPs].
  split; [reflexivity|]. split; [reflexivity|].
  split; [apply concat_app|]. split; [|reflexivity].
  intros l1 a b c l2. rewrite !concat_app. f_equal. f_equal.
  rewrite !concat_cons, !append_assoc. reflexivity.
Qed.

(** ** The pair that a creation stores *)

Lemma post_Ok_cases fuel c w resp w' :
  Main1.post_createSlugURLPair fuel c w = (Ok resp, w') ∨
  Main2.post_createSlugURLPair fuel c w = (Ok resp, w') ∨
  Part000.post_createSlugURLPair fuel c w = (Ok resp, w') →
  (∃ target retention,
     insertSlugURLPair fuel target retention w = (Ok resp, w')) ∨
  (StatusCode resp = 400 ∧ w' = w).
Proof.
  rewrite Main1_post_eq, Main2_post_eq, Part000_post_eq.
  intros [H|[H|H]]; destruct (Body c) as [e|o];
    try (injection H as <- <-; right; split; reflexivity);
    destruct (url.Parse (submitted c)) as [u|e];
    try (injection H as <- <-; right; split; reflexivity);
    try discriminate; try (left; eauto; fail);
    (destruct (http_get w _) as [code|]; [destruct (200 <=? code)|]);
    try (injection H as <- <-; right; split; reflexivity);
    left; eauto.
Qed.

Lemma find_None_not_in (s : string) (l : list SlugURLPair) :
  find (has_slug s) l = None → s ∉ (Slug <$> l).
Proof.
  induction l as [|d l IH]; simpl; intros Hf Hin.
  - inversion Hin.
  - unfold has_slug in Hf at 1.
    destruct (String.eqb_spec (Slug d) s) as [|Hne]; [discriminate|].
    apply elem_of_cons in Hin as [Heq|Hin]; [congruence|].
    exact (IH Hf Hin).
Qed.

Lemma persistSlugURLPair_reliable s target retention w :
  reliable w →
  persistSlugURLPair s target retention w =
  (Ok (created (pair_of s target retention w)),
   set_db (docs w ++ [bson_doc (pair_of s target retention w)]) true
     (S (S (db_calls w))) w).
Proof.
  intros Hrel. unfold persistSlugURLPair.
  erewrite bind_Ok by reflexivity.
  erewrite bind_Ok
    by (rewrite InsertOne_eq, (reliable_now w Hrel); reflexivity).
  cbv beta iota.
  erewrite bind_Ok
    by (rewrite createTTLIndex_eq; simpl; rewrite (Hrel (S (db_calls w)))
          by lia; reflexivity).
  reflexivity.
Qed.

(** X14: the check of the slug and the insertion are separate calls to
    the driver, and nothing ties them together.  For a request that runs
    alone, with lookups that do not fail, a creation keeps the slugs of
    the collection pairwise distinct.  For two requests that both pass
    [generateUniqueSlug] with the same candidate before either has
    inserted, both are answered 200 and the collection holds two
    documents with that slug, although no lookup failed. *)
Theorem creation_keeps_slugs_distinct_alone
  (fuel : nat) (w : World) :
  reliable w →
  (∀ target retention,
     insertSlugURLPair fuel target retention =
     (s <- generateUniqueSlug fuel ;;
      persistSlugURLPair s target retention)) ∧
  (∀ c resp w',
     NoDup (Slug <$> docs w) →
     Main1.post_createSlugURLPair fuel c w = (Ok resp, w') ∨
     Main2.post_createSlugURLPair fuel c w = (Ok resp, w') ∨
     Part000.post_createSlugURLPair fuel c w = (Ok resp, w') →
     NoDup (Slug <$> docs w')) ∧
  (∀ s w1 w2 tA rA tB rB,
     generateUniqueSlug fuel w = (Ok s, w1) →
     generateUniqueSlug fuel w1 = (Ok s, w2) →
     ∃ pA w3 pB w4,
       persistSlugURLPair s tA rA w2 = (Ok (created pA), w3) ∧
       persistSlugURLPair s tB rB w3 = (Ok (created pB), w4) ∧
       docs w4 = (docs w ++ [bson_doc pA; bson_doc pB])%list ∧
       Slug pA = s ∧ Slug pB = s ∧ Url pA = tA ∧ Url pB = tB).
Proof.
  intros Hrel. split; [reflexivity|]. split.
  - intros c resp w' Hnd H.
    apply post_Ok_cases in H as [(target & retention & H)|[Hst ->]];
      [|exact Hnd].
    apply insertSlugURLPair_Ok in H as (s & w1 & Hs & -> & ->).
    apply generateUniqueSlug_reliable in Hs as [Hf ->]; [|exact Hrel].
    apply find_None_not_in in Hf.
    cbn [docs set_db tick set_rand_pos].
    rewrite fmap_app. apply NoDup_app. split; [exact Hnd|]. split.
    + intros x Hx Hx'. simpl in Hx'.
      apply list_elem_of_singleton in Hx'. subst x. exact (Hf Hx).
    + simpl. apply NoDup_singleton.
  - intros s w1 w2 tA rA tB rB HA HB.
    apply generateUniqueSlug_reliable in HA as [_ ->]; [|exact Hrel].
    assert (reliable (tick (set_rand_pos (rand_pos w + 5) w))) as Hrel1
      by (apply reliable_tick; exact Hrel).
    apply generateUniqueSlug_reliable in HB as [_ ->]; [|exact Hrel1].
    match goal with |- context [persistSlugURLPair s tA rA ?w2] =>
      assert (reliable w2) as Hrel2 by (apply reliable_tick; exact Hrel1)
    end.
    eexists _, _, _, _.
    split; [apply persistSlugURLPair_reliable; exact Hrel2|].
    split.
    { apply persistSlugURLPair_reliable.
      intros i Hi. apply Hrel. simpl in Hi. lia. }
    cbn [docs set_db tick set_rand_pos].
    rewrite <- app_assoc. repeat split.
Qed.

Lemma creation_keeps_slugs_distinct_alone_witness :
  ∃ pA w3 pB w4,
    persistSlugURLPair "aaaaa" "https://a.example/" (Hour * 24 * 5)
      (tick (drawn (tick (drawn w_empty)))) = (Ok (created pA), w3) ∧
    persistSlugURLPair "aaaaa" "https://b.example/" (Minute * 5) w3
    = (Ok (created pB), w4) ∧
    docs w4 = (docs w_empty ++ [bson_doc pA; bson_doc pB])%list ∧
    Slug pA = "aaaaa" ∧ Slug pB = "aaaaa" ∧
    Url pA = "https://a.example/" ∧ Url pB = "https://b.example/".
Proof.
  apply (proj2 (proj2 (creation_keeps_slugs_distinct_alone 0 w_empty
                         (fun i _ => eq_refl)))
           "aaaaa" (tick (drawn w_empty))
           (tick (drawn (tick (drawn w_empty)))));
    reflexivity.
Defined.

Lemma bson_Time_bounds (t : Z) :
  bson_Time (bson_DateTime t) <= t < bson_Time (bson_DateTime t) + Millisecond.
Proof.
  unfold bson_Time, bson_DateTime.
  assert (0 < Millisecond) as Hpos by reflexivity.
  pose proof (Z.div_mod t Millisecond ltac:(lia)) as Hdm.
  pose proof (Z.mod_pos_bound t Millisecond Hpos) as Hb.
  lia.
Qed.

Lemma bson_Time_add (t k : Z) :
  bson_Time (bson_DateTime (t + k * Millisecond)) =
  bson_Time (bson_DateTime t) + k * Millisecond.
Proof.
  unfold bson_Time, bson_DateTime.
  rewrite Z.div_add by discriminate. lia.
Qed.

(** X15: on a 200 the response carries the pair the handler built: a
    slug of five characters of the alphabet, the normalised target, and
    [expireAt], the time of the request plus the retention of the
    program (five days in the first program of [main.go] and in
    [part_000], five minutes in the second program of [main.go]).  The
    document that is stored, the last of the collection, has the same
    slug and [url], but its [expireAt] is that time cut to the
    millisecond: the retention after the millisecond of the request,
    less than a millisecond before the [expireAt] of the response. *)
Theorem created_pair_fields
  (fuel : nat) (c : Ctx) (w : World) (resp : Response) (w' : World) :
  StatusCode resp = StatusOK →
  (Main1.post_createSlugURLPair fuel c w = (Ok resp, w') →
   ∃ p u, resp = created p ∧ last (docs w') = Some (bson_doc p) ∧
          String.length (Slug p) = 5%nat ∧ in_alphabet (Slug p) ∧
          url.Parse (submitted c) = inl u ∧
          Url p = url.String (default_http u) ∧
          Url (bson_doc p) = Url p ∧ Slug (bson_doc p) = Slug p ∧
          ExpireAt p = clock w + five_days ∧
          ExpireAt (bson_doc p)
          = bson_Time (bson_DateTime (clock w)) + five_days ∧
          ExpireAt (bson_doc p) <= ExpireAt p
          < ExpireAt (bson_doc p) + Millisecond) ∧
  (Main2.post_createSlugURLPair fuel c w = (Ok resp, w') →
   ∃ p u, resp = created p ∧ last (docs w') = Some (bson_doc p) ∧
          String.length (Slug p) = 5%nat ∧ in_alphabet (Slug p) ∧
          url.Parse (submitted c) = inl u ∧
          Url p = url.String (force_https u) ∧
          Url (bson_doc p) = Url p ∧ Slug (bson_doc p) = Slug p ∧
          ExpireAt p = clock w + five_minutes ∧
          ExpireAt (bson_doc p)
          = bson_Time (bson_DateTime (clock w)) + five_minutes ∧
          ExpireAt (bson_doc p) <= ExpireAt p
          < ExpireAt (bson_doc p) + Millisecond) ∧
  (Part000.post_createSlugURLPair fuel c w = (Ok resp, w') →
   ∃ p u, resp = created p ∧ last (docs w') = Some (bson_doc p) ∧
          String.length (Slug p) = 5%nat ∧ in_alphabet (Slug p) ∧
          url.Parse (submitted c) = inl u ∧
          Url p = url.String (force_https u) ∧
          Url (bson_doc p) = Url p ∧ Slug (bson_doc p) = Slug p ∧
          ExpireAt p = clock w + five_days ∧
          ExpireAt (bson_doc p)
          = bson_Time (bson_DateTime (clock w)) + five_days ∧
          ExpireAt (bson_doc p) <= ExpireAt p
          < ExpireAt (bson_doc p) + Millisecond).
Proof.
  intros Hst.
  assert (∀ target k,
            insertSlugURLPair fuel target (k * Millisecond) w
            = (Ok resp, w') →
            ∃ p, resp = created p ∧ last (docs w') = Some (bson_doc p) ∧
                 String.length (Slug p) = 5%nat ∧ in_alphabet (Slug p) ∧
                 Url p = target ∧
                 ExpireAt p = clock w + k * Millisecond ∧
                 ExpireAt (bson_doc p)
                 = bson_Time (bson_DateTime (clock w)) + k * Millisecond ∧
                 ExpireAt (bson_doc p) <= ExpireAt p
                 < ExpireAt (bson_doc p) + Millisecond) as Hins.
  { intros target k H.
    apply insertSlugURLPair_Ok in H as (s & w1 & Hs & -> & ->).
    exists (pair_of s target (k * Millisecond) w1).
    split; [reflexivity|]. split; [apply last_snoc|].
    pose proof Hs as Hshape.
    apply generateUniqueSlug_Ok in Hshape as (w0 & Hshape).
    apply generateRandomString_Ok in Hshape as (_ & Hl & Ha & _).
    apply generateUniqueSlug_frame in Hs as (n & ->).
    split; [exact Hl|]. split; [exact Ha|]. split; [reflexivity|].
    split; [reflexivity|]. split; [apply bson_Time_add|].
    apply bson_Time_bounds. }
  split; [|split]; intros H.
  - apply Main1_post_Ok in H as (u & Hu & H); [|exact Hst].
    change (Hour * 24 * 5) with (432000000 * Millisecond) in H.
    apply Hins in H as (p & ? & ? & ? & ? & ? & ? & ? & ?). exists p, u.
    repeat split; assumption || reflexivity || lia.
  - apply Main2_post_Ok in H as (u & Hu & _ & H); [|exact Hst].
    change (Minute * 5) with (300000 * Millisecond) in H.
    apply Hins in H as (p & ? & ? & ? & ? & ? & ? & ? & ?). exists p, u.
    repeat split; assumption || reflexivity || lia.
  - apply Part000_post_Ok in H as (u & Hu & _ & H); [|exact Hst].
    change (Hour * 24 * 5) with (432000000 * Millisecond) in H.
    apply Hins in H as (p & ? & ? & ? & ? & ? & ? & ? & ?). exists p, u.
    repeat split; assumption || reflexivity || lia.
Qed.

Lemma created_pair_fields_witness :
  let p := {| Slug := "aaaaa"; Url := "https://example.com";
              ExpireAt := 2 + five_minutes |} in
  ∃ q u, created p = created q ∧
         last (docs (after_create (bson_doc p) (ttl_sweep w_expired)))
         = Some (bson_doc q) ∧
         String.length (Slug q) = 5%nat ∧ in_alphabet (Slug q) ∧
         url.Parse (submitted (post (Some "example.com"))) = inl u ∧
         Url q = url.String (force_https u) ∧
         Url (bson_doc q) = Url q ∧ Slug (bson_doc q) = Slug q ∧
         ExpireAt q = clock (ttl_sweep w_expired) + five_minutes ∧
         ExpireAt (bson_doc q)
         = bson_Time (bson_DateTime (clock (ttl_sweep w_expired)))
           + five_minutes ∧
         ExpireAt (bson_doc q) <= ExpireAt q
         < ExpireAt (bson_doc q) + Millisecond.
Proof.
  intros p.
  apply (proj1 (proj2 (created_pair_fields 1 (post (Some "example.com"))
                         (ttl_sweep w_expired) (created p)
                         (after_create (bson_doc p) (ttl_sweep w_expired))
                         eq_refl))).
  reflexivity.
Defined.

(** ** The normalisation of URLs with a plain host name *)

Lemma append_cons (c : ascii) (s t : string) :
  String c s +:+ t = String c (s +:+ t).
Proof. reflexivity. Qed.

Lemma all_bytes_app P (s t : string) :
  all_bytes P (s +:+ t) = all_bytes P s && all_bytes P t.
Proof.
  induction s as [|a s IH]; [reflexivity|].
  rewrite append_cons. simpl. rewrite IH, andb_assoc. reflexivity.
Qed.

Lemma all_bytes_IndexByte P (s : string) (c : ascii) :
  all_bytes P s = true → P c = false → strings.IndexByte s c = None.
Proof.
  intros Hs Hc. induction s as [|a s IH]; [reflexivity|].
  apply all_bytes_cons in Hs as [Ha Hs]. simpl.
  destruct (Ascii.eqb_spec a c) as [->|_]; [congruence|].
  rewrite (IH Hs). reflexivity.
Qed.

Lemma all_bytes_LastIndexByte P (s : string) (c : ascii) :
  all_bytes P s = true → P c = false → strings.LastIndexByte s c = None.
Proof.
  intros Hs Hc. induction s as [|a s IH]; [reflexivity|].
  apply all_bytes_cons in Hs as [Ha Hs]. simpl. rewrite (IH Hs).
  destruct (Ascii.eqb_spec a c) as [->|_]; [congruence|reflexivity].
Qed.

Lemma IndexByte_app_None (s t : string) (c : ascii) :
  strings.IndexByte s c = None → strings.IndexByte t c = None →
  strings.IndexByte (s +:+ t) c = None.
Proof.
  induction s as [|a s IH]; intros Hs Ht; [exact Ht|].
  rewrite append_cons. simpl in *.
  destruct (Ascii.eqb a c); [discriminate|].
  destruct (strings.IndexByte s c); [discriminate|].
  rewrite IH; auto.
Qed.

Lemma IndexByte_app_here (s t : string) (c : ascii) :
  strings.IndexByte s c = None →
  strings.IndexByte (s +:+ String c t) c = Some (String.length s).
Proof.
  induction s as [|a s IH]; intros Hs.
  - simpl. rewrite Ascii.eqb_refl. reflexivity.
  - rewrite append_cons. simpl in *.
    destruct (Ascii.eqb a c); [discriminate|].
    destruct (strings.IndexByte s c); [discriminate|].
    rewrite IH; auto.
Qed.

Lemma upto_app (s t : string) : strings.upto (String.length s) (s +:+ t) = s.
Proof.
  unfold strings.upto. induction s as [|a s IH].
  - destruct t; reflexivity.
  - rewrite append_cons. simpl. f_equal. exact IH.
Qed.

Lemma substring_all (s : string) :
  String.substring 0 (String.length s) s = s.
Proof. induction s as [|a s IH]; [reflexivity|]. simpl. f_equal. exact IH. Qed.

Lemma length_app (s t : string) :
  String.length (s +:+ t) = (String.length s + String.length t)%nat.
Proof.
  induction s as [|a s IH]; [reflexivity|].
  rewrite append_cons. simpl. f_equal. exact IH.
Qed.

Lemma from_app (s t : string) : strings.from (String.length s) (s +:+ t) = t.
Proof.
  unfold strings.from. rewrite length_app.
  replace (String.length s + String.length t - String.length s)%nat
    with (String.length t) by lia.
  induction s as [|a s IH]; [apply substring_all|].
  rewrite append_cons. simpl. exact IH.
Qed.

Lemma CTL_app (s t : string) :
  url.stringContainsCTLByte (s +:+ t) =
  url.stringContainsCTLByte s || url.stringContainsCTLByte t.
Proof.
  induction s as [|a s IH]; [reflexivity|].
  rewrite append_cons. simpl. rewrite IH, orb_assoc. reflexivity.
Qed.

Lemma get_IndexByte (s : string) : ∀ n c,
  String.get n s = Some c → strings.IndexByte s c ≠ None.
Proof.
  induction s as [|a s IH]; intros n c H; [discriminate|].
  simpl. destruct (Ascii.eqb_spec a c) as [|Hne]; [discriminate|].
  destruct n as [|n]; simpl in H; [congruence|].
  specialize (IH n c H). destruct (strings.IndexByte s c); congruence.
Qed.

Lemma HasSuffixByte_absent (s : string) (c : ascii) :
  strings.IndexByte s c = None → strings.HasSuffixByte s c = false.
Proof.
  intros H. unfold strings.HasSuffixByte.
  destruct (String.get _ s) as [a|] eqn:E; [|reflexivity].
  destruct (Ascii.eqb_spec a c) as [->|]; [|reflexivity].
  apply get_IndexByte in E. contradiction.
Qed.

Lemma append_inv_l (p s t : string) : p +:+ s = p +:+ t → s = t.
Proof.
  induction p as [|a p IH]; [auto|].
  rewrite !append_cons. intros [= H]. auto.
Qed.

(** *** Bytes *)

Lemma host_byte_facts (c : ascii) :
  host_byte c = true →
  path_byte c = true ∧
  url.shouldEscape c url.encodeHost = false ∧
  Ascii.eqb c "%" = false ∧ Ascii.eqb c "+" = false ∧
  Ascii.eqb c "[" = false.
Proof.
  destruct c as [[] [] [] [] [] [] [] []]; vm_compute;
    intros H; try discriminate H; repeat split.
Qed.

Lemma kept_byte_facts (c : ascii) :
  url.shouldEscape c url.encodePath = false →
  path_byte c = true ∧ Ascii.eqb c "%" = false.
Proof.
  destruct c as [[] [] [] [] [] [] [] []]; vm_compute;
    intros H; try discriminate H; repeat split.
Qed.

Lemma hex_byte_facts (c : ascii) :
  let hi := url.upperhex (N_of_ascii c / 16) in
  let lo := url.upperhex (N_of_ascii c mod 16) in
  url.ishex hi = true ∧ url.ishex lo = true ∧
  ascii_of_N (url.unhex hi * 16 + url.unhex lo) = c ∧
  path_byte hi = true ∧ path_byte lo = true ∧
  url.shouldEscape hi url.encodePath = false ∧
  url.shouldEscape lo url.encodePath = false.
Proof.
  destruct c as [[] [] [] [] [] [] [] []]; vm_compute; repeat split.
Qed.

Lemma from_app_S (s t : string) (c : ascii) :
  strings.from (S (String.length s)) (s +:+ String c t) = t.
Proof.
  unfold strings.from. rewrite length_app. cbn [String.length].
  replace (String.length s + S (String.length t) - S (String.length s))%nat
    with (String.length t) by lia.
  induction s as [|a s IH]; [apply substring_all|].
  rewrite append_cons. exact IH.
Qed.

Lemma Cut_absent (s : string) (c : ascii) :
  strings.IndexByte s c = None → strings.Cut s c = (s, "", false).
Proof. intros H. unfold strings.Cut. rewrite H. reflexivity. Qed.

Lemma Cut_app_sep (s t : string) (c : ascii) :
  strings.IndexByte s c = None →
  strings.Cut (s +:+ String c t) c = (s, t, true).
Proof.
  intros H. unfold strings.Cut.
  rewrite (IndexByte_app_here s t c H), upto_app, from_app_S. reflexivity.
Qed.

Lemma CountByte_app (s t : string) (c : ascii) :
  strings.CountByte (s +:+ t) c =
  (strings.CountByte s c + strings.CountByte t c)%nat.
Proof.
  induction s as [|a s IH]; [reflexivity|].
  rewrite append_cons. simpl. rewrite IH. lia.
Qed.

Lemma CountByte_IndexByte (s : string) (c : ascii) :
  strings.CountByte s c = 0%nat ↔ strings.IndexByte s c = None.
Proof.
  induction s as [|a s IH]; [split; reflexivity|]. simpl.
  destruct (Ascii.eqb a c); [split; discriminate|].
  rewrite Nat.add_0_l, IH.
  destruct (strings.IndexByte s c); split; congruence.
Qed.

Lemma get_app_r (s t : string) (n : nat) :
  String.get (String.length s + n) (s +:+ t) = String.get n t.
Proof.
  induction s as [|a s IH]; [reflexivity|].
  rewrite append_cons. exact IH.
Qed.

Lemma HasSuffixByte_app (s t : string) (c : ascii) :
  t ≠ "" →
  strings.HasSuffixByte (s +:+ t) c = strings.HasSuffixByte t c.
Proof.
  intros Ht. unfold strings.HasSuffixByte. rewrite length_app.
  destruct t as [|a t]; [contradiction|]. cbn [String.length].
  replace (String.length s + S (String.length t) - 1)%nat
    with (String.length s + String.length t)%nat by lia.
  rewrite get_app_r.
  replace (S (String.length t) - 1)%nat with (String.length t) by lia.
  reflexivity.
Qed.

Lemma unescape_decode_nonempty (c : ascii) (s : string) (m : url.encoding) :
  String.eqb (url.unescape_decode (String c s) m) "" = false.
Proof.
  simpl. destruct (Ascii.eqb c "%").
  - destruct s as [|a [|b s]]; reflexivity.
  - destruct (Ascii.eqb c "+"); reflexivity.
Qed.

(** The query of [parse]: the part after the first [?], and
    [ForceQuery] for a [?] with nothing after it. *)
Lemma query_split (R0 : string) (q : option string) (u : url.URL) :
  strings.IndexByte R0 "?" = None →
  (if strings.HasSuffixByte (R0 +:+ query_part q) "?"
      && Nat.eqb (strings.CountByte (R0 +:+ query_part q) "?") 1
   then (strings.upto (String.length (R0 +:+ query_part q) - 1)
           (R0 +:+ query_part q),
         url.set_query true "" u)
   else let '(rest, q', _) := strings.Cut (R0 +:+ query_part q) "?" in
        (rest, url.set_query false q' u))
  = (R0,
     url.set_query (match q with Some q => String.eqb q "" | None => false end)
       (default "" q) u).
Proof.
  intros H0. pose proof (proj2 (CountByte_IndexByte R0 "?") H0) as Hc0.
  destruct q as [[|c q]|]; unfold query_part.
  - change ("?" +:+ "") with "?".
    rewrite HasSuffixByte_app by discriminate.
    rewrite CountByte_app, Hc0, length_app.
    cbn [strings.HasSuffixByte String.length Nat.sub String.get
         strings.CountByte Ascii.eqb Bool.eqb Nat.add Nat.eqb andb].
    replace (String.length R0 + 1 - 1)%nat with (String.length R0) by lia.
    rewrite upto_app. reflexivity.
  - change ("?" +:+ String c q) with (String "?" (String c q)).
    assert (strings.HasSuffixByte (R0 +:+ String "?" (String c q)) "?"
            && Nat.eqb (strings.CountByte
                          (R0 +:+ String "?" (String c q)) "?") 1
            = false) as ->.
    { rewrite (HasSuffixByte_app R0) by discriminate.
      change (String "?" (String c q)) with ("?" +:+ String c q) at 1.
      rewrite (HasSuffixByte_app "?") by discriminate.
      destruct (strings.HasSuffixByte (String c q) "?") eqn:E;
        [|reflexivity].
      rewrite CountByte_app, Hc0.
      change (strings.CountByte (String "?" (String c q)) "?")
        with (S (strings.CountByte (String c q) "?")).
      destruct (strings.CountByte (String c q) "?") eqn:Ec; [|reflexivity].
      apply CountByte_IndexByte, HasSuffixByte_absent in Ec. congruence. }
    rewrite (Cut_app_sep R0 (String c q) "?" H0). reflexivity.
  - rewrite append_nil_r, (HasSuffixByte_absent _ _ H0), (Cut_absent _ _ H0).
    reflexivity.
Qed.

Lemma kept_fragment_byte (c : ascii) :
  url.shouldEscape c url.encodeFragment = false → Ascii.eqb c "%" = false.
Proof.
  destruct c as [[] [] [] [] [] [] [] []]; vm_compute;
    intros H; try discriminate H; reflexivity.
Qed.

Lemma hex_fragment_bytes (c : ascii) :
  url.shouldEscape (url.upperhex (N_of_ascii c / 16)) url.encodeFragment
  = false ∧
  url.shouldEscape (url.upperhex (N_of_ascii c mod 16)) url.encodeFragment
  = false.
Proof.
  destruct c as [[] [] [] [] [] [] [] []]; vm_compute; split; reflexivity.
Qed.

(** *** Escaping a path or a fragment and reading it back *)

Section Escaping.
Variable m : url.encoding.
Hypothesis Hm : m = url.encodePath ∨ m = url.encodeFragment.

Lemma escape_cons (c : ascii) (P : string) :
  url.escape (String c P) m =
  if url.shouldEscape c m
  then String "%" (String (url.upperhex (N_of_ascii c / 16))
         (String (url.upperhex (N_of_ascii c mod 16)) (url.escape P m)))
  else String c (url.escape P m).
Proof. destruct Hm as [-> | ->]; reflexivity. Qed.

Lemma unescape_check_escaped (a b : ascii) (s : string) :
  url.ishex a = true → url.ishex b = true →
  url.unescape_check (String "%" (String a (String b s))) m =
  url.unescape_check s m.
Proof.
  intros Ha Hb.
  assert (url.unescape_check (String "%" (String a (String b s))) m
          = if url.ishex a && url.ishex b
            then url.unescape_check s m
            else Some (url.EscapeError
                         (strings.upto 3
                            (String "%" (String a (String b s)))))) as ->
    by (destruct Hm as [-> | ->]; reflexivity).
  rewrite Ha, Hb. reflexivity.
Qed.

Lemma unescape_check_kept (c : ascii) (s : string) :
  Ascii.eqb c "%" = false →
  url.unescape_check (String c s) m = url.unescape_check s m.
Proof.
  intros Hc. destruct Hm as [-> | ->]; simpl; rewrite Hc; reflexivity.
Qed.

Lemma unescape_decode_escaped (a b : ascii) (s : string) :
  url.unescape_decode (String "%" (String a (String b s))) m =
  String (ascii_of_N (url.unhex a * 16 + url.unhex b))
    (url.unescape_decode s m).
Proof. reflexivity. Qed.

Lemma unescape_decode_kept (c : ascii) (s : string) :
  Ascii.eqb c "%" = false →
  url.unescape_decode (String c s) m = String c (url.unescape_decode s m).
Proof.
  intros Hc. simpl. rewrite Hc.
  destruct (Ascii.eqb_spec c "+") as [->|]; [|reflexivity].
  destruct Hm as [-> | ->]; reflexivity.
Qed.

Lemma validEncoded_cons (c : ascii) (s : string) :
  url.validEncoded (String c s) m =
  (if url.oneof c "!$&'()*+,;=:@[]%" then true
   else negb (url.shouldEscape c m))
  && url.validEncoded s m.
Proof. reflexivity. Qed.

Lemma validEncoded_escaped (a b : ascii) (s : string) :
  url.shouldEscape a m = false → url.shouldEscape b m = false →
  url.validEncoded (String "%" (String a (String b s))) m =
  url.validEncoded s m.
Proof.
  intros Ha Hb. rewrite !validEncoded_cons, Ha, Hb.
  change (url.oneof "%" "!$&'()*+,;=:@[]%") with true.
  destruct (url.oneof a _), (url.oneof b _); reflexivity.
Qed.

Lemma kept_byte (c : ascii) :
  url.shouldEscape c m = false → Ascii.eqb c "%" = false.
Proof.
  destruct Hm as [-> | ->]; intros H.
  - apply (kept_byte_facts c H).
  - apply (kept_fragment_byte c H).
Qed.

Lemma hex_kept (c : ascii) :
  url.shouldEscape (url.upperhex (N_of_ascii c / 16)) m = false ∧
  url.shouldEscape (url.upperhex (N_of_ascii c mod 16)) m = false.
Proof.
  destruct Hm as [-> | ->].
  - destruct (hex_byte_facts c) as (_ & _ & _ & _ & _ & H6 & H7).
    split; assumption.
  - apply hex_fragment_bytes.
Qed.

(** What [escape] writes is validly encoded and decodes to what was
    escaped. *)
Lemma escape_roundtrip (P : string) :
  url.unescape_check (url.escape P m) m = None ∧
  url.unescape_decode (url.escape P m) m = P ∧
  url.validEncoded (url.escape P m) m = true.
Proof.
  induction P as [|c P (I1 & I2 & I3)];
    [destruct Hm as [-> | ->]; repeat split|].
  rewrite escape_cons.
  destruct (url.shouldEscape c m) eqn:E.
  - destruct (hex_byte_facts c) as (H1 & H2 & H3 & _).
    destruct (hex_kept c) as (H6 & H7).
    cbv zeta in *.
    rewrite unescape_check_escaped, unescape_decode_escaped by assumption.
    rewrite H3, I2. split; [exact I1|]. split; [reflexivity|].
    rewrite validEncoded_escaped by assumption. exact I3.
  - pose proof (kept_byte c E) as Hpct.
    rewrite unescape_check_kept, unescape_decode_kept by assumption.
    rewrite I2. split; [exact I1|]. split; [reflexivity|].
    rewrite validEncoded_cons, E, I3.
    destruct (url.oneof _ _); reflexivity.
Qed.

(** What is written is validly encoded, is written as it is, and
    decodes to what the input decodes to. *)
Lemma written_facts (x : string) :
  url.unescape_check x m = None →
  url.validEncoded (written m x) m = true ∧
  written m (written m x) = written m x ∧
  url.unescape_check (written m x) m = None ∧
  url.unescape_decode (written m x) m = url.unescape_decode x m.
Proof.
  intros Hc.
  assert (url.validEncoded (written m x) m = true ∧
          url.unescape_check (written m x) m = None ∧
          url.unescape_decode (written m x) m = url.unescape_decode x m)
    as (Hv & Hc' & Hd).
  { unfold written. destruct (url.validEncoded x m) eqn:E; [auto|].
    destruct (escape_roundtrip (url.unescape_decode x m))
      as (R1 & R2 & R3).
    auto. }
  split; [exact Hv|]. split; [|split; assumption].
  unfold written at 1. rewrite Hv. reflexivity.
Qed.

Lemma written_same (x : string) :
  written m x = x ↔ url.validEncoded x m = true ∨
                    url.escape (url.unescape_decode x m) m = x.
Proof.
  unfold written. destruct (url.validEncoded x m); split; auto.
  - intros [H|H]; [discriminate|exact H].
Qed.

End Escaping.

Lemma escape_path_bytes (P : string) :
  all_bytes path_byte (url.escape P url.encodePath) = true.
Proof.
  induction P as [|c P IH]; [reflexivity|].
  rewrite (escape_cons url.encodePath (or_introl eq_refl)).
  destruct (url.shouldEscape c url.encodePath) eqn:E.
  - destruct (hex_byte_facts c) as (_ & _ & _ & H4 & H5 & _).
    cbv zeta in *. cbn [all_bytes]. rewrite H4, H5, IH. reflexivity.
  - destruct (kept_byte_facts c E) as (Hp & _).
    cbn [all_bytes]. rewrite Hp, IH. reflexivity.
Qed.

Lemma HasPrefix_slash (x : string) :
  strings.HasPrefix (String "/" x) "/" = true.
Proof.
  unfold strings.HasPrefix. cbn [String.prefix].
  destruct (ascii_dec "/" "/"); [destruct x; reflexivity|congruence].
Qed.

Lemma raw_path_inv (rp : string) :
  raw_path rp = true →
  (rp = "" ∨ ∃ t, rp = String "/" t) ∧
  all_bytes path_byte rp = true ∧
  url.unescape_check rp url.encodePath = None.
Proof.
  unfold raw_path. intros H.
  apply andb_true_iff in H as [H H3]. apply andb_true_iff in H as [H1 H2].
  split; [|split; [exact H2|]].
  - destruct rp as [|a t]; [left; reflexivity|right].
    unfold strings.HasPrefix in H1. cbn [String.eqb String.prefix orb] in H1.
    destruct (ascii_dec "/" a) as [<-|]; [eauto|discriminate H1].
  - destruct (url.unescape_check rp url.encodePath); [discriminate|].
    reflexivity.
Qed.

(** The path that is written is again a path of the class. *)
Lemma written_path_raw (rp : string) :
  raw_path rp = true → raw_path (written url.encodePath rp) = true.
Proof.
  intros H. pose proof H as H'.
  apply raw_path_inv in H' as (Hform & Hb & Hc).
  destruct (written_facts url.encodePath (or_introl eq_refl) rp Hc)
    as (_ & _ & Hc' & _).
  unfold raw_path. rewrite Hc', andb_true_r. clear Hc'.
  unfold written.
  destruct (url.validEncoded rp url.encodePath) eqn:E.
  - unfold raw_path in H.
    apply andb_true_iff in H as [H _]. exact H.
  - destruct Hform as [->|(t & ->)]; [discriminate E|].
    rewrite (unescape_decode_kept url.encodePath (or_introl eq_refl))
      by reflexivity.
    rewrite (escape_cons url.encodePath (or_introl eq_refl)).
    change (url.shouldEscape "/" url.encodePath) with false. cbv iota.
    rewrite HasPrefix_slash. cbn [all_bytes].
    rewrite escape_path_bytes. reflexivity.
Qed.

(** *** Parsing and writing [scheme://host/path] *)

Lemma all_bytes_impl (P Q : ascii → bool) (s : string) :
  (∀ c, P c = true → Q c = true) →
  all_bytes P s = true → all_bytes Q s = true.
Proof.
  intros HPQ. induction s as [|a s IH]; [reflexivity|]. intros H.
  apply all_bytes_cons in H as [Ha Hs]. simpl.
  rewrite (HPQ a Ha), (IH Hs). reflexivity.
Qed.

Lemma path_bytes_no_CTL (s : string) :
  all_bytes path_byte s = true → url.stringContainsCTLByte s = false.
Proof.
  induction s as [|a s IH]; [reflexivity|]. intros H.
  apply all_bytes_cons in H as [Ha Hs]. simpl. rewrite (IH Hs).
  unfold path_byte in Ha.
  destruct ((N_of_ascii a <? 32)%N || (N_of_ascii a =? 127)%N);
    [discriminate Ha|reflexivity].
Qed.

Lemma host_bytes_path_bytes (host : string) :
  all_bytes host_byte host = true → all_bytes path_byte host = true.
Proof. apply all_bytes_impl. intros c Hc. apply (host_byte_facts c Hc). Qed.

Lemma host_unescape (host : string) :
  all_bytes host_byte host = true →
  url.unescape host url.encodeHost = inl host ∧
  url.escape host url.encodeHost = host.
Proof.
  intros Hs.
  assert (url.unescape_check host url.encodeHost = None ∧
          url.unescape_decode host url.encodeHost = host ∧
          url.escape host url.encodeHost = host) as (H1 & H2 & H3).
  { induction host as [|a s IH]; [repeat split|].
    apply all_bytes_cons in Hs as [Ha Hs].
    destruct (IH Hs) as (I1 & I2 & I3).
    destruct (host_byte_facts a Ha) as (_ & Hesc & Hpct & Hplus & _).
    simpl. rewrite Hesc, Hpct, Hplus, I1, I2, I3, andb_false_r.
    repeat split. }
  unfold url.unescape. rewrite H1, H2. split; [reflexivity|exact H3].
Qed.

Lemma host_no_bracket (host : string) :
  all_bytes host_byte host = true → strings.HasPrefix host "[" = false.
Proof.
  unfold strings.HasPrefix. destruct host as [|a s]; [reflexivity|].
  intros H. apply all_bytes_cons in H as [Ha _].
  destruct (host_byte_facts a Ha) as (_ & _ & _ & _ & Hb).
  cbn [String.prefix]. destruct (ascii_dec "[" a) as [<-|]; [|reflexivity].
  discriminate Hb.
Qed.

Lemma parseAuthority_host (host : string) :
  all_bytes host_byte host = true →
  url.parseAuthority host = inl (None, host).
Proof.
  intros Hs. unfold url.parseAuthority.
  rewrite (all_bytes_LastIndexByte host_byte host "@" Hs eq_refl).
  unfold url.parseHost.
  rewrite (host_no_bracket host Hs).
  rewrite (all_bytes_LastIndexByte host_byte host ":" Hs eq_refl).
  destruct (host_unescape host Hs) as [-> _]. reflexivity.
Qed.

Lemma from_2 (a b : ascii) (r : string) :
  strings.from 2 (String a (String b r)) = r.
Proof.
  unfold strings.from. cbn [String.length Nat.sub].
  rewrite Nat.sub_0_r. cbn [String.substring]. apply substring_all.
Qed.

(** Where the authority ends. *)
Lemma authority_split (host rp : string) :
  all_bytes host_byte host = true →
  rp = "" ∨ (∃ t, rp = String "/" t) →
  match strings.IndexByte (host +:+ rp) "/" with
  | Some i => (strings.upto i (host +:+ rp), strings.from i (host +:+ rp))
  | None => (host +:+ rp, "")
  end = (host, rp).
Proof.
  intros Hs [->|(t & ->)].
  - rewrite append_nil_r.
    rewrite (all_bytes_IndexByte host_byte host "/" Hs eq_refl).
    reflexivity.
  - rewrite IndexByte_app_here
      by exact (all_bytes_IndexByte host_byte host "/" Hs eq_refl).
    rewrite upto_app, from_app. reflexivity.
Qed.

Lemma plain_url_inv scheme host rp q f :
  plain_url scheme host rp q f = true →
  (scheme = "http" ∨ scheme = "https") ∧ host ≠ "" ∧
  all_bytes host_byte host = true ∧ raw_path rp = true ∧
  (∀ x, q = Some x → all_bytes query_byte x = true) ∧
  (∀ x, f = Some x → url.unescape_check x url.encodeFragment = None).
Proof.
  unfold plain_url. intros H.
  repeat (apply andb_true_iff in H as [H ?]).
  split; [|split; [|split; [|split; [|split]]]]; try assumption.
  - unfold is_http_or_https in H. apply orb_true_iff in H as [H|H];
      apply String.eqb_eq in H; auto.
  - intros ->. discriminate.
  - intros x ->. assumption.
  - intros x ->.
    destruct (url.unescape_check x url.encodeFragment); [discriminate|].
    reflexivity.
Qed.

Lemma query_bytes_no_CTL (s : string) :
  all_bytes query_byte s = true → url.stringContainsCTLByte s = false.
Proof.
  induction s as [|a s IH]; [reflexivity|]. intros H.
  apply all_bytes_cons in H as [Ha Hs]. simpl. rewrite (IH Hs).
  unfold query_byte in Ha.
  destruct ((N_of_ascii a <? 32)%N || (N_of_ascii a =? 127)%N);
    [discriminate Ha|reflexivity].
Qed.

(** The part of a URL of the class between [scheme://] and the
    fragment holds no control byte and no [#]. *)
Lemma before_fragment (host rp : string) (q : option string) :
  all_bytes host_byte host = true → all_bytes path_byte rp = true →
  (∀ x, q = Some x → all_bytes query_byte x = true) →
  url.stringContainsCTLByte ((host +:+ rp) +:+ query_part q) = false ∧
  strings.IndexByte ((host +:+ rp) +:+ query_part q) "#" = None.
Proof.
  intros Hh Hb Hq.
  pose proof (host_bytes_path_bytes host Hh) as Hhb.
  assert (all_bytes path_byte (host +:+ rp) = true) as Hall
    by (rewrite all_bytes_app, Hhb, Hb; reflexivity).
  assert (url.stringContainsCTLByte (query_part q) = false ∧
          strings.IndexByte (query_part q) "#" = None) as [Hc Hi].
  { destruct q as [x|]; [|split; reflexivity].
    specialize (Hq x eq_refl). unfold query_part. split.
    - rewrite CTL_app, (query_bytes_no_CTL x Hq). reflexivity.
    - apply IndexByte_app_None; [reflexivity|].
      apply (all_bytes_IndexByte query_byte x "#" Hq eq_refl). }
  split.
  - rewrite CTL_app, (path_bytes_no_CTL _ Hall), Hc. reflexivity.
  - apply IndexByte_app_None; [|exact Hi].
    apply (all_bytes_IndexByte path_byte _ "#" Hall eq_refl).
Qed.

Lemma parse_host_path (raw scheme host rp : string) (q : option string) :
  url.stringContainsCTLByte raw = false →
  String.eqb raw "" = false → String.eqb raw "*" = false →
  url.getScheme raw
  = inl (scheme, String "/" (String "/" (host +:+ rp)) +:+ query_part q) →
  strings.ToLower scheme = scheme → scheme ≠ "" →
  all_bytes host_byte host = true → raw_path rp = true →
  url.parse raw false = inl (parsed scheme host rp q None).
Proof.
  intros Hctl Hne Hstar Hg Hlow Hsch Hh Hrp.
  apply raw_path_inv in Hrp as (Hform & Hb & Hc).
  pose proof (all_bytes_IndexByte host_byte host "?" Hh eq_refl) as Hq1.
  pose proof (all_bytes_IndexByte path_byte rp "?" Hb eq_refl) as Hq2.
  assert (strings.IndexByte (String "/" (String "/" (host +:+ rp))) "?"
          = None) as Hq.
  { apply (IndexByte_app_None "//" (host +:+ rp)); [reflexivity|].
    apply IndexByte_app_None; assumption. }
  unfold url.parse. rewrite Hctl, Hne, Hstar, Hg, Hlow.
  cbn [andb].
  rewrite (query_split _ q _ Hq).
  cbn [url.Scheme url.set_Scheme url.set_query].
  rewrite HasPrefix_slash.
  apply String.eqb_neq in Hsch. rewrite Hsch. cbn [negb andb orb].
  assert (strings.HasPrefix (String "/" (String "/" (host +:+ rp))) "//"
          = true) as ->.
  { unfold strings.HasPrefix. cbn [String.prefix].
    destruct (ascii_dec "/" "/"); [|congruence].
    destruct (host +:+ rp); reflexivity. }
  rewrite from_2, (authority_split host rp Hh Hform).
  rewrite (parseAuthority_host host Hh).
  unfold url.setPath, url.unescape. rewrite Hc.
  unfold parsed.
  destruct (String.eqb rp _); reflexivity.
Qed.

Lemma Parse_plain_url (scheme host rp : string) (q f : option string) :
  plain_url scheme host rp q f = true →
  url.Parse (scheme +:+ "://" +:+ host +:+ rp
             +:+ query_part q +:+ fragment_part f)
  = inl (parsed scheme host rp q f).
Proof.
  intros H.
  apply plain_url_inv in H as (Hsch & Hhost & Hh & Hrp & Hq & Hf).
  pose proof Hrp as Hrp'.
  apply raw_path_inv in Hrp' as (_ & Hb & _).
  destruct (before_fragment host rp q Hh Hb Hq) as [Hctl Hfrag].
  assert (∀ pre,
            pre +:+ host +:+ rp +:+ query_part q +:+ fragment_part f
            = (pre +:+ ((host +:+ rp) +:+ query_part q))
              +:+ fragment_part f) as Hshape
    by (intros pre; rewrite !append_assoc; reflexivity).
  assert (∀ Y,
            strings.IndexByte Y "#" = None →
            url.parse Y false = inl (parsed scheme host rp q None) →
            url.Parse (Y +:+ fragment_part f)
            = inl (parsed scheme host rp q f)) as Hcut.
  { intros Y HY HP. unfold url.Parse.
    destruct f as [[|c x]|]; unfold fragment_part.
    - change ("#" +:+ "") with (String "#" "").
      rewrite (Cut_app_sep Y "" "#" HY), HP. reflexivity.
    - change ("#" +:+ String c x) with (String "#" (String c x)).
      rewrite (Cut_app_sep Y _ "#" HY), HP.
      cbn [String.eqb]. unfold url.setFragment, url.unescape.
      rewrite (Hf _ eq_refl). unfold parsed, default.
      cbn [from_option id url.Scheme url.Opaque url.User url.Host url.Path
           url.RawPath url.OmitHost url.ForceQuery url.RawQuery
           url.set_Fragment].
      destruct (String.eqb (String c x) _); reflexivity.
    - rewrite append_nil_r, (Cut_absent Y "#" HY), HP. reflexivity. }
  destruct Hsch as [-> | ->].
  - change ("http" +:+ "://" +:+ host +:+ rp
            +:+ query_part q +:+ fragment_part f)
      with ("http://" +:+ host +:+ rp +:+ query_part q +:+ fragment_part f).
    rewrite Hshape. apply Hcut.
    + apply IndexByte_app_None; [reflexivity|exact Hfrag].
    + apply (parse_host_path _ "http" host rp q);
        [rewrite CTL_app, Hctl; reflexivity|reflexivity..
        |discriminate|exact Hh|exact Hrp].
  - change ("https" +:+ "://" +:+ host +:+ rp
            +:+ query_part q +:+ fragment_part f)
      with ("https://" +:+ host +:+ rp +:+ query_part q +:+ fragment_part f).
    rewrite Hshape. apply Hcut.
    + apply IndexByte_app_None; [reflexivity|exact Hfrag].
    + apply (parse_host_path _ "https" host rp q);
        [rewrite CTL_app, Hctl; reflexivity|reflexivity..
        |discriminate|exact Hh|exact Hrp].
Qed.

Lemma decoded_not_star (rp : string) :
  rp = "" ∨ (∃ t, rp = String "/" t) →
  String.eqb (url.unescape_decode rp url.encodePath) "*" = false.
Proof. intros [->|(t & ->)]; reflexivity. Qed.

Lemma EscapedPath_written (scheme host rp : string) (q f : option string) :
  raw_path rp = true →
  url.EscapedPath (parsed scheme host rp q f) = written url.encodePath rp.
Proof.
  intros Hrp. apply raw_path_inv in Hrp as (Hform & Hb & Hc).
  unfold url.EscapedPath, parsed, written.
  cbn [url.RawPath url.Path].
  rewrite (decoded_not_star rp Hform).
  destruct (String.eqb_spec rp
              (url.escape (url.unescape_decode rp url.encodePath)
                 url.encodePath)) as [Heq|Hne].
  - cbn [String.eqb negb andb]. rewrite <- Heq.
    destruct (url.validEncoded rp url.encodePath); reflexivity.
  - assert (String.eqb rp "" = false) as ->.
    { apply String.eqb_neq. intros ->. apply Hne. reflexivity. }
    unfold url.unescape. rewrite Hc, String.eqb_refl, andb_true_r.
    cbn [negb andb].
    destruct (url.validEncoded rp url.encodePath); reflexivity.
Qed.

Lemma fragment_written (scheme host rp : string) (q f : option string) :
  (∀ x, f = Some x → url.unescape_check x url.encodeFragment = None) →
  (if url.nonempty (url.Fragment (parsed scheme host rp q f))
   then "#" +:+ url.EscapedFragment (parsed scheme host rp q f)
   else "")
  = fragment_part (written_fragment f).
Proof.
  intros Hf. destruct f as [[|c x]|]; try reflexivity.
  specialize (Hf _ eq_refl).
  unfold url.nonempty, url.EscapedFragment, parsed, default, written_fragment,
    written, fragment_part.
  cbn [from_option id url.Fragment url.RawFragment].
  rewrite unescape_decode_nonempty.
  assert (String.eqb (String c x) "" = false) as Hne0 by reflexivity.
  remember (String c x) as fr eqn:Hfr. clear Hfr. rewrite Hne0.
  cbn [negb].
  destruct (String.eqb_spec fr
              (url.escape (url.unescape_decode fr url.encodeFragment)
                 url.encodeFragment)) as [Heq|Hne].
  - cbn [String.eqb negb andb]. rewrite <- Heq.
    destruct (url.validEncoded fr url.encodeFragment); reflexivity.
  - unfold url.unescape. rewrite Hf, Hne0, String.eqb_refl, andb_true_r.
    cbn [negb andb].
    destruct (url.validEncoded fr url.encodeFragment); reflexivity.
Qed.

Lemma query_written (scheme host rp : string) (q f : option string) :
  (if url.ForceQuery (parsed scheme host rp q f)
      || url.nonempty (url.RawQuery (parsed scheme host rp q f))
   then "?" +:+ url.RawQuery (parsed scheme host rp q f)
   else "")
  = query_part q.
Proof. destruct q as [[|c x]|]; reflexivity. Qed.

Lemma String_plain_url (scheme host rp : string) (q f : option string) :
  plain_url scheme host rp q f = true →
  url.String (parsed scheme host rp q f)
  = scheme +:+ "://" +:+ host +:+ written url.encodePath rp
    +:+ query_part q +:+ fragment_part (written_fragment f).
Proof.
  intros H.
  apply plain_url_inv in H as (Hsch & Hhost & Hh & Hrp & Hq & Hf).
  pose proof (written_path_raw rp Hrp) as Hw.
  apply raw_path_inv in Hw as (Hform & _ & _).
  unfold url.String, url.String_rest.
  rewrite (query_written scheme host rp q f).
  rewrite (fragment_written scheme host rp q f Hf).
  rewrite (EscapedPath_written scheme host rp q f Hrp).
  unfold url.String_authority, url.nonempty, parsed.
  cbn [url.Scheme url.Opaque url.User url.Host url.Path url.OmitHost
       url.is_Some'].
  apply String.eqb_neq in Hhost. rewrite Hhost.
  destruct (host_unescape host Hh) as [_ ->].
  assert (∃ a sch, scheme = String a sch) as (a & sch & ->)
    by (destruct Hsch as [-> | ->]; eauto).
  cbn [String.eqb negb andb orb].
  rewrite !append_cons. cbn [String.length Nat.eqb andb].
  destruct Hform as [->|(t & ->)];
    cbn [Ascii.eqb Bool.eqb negb andb String.length Nat.eqb];
    repeat first [rewrite append_cons|rewrite append_assoc
                 |rewrite append_nil_r|rewrite append_nil_l];
    reflexivity.
Qed.

(** The fragment that is written is one of the class, and it is written
    as it is. *)
Lemma written_fragment_facts (f : option string) :
  (∀ x, f = Some x → url.unescape_check x url.encodeFragment = None) →
  (∀ x, written_fragment f = Some x →
        url.unescape_check x url.encodeFragment = None) ∧
  written_fragment (written_fragment f) = written_fragment f.
Proof.
  intros Hf. destruct f as [[|c x]|]; try (split; [discriminate|reflexivity]).
  destruct (written_facts url.encodeFragment (or_intror eq_refl)
              (String c x) (Hf _ eq_refl)) as (Hv & Ht & Hc & Hd).
  cbn [written_fragment String.eqb]. split.
  - intros y [= <-]. exact Hc.
  - assert (String.eqb (written url.encodeFragment (String c x)) "" = false)
      as ->.
    { apply String.eqb_neq. intros He. rewrite He in Hd.
      pose proof (unescape_decode_nonempty c x url.encodeFragment) as Hn.
      rewrite <- Hd in Hn. discriminate Hn. }
    rewrite Ht. reflexivity.
Qed.

Lemma plain_url_written scheme host rp q f :
  plain_url scheme host rp q f = true →
  plain_url scheme host (written url.encodePath rp) q (written_fragment f)
  = true.
Proof.
  intros H. pose proof H as H'.
  apply plain_url_inv in H' as (Hsch & Hhost & Hh & Hrp & Hq & Hf).
  destruct (written_fragment_facts f Hf) as [Hwf _].
  unfold plain_url in *.
  repeat (apply andb_true_iff in H as [H ?]).
  rewrite (written_path_raw rp Hrp).
  repeat (apply andb_true_iff; split); try assumption; try reflexivity.
  destruct (written_fragment f) as [x|]; [|reflexivity].
  rewrite (Hwf x eq_refl). reflexivity.
Qed.

(** The normalisation of a URL of the class. *)
Lemma assertProtocol_plain_url (scheme host rp : string)
  (q f : option string) :
  plain_url scheme host rp q f = true →
  let s := scheme +:+ "://" +:+ host +:+ rp
           +:+ query_part q +:+ fragment_part f in
  let v := scheme +:+ "://" +:+ host +:+ written url.encodePath rp
           +:+ query_part q +:+ fragment_part (written_fragment f) in
  Part000.assertProtocol s = (v, None) ∧
  ∀ w, Main2.assertProtocol s w = (Ok v, w).
Proof.
  intros H s v. unfold s, v, Part000.assertProtocol, Main2.assertProtocol.
  rewrite (Parse_plain_url scheme host rp q f H).
  assert (is_http_or_https (url.Scheme (parsed scheme host rp q f)) = true)
    as ->.
  { apply plain_url_inv in H as ([-> | ->] & _); reflexivity. }
  cbn [negb].
  rewrite (String_plain_url scheme host rp q f H).
  split; reflexivity.
Qed.

Lemma Cut_fragment_part (Y : string) (g : option string) :
  strings.IndexByte Y "#" = None →
  strings.Cut (Y +:+ fragment_part g) "#"
  = (Y, default "" g, url.is_Some' g).
Proof.
  intros H. destruct g as [x|]; unfold fragment_part.
  - change ("#" +:+ x) with (String "#" x). apply Cut_app_sep. exact H.
  - rewrite append_nil_r. apply Cut_absent. exact H.
Qed.

Lemma Cut_query_part (Y : string) (g : option string) :
  strings.IndexByte Y "?" = None →
  strings.Cut (Y +:+ query_part g) "?"
  = (Y, default "" g, url.is_Some' g).
Proof.
  intros H. destruct g as [x|]; unfold query_part.
  - change ("?" +:+ x) with (String "?" x). apply Cut_app_sep. exact H.
  - rewrite append_nil_r. apply Cut_absent. exact H.
Qed.

(** A URL of the class is written as it is exactly when its path and its
    fragment are. *)
Lemma written_same_url (rp : string) (q f : option string) :
  raw_path rp = true →
  (∀ x, q = Some x → all_bytes query_byte x = true) →
  written url.encodePath rp +:+ query_part q
  +:+ fragment_part (written_fragment f)
  = rp +:+ query_part q +:+ fragment_part f →
  written url.encodePath rp = rp ∧ written_fragment f = f.
Proof.
  intros Hrp Hq Heq.
  pose proof (written_path_raw rp Hrp) as Hw.
  apply raw_path_inv in Hw as (_ & Hwb & _).
  apply raw_path_inv in Hrp as (_ & Hb & _).
  assert (∀ R, all_bytes path_byte R = true →
               strings.IndexByte (R +:+ query_part q) "#" = None) as Hno.
  { intros R HR. apply IndexByte_app_None.
    - apply (all_bytes_IndexByte path_byte R "#" HR eq_refl).
    - destruct q as [x|]; [|reflexivity]. unfold query_part.
      apply IndexByte_app_None; [reflexivity|].
      apply (all_bytes_IndexByte query_byte x "#" (Hq x eq_refl) eq_refl). }
  rewrite <- !append_assoc in Heq.
  apply (f_equal (fun z => strings.Cut z "#")) in Heq.
  rewrite !Cut_fragment_part in Heq by (apply Hno; assumption).
  injection Heq as HX Hd Hs.
  apply (f_equal (fun z => strings.Cut z "?")) in HX.
  rewrite !Cut_query_part in HX
    by (eapply all_bytes_IndexByte; [eassumption|reflexivity]).
  injection HX as HX. split; [exact HX|].
  destruct f as [[|c x]|]; [discriminate Hs| |reflexivity].
  cbn [written_fragment String.eqb] in *. unfold default in Hd.
  cbn [from_option id] in Hd. rewrite Hd. reflexivity.
Qed.

(** C6 (amended): an input that begins with [http://] or [https://] and
    parses keeps its scheme, and what is returned is the parsed URL
    written out again.  For the inputs [scheme://host], a path, a query
    and a fragment, with a plain host name, that is the input with the
    path and the fragment written as [written] has them, and without
    the [#] of an empty fragment: the input itself exactly when the path
    and the fragment are validly encoded and the fragment, if there is
    one, is not empty.  On these inputs a second normalisation returns
    what the first returned. *)
Theorem assertProtocol_keeps_scheme
  (scheme host rp : string) (q f : option string) :
  plain_url scheme host rp q f = true →
  let s := scheme +:+ "://" +:+ host +:+ rp
           +:+ query_part q +:+ fragment_part f in
  let v := scheme +:+ "://" +:+ host +:+ written url.encodePath rp
           +:+ query_part q +:+ fragment_part (written_fragment f) in
  (Part000.assertProtocol s = (v, None) ∧
   ∀ w, Main2.assertProtocol s w = (Ok v, w)) ∧
  (Part000.assertProtocol v = (v, None) ∧
   ∀ w, Main2.assertProtocol v w = (Ok v, w)) ∧
  (v = s ↔
   url.validEncoded rp url.encodePath = true ∧
   match f with
   | Some x => x ≠ "" ∧ url.validEncoded x url.encodeFragment = true
   | None => True
   end) ∧
  (∀ t u,
     strings.HasPrefix t "http://" = true ∨
     strings.HasPrefix t "https://" = true →
     url.Parse t = inl u →
     force_https u = u ∧
     Part000.assertProtocol t = (url.String u, None) ∧
     ∀ w, Main2.assertProtocol t w = (Ok (url.String u), w)).
Proof.
  intros H s v.
  split; [exact (assertProtocol_plain_url scheme host rp q f H)|].
  pose proof H as H'.
  apply plain_url_inv in H' as (Hsch & Hhost & Hh & Hrp & Hq & Hf).
  pose proof Hrp as Hrp'. apply raw_path_inv in Hrp' as (_ & _ & Hc).
  destruct (written_facts url.encodePath (or_introl eq_refl) rp Hc)
    as (Hv & Htwice & _).
  destruct (written_fragment_facts f Hf) as [_ Hftwice].
  split; [|split].
  - pose proof (assertProtocol_plain_url scheme host
                  (written url.encodePath rp) q (written_fragment f)
                  (plain_url_written scheme host rp q f H)) as Hagain.
    cbv zeta in Hagain. rewrite Htwice, Hftwice in Hagain. exact Hagain.
  - unfold v, s. split.
    + intros Heq. do 3 apply append_inv_l in Heq.
      apply written_same_url in Heq as [Hp Hfr]; [|assumption..].
      split; [rewrite <- Hp; exact Hv|].
      destruct f as [[|c x]|]; [discriminate Hfr| |exact I].
      split; [discriminate|].
      destruct (written_facts url.encodeFragment (or_intror eq_refl)
                  (String c x) (Hf _ eq_refl)) as (Hvf & _).
      cbn [written_fragment String.eqb] in Hfr. injection Hfr as Hfr.
      rewrite <- Hfr. exact Hvf.
    + intros [Hval Hfr]. unfold written at 1. rewrite Hval.
      destruct f as [[|c x]|]; [destruct Hfr as [Hn _]; contradiction|
                                |reflexivity].
      destruct Hfr as [_ Hfr].
      cbn [written_fragment String.eqb]. unfold written. rewrite Hfr.
      reflexivity.
  - intros t u Hpre Hp.
    assert (force_https u = u) as Hu.
    { unfold force_https, is_http_or_https.
      destruct Hpre as [Hpre|Hpre]; apply prefix_inv in Hpre as (t' & ->).
      - rewrite (Parse_http _ _ Hp). reflexivity.
      - rewrite (Parse_https _ _ Hp). reflexivity. }
    split; [exact Hu|].
    unfold Part000.assertProtocol, Main2.assertProtocol. rewrite Hp.
    fold (force_https u). rewrite Hu. split; reflexivity.
Qed.

Lemma assertProtocol_keeps_scheme_witness :
  (Part000.assertProtocol "http://example.com/a b?x=1#"
   = ("http://example.com/a%20b?x=1", None) ∧
   Part000.assertProtocol "http://example.com/a%20b?x=1"
   = ("http://example.com/a%20b?x=1", None)) ∧
  (Part000.assertProtocol "https://example.com/a%2Fb/c?x=1&y=2#top"
   = ("https://example.com/a%2Fb/c?x=1&y=2#top", None) ∧
   url.validEncoded "/a%2Fb/c" url.encodePath = true ∧
   url.validEncoded "top" url.encodeFragment = true).
Proof.
  pose proof (assertProtocol_keeps_scheme "http" "example.com" "/a b"
                (Some "x=1") (Some "") eq_refl) as (H1 & H2 & _).
  pose proof (assertProtocol_keeps_scheme "https" "example.com" "/a%2Fb/c"
                (Some "x=1&y=2") (Some "top") eq_refl) as (H3 & _).
  split; [split; [exact (proj1 H1)|exact (proj1 H2)]|].
  split; [exact (proj1 H3)|split; reflexivity].
Defined.
